(** * EComFront client: image service, REST client and chat page

    A shallow embedding of the client-side utilities of the marketplace UI:

    - [ImageService]  : [ExtraFiles/src/utils/imageService.js]
    - [UploadRetry]   : [retryUpload] of [ExtraFiles/src/utils/supabase.js]
    - [ApiClient]     : [src/utils/apiClient.js] and [ExtraFiles/src/utils/apiClient.js]
    - [ChatPage]      : [handleSendMessage] of [ExtraFiles/src/components/ChatPage.js]
    - [ImageUrls], [ProductCard], [CreatePost] : the users of the image service
      ([getPublicUrls], [clearCache]; [getImageUrl] of [ProductCard.js]; the image
      handlers and [uploadImages] of [CreatePost.js])
    - [SupabaseAuth], [AuthContext], [ImageErrors] : [handleSupabaseError],
      [auth.signIn] and [analyzeUploadError] of [supabase.js], [login] of
      [AuthContext.js]

    Asynchronous functions are sequential ([await] at every call), so they are
    embedded as computations in a state-and-exception monad that also records
    the externally visible effects (SDK calls, HTTP requests, timers) in order.
    Everything outside the repository (the storage SDK, the compression
    library, [fetch], the clock) is an oracle of the [World]; an oracle is
    indexed by a tick that advances on every call, so that two calls with the
    same arguments may answer differently. *)

From Stdlib Require Import ZArith QArith Lia Ascii.
From stdpp Require Import base strings gmap list pretty.

(** ** JavaScript values and platform primitives *)

Module Js.

(** A thrown or returned error object; only [message] is ever read. *)
Record JsError := mkError { message : string }.

(** Completion of a call: a value, or an exception. *)
Inductive Res (A : Type) :=
| Ret (a : A)
| Throw (e : JsError).
Arguments Ret {A} a.
Arguments Throw {A} e.

Definition is_ret {A} (r : Res A) : bool :=
  match r with Ret _ => true | Throw _ => false end.

(** Truthiness of a string: only the empty string is falsy. *)
Definition truthy_string (s : string) : bool :=
  match s with EmptyString => false | String _ _ => true end.

(** [s.split(sep)] for a non-empty separator.  [skip] counts the
    characters of a separator occurrence that remain to be consumed, [acc]
    is the segment read so far. *)
Fixpoint split_aux (sep s : string) (skip : nat) (acc : string) : list string :=
  match s with
  | EmptyString => [acc]
  | String c s' =>
      match skip with
      | S k => split_aux sep s' k acc
      | O =>
          if String.prefix sep s
          then acc :: split_aux sep s' (String.length sep - 1) EmptyString
          else split_aux sep s' 0 (acc +:+ String c EmptyString)
      end
  end.

Definition split (sep s : string) : list string := split_aux sep s 0 EmptyString.

(** [arr.pop()] on the result of a split (never empty). *)
Definition pop (l : list string) : string := List.last l EmptyString.

(** [s.includes(sub)] *)
Fixpoint includes (s sub : string) : bool :=
  String.prefix sub s ||
  match s with
  | EmptyString => false
  | String _ s' => includes s' sub
  end.

(** White space removed by [String.prototype.trim], on the code units
    that a [string] of this development can hold. *)
Definition is_white_space (c : ascii) : bool :=
  let n := nat_of_ascii c in
  (n =? 9)%nat || (n =? 10)%nat || (n =? 11)%nat || (n =? 12)%nat
  || (n =? 13)%nat || (n =? 32)%nat || (n =? 160)%nat.

Fixpoint trimStart (s : string) : string :=
  match s with
  | EmptyString => EmptyString
  | String c s' => if is_white_space c then trimStart s' else s
  end.

Fixpoint trimEnd (s : string) : string :=
  match s with
  | EmptyString => EmptyString
  | String c s' =>
      match trimEnd s' with
      | EmptyString => if is_white_space c then EmptyString else String c EmptyString
      | t => String c t
      end
  end.

Definition trim (s : string) : string := trimEnd (trimStart s).

(** JSON-like values, as produced by [response.json()] and [JSON.parse]. *)
#[warnings="-register-all"] Inductive JsValue :=
| JUndefined
| JNull
| JBool (b : bool)
| JNum (n : Z)
| JStr (s : string)
| JArr (items : list JsValue)
| JObj (fields : list (string * JsValue)).

Definition truthy (v : JsValue) : bool :=
  match v with
  | JUndefined | JNull => false
  | JBool b => b
  | JNum n => negb (n =? 0)%Z
  | JStr s => truthy_string s
  | JArr _ | JObj _ => true
  end.

(** [a || b] *)
Definition js_or (a b : JsValue) : JsValue := if truthy a then a else b.

Fixpoint assoc (k : string) (fields : list (string * JsValue)) : JsValue :=
  match fields with
  | [] => JUndefined
  | (k', v) :: rest => if String.eqb k k' then v else assoc k rest
  end.

Definition TypeError_read (base prop : string) : JsError :=
  mkError ("Cannot read properties of " +:+ base +:+ " (reading '" +:+ prop +:+ "')").

(** [v.prop] for the data properties read by the client ([error],
    [message], [access_token], ...): reading from [null] or [undefined]
    throws, a primitive or an array has no such property. *)
Definition get_prop (v : JsValue) (prop : string) : Res JsValue :=
  match v with
  | JUndefined => Throw (TypeError_read "undefined" prop)
  | JNull => Throw (TypeError_read "null" prop)
  | JObj fields => Ret (assoc prop fields)
  | _ => Ret JUndefined
  end.

(** [v?.prop] *)
Definition get_prop_opt (v : JsValue) (prop : string) : JsValue :=
  match v with
  | JObj fields => assoc prop fields
  | _ => JUndefined
  end.

End Js.
Export Js.

(** ** Files, requests and observable effects *)

(** The fields of a browser [File] that the client reads. *)
Module File.
Record t := mk { name : string; size : Z; type : string }.
End File.

(** A call [fetch(url, { method, headers, body })]; a call without
    [method] is a GET. *)
Record Request := mkRequest {
  req_url : string;
  req_method : string;
  req_headers : list (string * string);
  req_body : option string;
}.

(** Console lines of the retry loops (the other console output of the
    client is diagnostic only and is not recorded). *)
Inductive LogLine :=
| LogUploadAttempt (attempt maxRetries : nat) (fileName : string)
| LogUploadAttemptFailed (attempt : nat) (error : JsError)
| LogRetrying (ms : Z)
| LogAttemptingUpload (attempt maxRetries : nat)
| LogUploadSuccessful (attempt : nat)
| LogUploadFailedRetrying (ms : Z)
| LogUploadGaveUp (maxRetries : nat).

Inductive Event :=
| EvConsole (line : LogLine)
| EvDelay (ms : Z)                                  (* setTimeout(resolve, ms), awaited *)
| EvCompress (file : File.t)                        (* imageCompression(file, options) *)
| EvUpload (bucket path : string) (file : File.t)   (* storage.from(bucket).upload *)
| EvGetPublicUrl (bucket path : string)             (* storage.from(bucket).getPublicUrl *)
| EvRemove (bucket : string) (paths : list string)  (* storage.from(bucket).remove *)
| EvGetSession                                      (* supabase.auth.getSession() *)
| EvFetch (req : Request)                           (* fetch(url, init) *)
| EvStorageWrite (key value : string)               (* localStorage.setItem *)
| EvScrollIntoView.                                 (* messagesEndRef.current?.scrollIntoView *)

(** ** The effect monad *)

Section Monad.
Context {St : Type}.

Record Out (A : Type) := mkOut {
  res : Res A;
  final : St;
  events : list Event;
}.
Global Arguments mkOut {A} _ _ _.
Global Arguments res {A} _.
Global Arguments final {A} _.
Global Arguments events {A} _.

Definition M (A : Type) : Type := St -> Out A.

Definition ret {A} (a : A) : M A := fun s => mkOut (Ret a) s [].
Definition throw {A} (e : JsError) : M A := fun s => mkOut (Throw e) s [].

Definition bind {A B} (m : M A) (k : A -> M B) : M B :=
  fun s =>
    let o := m s in
    match res o with
    | Ret a =>
        let o' := k a (final o) in
        mkOut (res o') (final o') (events o ++ events o')
    | Throw e => mkOut (Throw e) (final o) (events o)
    end.

(** [try { m } catch (error) { h error }]: effects and state changes made
    before the throw are kept. *)
Definition try_catch {A} (m : M A) (h : JsError -> M A) : M A :=
  fun s =>
    let o := m s in
    match res o with
    | Ret a => o
    | Throw e =>
        let o' := h e (final o) in
        mkOut (res o') (final o') (events o ++ events o')
    end.

(** [try { m } finally { f }] *)
Definition try_finally {A} (m : M A) (f : M unit) : M A :=
  fun s =>
    let o := m s in
    let o' := f (final o) in
    match res o' with
    | Ret _ => mkOut (res o) (final o') (events o ++ events o')
    | Throw e => mkOut (Throw e) (final o') (events o ++ events o')
    end.

Definition emit (e : Event) : M unit := fun s => mkOut (Ret tt) s [e].
Definition get : M St := fun s => mkOut (Ret s) s [].
Definition modify (f : St -> St) : M unit := fun s => mkOut (Ret tt) (f s) [].
Definition lift {A} (r : Res A) : M A := fun s => mkOut r s [].
End Monad.
Arguments Out : clear implicits.
Arguments M : clear implicits.

Notation "'let*' x ':=' m 'in' k" := (bind m (fun x => k))
  (at level 10, x pattern, m at level 100, k at level 200).

(** ** The image service ([imageService.js]) *)

Module ImageService.

(** [IMAGE_CONFIG], and the shape of [{...IMAGE_CONFIG, ...options}]. *)
Record Config := mkConfig {
  maxSizeMB : Q;
  maxWidthOrHeight : Z;
  quality : Q;
  allowedTypes : list string;
  maxRetries : nat;
  retryDelay : Z;
}.

Definition IMAGE_CONFIG : Config := {|
  maxSizeMB := 2;
  maxWidthOrHeight := 1920;
  quality := 8 # 10;
  allowedTypes := ["image/jpeg"; "image/png"; "image/webp"; "image/gif"];
  maxRetries := 3;
  retryDelay := 1000;
|}.

(** The [options] argument of [compressImage], [uploadImage] and
    [uploadMultipleImages]; [None] is an absent key. *)
Record Options := mkOptions {
  opt_maxSizeMB : option Q;
  opt_maxWidthOrHeight : option Z;
  opt_quality : option Q;
  opt_allowedTypes : option (list string);
  opt_maxRetries : option nat;
  opt_retryDelay : option Z;
}.

Definition no_options : Options := mkOptions None None None None None None.

(** [{ ...IMAGE_CONFIG, ...options }] *)
Definition spread (c : Config) (o : Options) : Config := {|
  maxSizeMB := default (maxSizeMB c) (opt_maxSizeMB o);
  maxWidthOrHeight := default (maxWidthOrHeight c) (opt_maxWidthOrHeight o);
  quality := default (quality c) (opt_quality o);
  allowedTypes := default (allowedTypes c) (opt_allowedTypes o);
  maxRetries := default (maxRetries c) (opt_maxRetries o);
  retryDelay := default (retryDelay c) (opt_retryDelay o);
|}.

(** Answers of the storage SDK. *)
Record UploadResponse := mkUploadResponse {
  up_data : option string;
  up_error : option JsError;
}.

Record PublicUrlData := mkPublicUrlData { publicUrl : string }.

Record PublicUrlResponse := mkPublicUrlResponse { url_data : option PublicUrlData }.

Record RemoveResponse := mkRemoveResponse { rm_error : option JsError }.

(** Everything the service calls but does not define.  The first argument
    of an oracle is the tick of the call. *)
Record World := mkWorld {
  imageCompression : nat -> File.t -> Config -> Res File.t;
  storage_upload : nat -> string -> string -> File.t -> Res UploadResponse;
  storage_getPublicUrl : nat -> string -> string -> Res PublicUrlResponse;
  storage_remove : nat -> string -> list string -> Res RemoveResponse;
  Date_now : nat -> Z;
  (** [Math.random().toString(36).substring(2, 8)] *)
  Math_random_id : nat -> string;
  (** [process.env.REACT_APP_SUPABASE_URL] *)
  supabaseUrl : option string;
}.

(** The service instance: [this.cache] (a [Map]) and the tick of the
    oracles.  [this.bucket] is assigned once, in the constructor. *)
Record Service := mkService {
  cache : gmap string string;
  tick : nat;
}.

Definition bucket : string := "post-images".

Definition new_service : Service := mkService ∅ 0.

Inductive ErrorValue :=
| ErrorObject (e : JsError)
| ErrorString (s : string).

(** [data] of a successful upload: [{ ...metadata, publicUrl, storagePath }]. *)
Record UploadData := mkUploadData {
  storage_path : string;
  filename : string;
  original_filename : string;
  file_size : Z;
  mime_type : string;
  image_url : string;
  data_publicUrl : string;
  data_storagePath : string;
}.

(** The two shapes [uploadImage] returns:
    [{ success: true, data, attempt }] and [{ success: false, error, attempts }]. *)
Inductive UploadResult :=
| UploadOk (data : UploadData) (attempt : nat)
| UploadFailed (error : ErrorValue) (attempts : nat).

Definition success (r : UploadResult) : bool :=
  match r with UploadOk _ _ => true | UploadFailed _ _ => false end.

Record FailedUpload := mkFailedUpload {
  failed_file : string;
  failed_error : ErrorValue;
  failed_attempt : nat;
}.

Record Summary := mkSummary { total : nat; successful : nat; failed : nat }.

Record BatchResult := mkBatchResult {
  batch_success : bool;
  results : list UploadResult;
  successfulUploads : list UploadData;
  failedUploads : list FailedUpload;
  summary : Summary;
}.

Record DeleteResult := mkDeleteResult {
  del_success : bool;
  del_message : option string;
  del_error : option string;
}.

Inductive ValidationError :=
| FileSizeExceeds (limitMB : Q)      (* `File size exceeds ${maxSize / (1024 * 1024)}MB limit` *)
| FileTypeNotAllowed (type : string). (* `File type ${file.type} is not allowed` *)

Record ValidateOptions := mkValidateOptions {
  vopt_maxSize : option Q;
  vopt_allowedTypes : option (list string);
}.

Record Validation := mkValidation {
  valid : bool;
  errors : list ValidationError;
  file : File.t;
}.

Section WithWorld.
Context (w : World).

(** A call to an oracle that answers with a value. *)
Definition ask {A} (f : nat -> A) : M Service A :=
  fun s => mkOut (Ret (f (tick s))) (mkService (cache s) (S (tick s))) [].

(** A call to an oracle that may throw, recorded as [ev]. *)
Definition call {A} (ev : Event) (f : nat -> Res A) : M Service A :=
  fun s => mkOut (f (tick s)) (mkService (cache s) (S (tick s))) [ev].

Definition cache_get (k : string) : M Service (option string) :=
  fun s => mkOut (Ret (cache s !! k)) s [].

Definition cache_set (k v : string) : M Service unit :=
  modify (fun s => mkService (<[k := v]> (cache s)) (tick s)).

Definition cache_delete (k : string) : M Service unit :=
  modify (fun s => mkService (delete k (cache s)) (tick s)).

(** [delay(ms)] *)
Definition delay (ms : Z) : M Service unit := emit (EvDelay ms).

(** [compressImage(file, options)] *)
Definition compressImage (file : File.t) (options : Options) : M Service File.t :=
  try_catch
    (let compressionOptions := spread IMAGE_CONFIG options in
     if Qle_bool (inject_Z (File.size file)) (maxSizeMB compressionOptions * 1024 * 1024)
     then ret file
     else
       let* compressedFile :=
         call (EvCompress file) (fun t => imageCompression w t file compressionOptions) in
       ret compressedFile)
    (fun error => ret file).

(** [generateFilename(originalName, entityId)] *)
Definition generateFilename (originalName entityId : string) : M Service string :=
  let* timestamp := ask (Date_now w) in
  let* randomId := ask (Math_random_id w) in
  let extension := pop (split "." originalName) in
  ret (entityId +:+ "/" +:+ pretty timestamp +:+ "-" +:+ randomId +:+ "." +:+ extension).

(** [constructCdnUrl(storagePath)]: [supabaseUrl.split('//')[1].split('.')[0]]
    throws when the environment variable is unset or holds no ["//"]. *)
Definition constructCdnUrl (storagePath : string) : Res string :=
  match supabaseUrl w with
  | None => Throw (TypeError_read "undefined" "split")
  | Some url =>
      match split "//" url !! 1 with
      | None => Throw (TypeError_read "undefined" "split")
      | Some rest =>
          let projectRef := default EmptyString (split "." rest !! 0) in
          Ret ("https://" +:+ projectRef +:+ ".supabase.co/storage/v1/object/public/"
                 +:+ bucket +:+ "/" +:+ storagePath)
      end
  end.

(** [getPublicUrl(storagePath)] *)
Definition getPublicUrl (storagePath : string) : M Service string :=
  let* cachedUrl := cache_get storagePath in
  match cachedUrl with
  | Some (String c u) => ret (String c u)
  | _ =>
      let* generated :=
        try_catch
          (let* r := call (EvGetPublicUrl bucket storagePath)
                          (fun t => storage_getPublicUrl w t bucket storagePath) in
           match url_data r with
           | Some (mkPublicUrlData (String c u)) =>
               let* _ := cache_set storagePath (String c u) in
               ret (Some (String c u))
           | _ => ret None
           end)
          (fun error => ret None) in
      match generated with
      | Some url => ret url
      | None =>
          let* fallbackUrl := lift (constructCdnUrl storagePath) in
          let* _ := cache_set storagePath fallbackUrl in
          ret fallbackUrl
      end
  end.

(** The body of the [try] block of [uploadImage]: one upload attempt. *)
Definition uploadAttempt (file : File.t) (entityId : string) (options : Options)
    (attempt maxRetries : nat) : M Service UploadData :=
  let* _ := emit (EvConsole (LogUploadAttempt attempt maxRetries (File.name file))) in
  let* compressedFile := compressImage file options in
  let* storagePath := generateFilename (File.name file) entityId in
  let* r := call (EvUpload bucket storagePath compressedFile)
                 (fun t => storage_upload w t bucket storagePath compressedFile) in
  match up_error r with
  | Some error => throw error
  | None =>
      let* publicUrl := getPublicUrl storagePath in
      let* _ := cache_set storagePath publicUrl in
      ret {| storage_path := storagePath;
             filename := pop (split "/" storagePath);
             original_filename := File.name file;
             file_size := File.size compressedFile;
             mime_type := File.type compressedFile;
             image_url := publicUrl;
             data_publicUrl := publicUrl;
             data_storagePath := storagePath |}
  end.

(** [lastError || 'Upload failed after multiple attempts'] *)
Definition lastError_or_default (lastError : option JsError) : ErrorValue :=
  match lastError with
  | Some e => ErrorObject e
  | None => ErrorString "Upload failed after multiple attempts"
  end.

(** [for (let attempt = 1; attempt <= maxRetries; attempt++) { try ... catch ... }]
    followed by the final [return].  [remaining] is the loop variant
    [maxRetries + 1 - attempt]. *)
Fixpoint uploadImage_loop (file : File.t) (entityId : string) (options : Options)
    (maxRetries : nat) (retryDelay : Z)
    (remaining attempt : nat) (lastError : option JsError) : M Service UploadResult :=
  match remaining with
  | O => ret (UploadFailed (lastError_or_default lastError) maxRetries)
  | S remaining' =>
      fun s =>
        let o := uploadAttempt file entityId options attempt maxRetries s in
        match res o with
        | Ret data => mkOut (Ret (UploadOk data attempt)) (final o) (events o)
        | Throw error =>
            let handler :=
              let* _ := emit (EvConsole (LogUploadAttemptFailed attempt error)) in
              let* _ :=
                if (attempt <? maxRetries)%nat
                then let* _ := emit (EvConsole (LogRetrying retryDelay)) in delay retryDelay
                else ret tt in
              uploadImage_loop file entityId options maxRetries retryDelay
                remaining' (S attempt) (Some error) in
            let o' := handler (final o) in
            mkOut (res o') (final o') (events o ++ events o')
        end
  end.

(** [options.maxRetries || IMAGE_CONFIG.maxRetries]: an absent key and [0]
    are both falsy. *)
Definition effective_maxRetries (options : Options) : nat :=
  match opt_maxRetries options with
  | Some (S n) => S n
  | _ => maxRetries IMAGE_CONFIG
  end.

(** [options.retryDelay || IMAGE_CONFIG.retryDelay] *)
Definition effective_retryDelay (options : Options) : Z :=
  match opt_retryDelay options with
  | Some d => if (d =? 0)%Z then retryDelay IMAGE_CONFIG else d
  | None => retryDelay IMAGE_CONFIG
  end.

(** [uploadImage(file, entityId, options)] *)
Definition uploadImage (file : File.t) (entityId : string) (options : Options)
    : M Service UploadResult :=
  let maxRetries := effective_maxRetries options in
  let retryDelay := effective_retryDelay options in
  uploadImage_loop file entityId options maxRetries retryDelay maxRetries 1 None.

(** The loop of [uploadMultipleImages], with its three arrays. *)
Fixpoint uploadMultipleImages_loop (files : list File.t) (entityId : string)
    (options : Options)
    (results : list UploadResult) (successfulUploads : list UploadData)
    (failedUploads : list FailedUpload)
    : M Service (list UploadResult * list UploadData * list FailedUpload) :=
  match files with
  | [] => ret (results, successfulUploads, failedUploads)
  | file :: rest =>
      let* result := uploadImage file entityId options in
      let results := results ++ [result] in
      match result with
      | UploadOk data _ =>
          uploadMultipleImages_loop rest entityId options
            results (successfulUploads ++ [data]) failedUploads
      | UploadFailed error attempts =>
          uploadMultipleImages_loop rest entityId options
            results successfulUploads
            (failedUploads ++ [mkFailedUpload (File.name file) error attempts])
      end
  end.

(** [uploadMultipleImages(files, entityId, options)] *)
Definition uploadMultipleImages (files : list File.t) (entityId : string)
    (options : Options) : M Service BatchResult :=
  let* arrays := uploadMultipleImages_loop files entityId options [] [] [] in
  let '(results, successfulUploads, failedUploads) := arrays in
  ret {| batch_success := (length failedUploads =? 0)%nat;
         results := results;
         successfulUploads := successfulUploads;
         failedUploads := failedUploads;
         summary := {| total := length files;
                       successful := length successfulUploads;
                       failed := length failedUploads |} |}.

(** [deleteImage(storagePath)] *)
Definition deleteImage (storagePath : string) : M Service DeleteResult :=
  try_catch
    (let* r := call (EvRemove bucket [storagePath])
                    (fun t => storage_remove w t bucket [storagePath]) in
     match rm_error r with
     | Some error => throw error
     | None =>
         let* _ := cache_delete storagePath in
         ret (mkDeleteResult true (Some "Image deleted successfully") None)
     end)
    (fun error => ret (mkDeleteResult false None (Some (message error)))).

End WithWorld.

(** [validateFile(file, options)]; [config] is
    [{ maxSize: IMAGE_CONFIG.maxSizeMB * 1024 * 1024,
       allowedTypes: IMAGE_CONFIG.allowedTypes, ...options }]. *)
Definition validate_maxSize (options : ValidateOptions) : Q :=
  default (maxSizeMB IMAGE_CONFIG * 1024 * 1024)%Q (vopt_maxSize options).

Definition validate_allowedTypes (options : ValidateOptions) : list string :=
  default (allowedTypes IMAGE_CONFIG) (vopt_allowedTypes options).

(** [arr.includes(x)] on an array of strings *)
Definition array_includes (l : list string) (x : string) : bool :=
  existsb (String.eqb x) l.

Definition validateFile (file : File.t) (options : ValidateOptions) : Validation :=
  let maxSize := validate_maxSize options in
  let allowed := validate_allowedTypes options in
  let errors := [] in
  let errors :=
    if negb (Qle_bool (inject_Z (File.size file)) maxSize)
    then errors ++ [FileSizeExceeds (maxSize / (1024 * 1024))%Q]
    else errors in
  let errors :=
    if negb (array_includes allowed (File.type file))
    then errors ++ [FileTypeNotAllowed (File.type file)]
    else errors in
  {| valid := (length errors =? 0)%nat; errors := errors; file := file |}.

(** The options [handleImageUpload] of [CreatePost.js] passes to
    [validateFile]. *)
Definition CreatePost_validate_options : ValidateOptions := {|
  vopt_maxSize := Some (5 * 1024 * 1024)%Q;
  vopt_allowedTypes := Some ["image/jpeg"; "image/png"; "image/gif"; "image/webp"];
|}.

(** The options [uploadImages] of [CreatePost.js] passes to
    [uploadMultipleImages]. *)
Definition CreatePost_upload_options : Options := {|
  opt_maxSizeMB := Some 5%Q;
  opt_maxWidthOrHeight := Some 1920%Z;
  opt_quality := Some (8 # 10);
  opt_allowedTypes := None;
  opt_maxRetries := Some 3;
  opt_retryDelay := Some 1000%Z;
|}.

End ImageService.

(** ** [retryUpload] ([supabase.js]) *)

Module UploadRetry.

(** [result.error] of what the upload callback resolves to: absent, a
    string, or an error object. *)
Inductive CallbackError :=
| CbAbsent
| CbString (s : string)
| CbObject (e : JsError).

Record CallbackResult := mkCallbackResult {
  cb_success : bool;
  cb_error : CallbackError;
}.

(** [retryUpload] resolves to the callback's own result, or to
    [{ success: false, error }]. *)
Inductive RetryResult :=
| RetryReturned (result : CallbackResult)
| RetryFailed (error : CallbackError).

(** How one pass through the [try] block leaves the loop body. *)
Inductive Step :=
| StepReturn (result : CallbackResult)
| StepBreak (lastError : CallbackError)
| StepNext (lastError : CallbackError).

(** [result.error?.includes('Invalid file') || result.error?.includes('validation')];
    an error object has no [includes] method. *)
Definition is_validation_error (error : CallbackError) : Res bool :=
  match error with
  | CbAbsent => Ret false
  | CbString s => Ret (includes s "Invalid file" || includes s "validation")
  | CbObject _ => Throw (mkError "result.error?.includes is not a function")
  end.

(** [lastError || 'Upload failed after multiple attempts'] *)
Definition lastError_or_default (lastError : CallbackError) : CallbackError :=
  match lastError with
  | CbAbsent | CbString EmptyString => CbString "Upload failed after multiple attempts"
  | e => e
  end.

(** [delay * Math.pow(2, attempt - 1)] *)
Definition backoffDelay (delay : Z) (attempt : nat) : Z :=
  (delay * 2 ^ (Z.of_nat attempt - 1))%Z.

Section Retry.
Context {St : Type} (uploadFunction : M St CallbackResult).

(** The [try] / [catch] of one iteration. *)
Definition retry_iteration (maxRetries : nat) (delay : Z) (attempt : nat) : M St Step :=
  try_catch
    (let* _ := emit (EvConsole (LogAttemptingUpload attempt maxRetries)) in
     let* result := uploadFunction in
     if cb_success result
     then
       let* _ := emit (EvConsole (LogUploadSuccessful attempt)) in
       ret (StepReturn result)
     else
       let lastError := cb_error result in
       let* stop := lift (is_validation_error (cb_error result)) in
       if stop then ret (StepBreak lastError)
       else
         let backoff := backoffDelay delay attempt in
         let* _ := emit (EvConsole (LogUploadFailedRetrying backoff)) in
         let* _ := emit (EvDelay backoff) in
         ret (StepNext lastError))
    (fun error =>
       let* _ := emit (EvConsole (LogUploadAttemptFailed attempt error)) in
       let backoff := backoffDelay delay attempt in
       let* _ := emit (EvConsole (LogRetrying backoff)) in
       let* _ := emit (EvDelay backoff) in
       ret (StepNext (CbObject error))).

Definition after_loop (maxRetries : nat) (lastError : CallbackError) : M St RetryResult :=
  let* _ := emit (EvConsole (LogUploadGaveUp maxRetries)) in
  ret (RetryFailed (lastError_or_default lastError)).

(** [for (let attempt = 1; attempt <= maxRetries; attempt++)]; [remaining]
    is the loop variant [maxRetries + 1 - attempt]. *)
Fixpoint retryUpload_loop (maxRetries : nat) (delay : Z)
    (remaining attempt : nat) (lastError : CallbackError) : M St RetryResult :=
  match remaining with
  | O => after_loop maxRetries lastError
  | S remaining' =>
      let* step := retry_iteration maxRetries delay attempt in
      match step with
      | StepReturn result => ret (RetryReturned result)
      | StepBreak lastError => after_loop maxRetries lastError
      | StepNext lastError =>
          retryUpload_loop maxRetries delay remaining' (S attempt) lastError
      end
  end.

(** [retryUpload(uploadFunction, maxRetries = 3, delay = 1000)] *)
Definition retryUpload (maxRetries : nat) (delay : Z) : M St RetryResult :=
  retryUpload_loop maxRetries delay maxRetries 1 CbAbsent.

Definition retryUpload_default : M St RetryResult := retryUpload 3 1000.

End Retry.
End UploadRetry.

(** ** The REST client ([apiClient.js], two versions) *)

(** What the two versions share: the shapes of requests and answers, and
    the three methods that both files spell out in the same way. *)
Module Http.

Record Response := mkResponse {
  ok : bool;
  resp_status : Z;
  (** [response.headers.get("content-type")] *)
  content_type : option string;
  (** what [response.json()] and [response.text()] settle to *)
  resp_json : Res JsValue;
  resp_text : Res string;
}.

Record Session := mkSession { access_token : option string }.

(** [{ data: { session }, error }]; [sess_data = None] is an answer without
    a [data] object. *)
Record SessionResponse := mkSessionResponse {
  sess_data : option (option Session);
  sess_error : option JsError;
}.

Record World := mkWorld {
  auth_getSession : nat -> Res SessionResponse;
  fetch : nat -> Request -> Res Response;
  localStorage_getItem : string -> Res (option string);
  process_env : string -> option string;
  import_meta_env : string -> option string;
}.

(** What every method resolves to; [status] is set by the newer [get] only. *)
Record ApiResult := mkApiResult {
  success : bool;
  data : JsValue;
  error : JsValue;
  status : option Z;
}.

(** The [catch] block of every method:
    [error.message || "Network error. Please try again later."] *)
Definition network_error (error : JsError) : ApiResult := {|
  success := false;
  data := JNull;
  error := JStr (if truthy_string (message error) then message error
                 else "Network error. Please try again later.");
  status := None;
|}.

Definition json_headers : list (string * string) :=
  [("Content-Type", "application/json")].

(** [if (token) { headers["Authorization"] = `Bearer ${token}`; }] *)
Definition add_authorization (token : option string) (headers : list (string * string))
    : list (string * string) :=
  match token with
  | Some (String c t) => headers ++ [("Authorization", "Bearer " +:+ String c t)]
  | _ => headers
  end.

Section Methods.
Context (w : World).
(** [JSON.stringify] of the platform ([None] is [undefined]). *)
Context (JSON_stringify : JsValue -> option string).
Context (API_URL : string) (getAuthToken : M nat (option string)).

(** The client's state is only the tick of its oracles. *)
Definition call {A} (ev : Event) (f : nat -> Res A) : M nat A :=
  fun t => mkOut (f t) (S t) [ev].

Definition do_fetch (req : Request) : M nat Response :=
  call (EvFetch req) (fun t => fetch w t req).

(** [get] of the older file, without [method] and [body]. *)
Definition get_plain (endpoint : string) : M nat ApiResult :=
  try_catch
    (let headers := json_headers in
     let* token := getAuthToken in
     let headers := add_authorization token headers in
     let* response := do_fetch (mkRequest (API_URL +:+ endpoint) "GET" headers None) in
     let* data := lift (resp_json response) in
     if ok response
     then ret (mkApiResult true data JNull None)
     else
       let* e := lift (get_prop data "error") in
       ret (mkApiResult false JNull e None))
    (fun error => ret (network_error error)).

(** [post] and [put], which differ in the [method] string only. *)
Definition send (method : string) (endpoint : string) (body : JsValue)
    : M nat ApiResult :=
  try_catch
    (let headers := json_headers in
     let* token := getAuthToken in
     let headers := add_authorization token headers in
     let* response :=
       do_fetch (mkRequest (API_URL +:+ endpoint) method headers (JSON_stringify body)) in
     let* responseData := lift (resp_json response) in
     if ok response
     then ret (mkApiResult true responseData JNull None)
     else
       let* e := lift (get_prop responseData "error") in
       ret (mkApiResult false JNull e None))
    (fun error => ret (network_error error)).

Definition post (endpoint : string) (body : JsValue) : M nat ApiResult :=
  send "POST" endpoint body.

Definition put (endpoint : string) (body : JsValue) : M nat ApiResult :=
  send "PUT" endpoint body.

Definition delete (endpoint : string) : M nat ApiResult :=
  try_catch
    (let headers := json_headers in
     let* token := getAuthToken in
     let headers := add_authorization token headers in
     let* response :=
       do_fetch (mkRequest (API_URL +:+ endpoint) "DELETE" headers None) in
     let* responseData := lift (resp_json response) in
     if ok response
     then ret (mkApiResult true responseData JNull None)
     else
       let* e := lift (get_prop responseData "error") in
       ret (mkApiResult false JNull (js_or e (JStr "Failed to delete resource")) None))
    (fun error => ret (network_error error)).

End Methods.
End Http.

(** *** [src/utils/apiClient.js] *)

Module ApiClient.
Import Http.

Section WithWorld.
Context (w : World).
(** [JSON.parse] and [JSON.stringify] of the platform. *)
Context (JSON_parse : string -> Res JsValue).
Context (JSON_stringify : JsValue -> option string).

(** [getEnv(key, defaultValue)] of [config.js] *)
Definition getEnv (key : string) (defaultValue : string) : string :=
  match process_env w key with
  | Some (String c v) => String c v
  | _ =>
      match import_meta_env w key with
      | Some (String c v) => String c v
      | _ => defaultValue
      end
  end.

Definition API_URL : string := getEnv "REACT_APP_API_URL" "https://peechey.vercel.app".

(** [session?.access_token || null] *)
Definition session_token (session : option Session) : option string :=
  match session with
  | Some s =>
      match access_token s with
      | Some (String c t) => Some (String c t)
      | _ => None
      end
  | None => None
  end.

Definition getAuthToken : M nat (option string) :=
  try_catch
    (let* r := call EvGetSession (auth_getSession w) in
     match sess_data r with
     | None => throw (TypeError_read "undefined" "session")
     | Some session =>
         match sess_error r with
         | Some error => ret None
         | None => ret (session_token session)
         end
     end)
    (fun error => ret None).

(** The body of a response whose content type is not JSON:
    [try { data = JSON.parse(text) } catch (e) { data = { error: text || "Request failed" } }] *)
Definition parse_text (text : string) : JsValue :=
  match JSON_parse text with
  | Ret v => v
  | Throw _ => JObj [("error", JStr (if truthy_string text then text else "Request failed"))]
  end.

(** [contentType && contentType.includes("application/json")] *)
Definition is_json_content_type (contentType : option string) : bool :=
  match contentType with
  | Some ct => truthy_string ct && includes ct "application/json"
  | None => false
  end.

Definition get (endpoint : string) : M nat ApiResult :=
  try_catch
    (let headers := json_headers in
     let* token := getAuthToken in
     let headers := add_authorization token headers in
     let* response := do_fetch w (mkRequest (API_URL +:+ endpoint) "GET" headers None) in
     let contentType := content_type response in
     let* data :=
       if is_json_content_type contentType
       then lift (resp_json response)
       else
         let* text := lift (resp_text response) in
         ret (parse_text text) in
     if ok response
     then ret (mkApiResult true data JNull (Some (resp_status response)))
     else
       let* e := lift (get_prop data "error") in
       let* e' :=
         if truthy e then ret e
         else
           let* m := lift (get_prop data "message") in
           ret (js_or m (JStr ("HTTP " +:+ pretty (resp_status response)))) in
       ret (mkApiResult false JNull e' (Some (resp_status response))))
    (fun error => ret (network_error error)).

Definition post := Http.post w JSON_stringify API_URL getAuthToken.
Definition put := Http.put w JSON_stringify API_URL getAuthToken.
Definition delete := Http.delete w API_URL getAuthToken.

End WithWorld.
End ApiClient.

(** *** [ExtraFiles/src/utils/apiClient.js] *)

Module ExtraApiClient.
Import Http.

Section WithWorld.
Context (w : World).
Context (JSON_parse : string -> Res JsValue).
Context (JSON_stringify : JsValue -> option string).

(** [process.env.REACT_APP_API_URL || 'http://localhost:5000'] *)
Definition API_URL : string :=
  match process_env w "REACT_APP_API_URL" with
  | Some (String c v) => String c v
  | _ => "http://localhost:5000"
  end.

(** A candidate [access_token] read out of the parsed entry: it is returned
    when truthy, after [token.substring(0, 20)] was logged, which only a
    string supports. *)
Definition found (token : JsValue) : Res string :=
  match token with
  | JStr s => Ret s
  | _ => Throw (mkError "substring is not a function")
  end.

(** The inner [try] block for one storage entry: [Some token] returns from
    [getAuthToken], [None] goes on to the next key. *)
Definition token_of_entry (entry : string) : Res (option string) :=
  match JSON_parse entry with
  | Throw e => Throw e
  | Ret parsedToken =>
      let t1 := get_prop_opt (get_prop_opt parsedToken "currentSession") "access_token" in
      if truthy t1 then
        match found t1 with Ret s => Ret (Some s) | Throw e => Throw e end
      else
        let t2 := get_prop_opt parsedToken "access_token" in
        if truthy t2 then
          match found t2 with Ret s => Ret (Some s) | Throw e => Throw e end
        else
          let t3 := get_prop_opt (get_prop_opt parsedToken "session") "access_token" in
          if truthy t3 then
            match found t3 with Ret s => Ret (Some s) | Throw e => Throw e end
          else Ret None
  end.

Definition possibleKeys : list string :=
  ["supabase.auth.token"; "supabase.session"; "auth:token"].

(** [for (const key of possibleKeys) { ... }] and what follows it; a throw of
    [localStorage.getItem] leaves through the outer [catch]. *)
Fixpoint scan_keys (keys : list string) : Res (option string) :=
  match keys with
  | [] =>
      match localStorage_getItem w "access_token" with
      | Throw e => Throw e
      | Ret (Some (String c t)) => Ret (Some (String c t))
      | Ret _ => Ret None
      end
  | key :: rest =>
      match localStorage_getItem w key with
      | Throw e => Throw e
      | Ret (Some (String c entry)) =>
          match token_of_entry (String c entry) with
          | Ret (Some token) => Ret (Some token)
          | Ret None | Throw _ => scan_keys rest
          end
      | Ret _ => scan_keys rest
      end
  end.

Definition getAuthToken : M nat (option string) :=
  match scan_keys possibleKeys with
  | Ret token => ret token
  | Throw _ => ret None
  end.

Definition get := Http.get_plain w API_URL getAuthToken.
Definition post := Http.post w JSON_stringify API_URL getAuthToken.
Definition put := Http.put w JSON_stringify API_URL getAuthToken.
Definition delete := Http.delete w API_URL getAuthToken.

End WithWorld.
End ExtraApiClient.

(** ** The chat page ([ChatPage.js]) *)

Module ChatPage.

Record User := mkUser { user_id : string; user_name : string }.

Record Sender := mkSender {
  sender_ident : string;
  username : string;
  full_name : string;
  avatar_url : option string;
}.

Record ChatMessage := mkChatMessage {
  id : string;
  content : string;
  sender_id : string;
  created_at : string;
  sender : Sender;
}.

(** The [useState] cells of the component that [handleSendMessage] reads
    or sets. *)
Record State := mkState {
  user : option User;
  messages : list ChatMessage;
  newMessage : string;
  isSendingMessage : bool;
  error : option string;
}.

Record World := mkWorld {
  Date_now : Z;
  (** [new Date().toISOString()] *)
  Date_toISOString : string;
  (** whether [messagesEndRef.current] is set *)
  messagesEndRef_current : bool;
}.

Definition setIsSendingMessage (b : bool) : M State unit :=
  modify (fun s => mkState (user s) (messages s) (newMessage s) b (error s)).

Definition setNewMessage (v : string) : M State unit :=
  modify (fun s => mkState (user s) (messages s) v (isSendingMessage s) (error s)).

Definition setMessages (f : list ChatMessage -> list ChatMessage) : M State unit :=
  modify (fun s => mkState (user s) (f (messages s)) (newMessage s) (isSendingMessage s) (error s)).

Definition setError (e : option string) : M State unit :=
  modify (fun s => mkState (user s) (messages s) (newMessage s) (isSendingMessage s) e).

Section WithWorld.
Context (w : World).

(** [messagesEndRef.current?.scrollIntoView({ behavior: 'smooth' })] *)
Definition scrollToBottom : M State unit :=
  if messagesEndRef_current w then emit EvScrollIntoView else ret tt.

Definition mockMessage (u : User) (messageContent : string) : ChatMessage := {|
  id := pretty (Date_now w);
  content := messageContent;
  sender_id := user_id u;
  created_at := Date_toISOString w;
  sender := {| sender_ident := user_id u;
               username := user_name u;
               full_name := user_name u;
               avatar_url := None |};
|}.

(** [handleSendMessage]; [props] holds the values the handler closed over
    ([newMessage], [user], [isSendingMessage] of the render that made it). *)
Definition handleSendMessage : M State unit :=
  let* props := get in
  match user props with
  | Some u =>
      if negb (truthy_string (trim (newMessage props))) || isSendingMessage props
      then ret tt
      else
        try_finally
          (try_catch
             (let* _ := setIsSendingMessage true in
              let messageContent := trim (newMessage props) in
              let* _ := setNewMessage EmptyString in
              let* _ := setMessages (fun prev => prev ++ [mockMessage u messageContent]) in
              let* _ := scrollToBottom in
              ret tt)
             (fun err =>
                let* _ := setError (Some "Failed to send message. Please try again.") in
                setNewMessage (newMessage props)))
          (setIsSendingMessage false)
  | None => ret tt
  end.

End WithWorld.
End ChatPage.

(** ** Reading traces *)

Module Trace.

Definition delay_of (e : Event) : option Z :=
  match e with EvDelay ms => Some ms | _ => None end.

(** The waits of a run, in order. *)
Definition delays (tr : list Event) : list Z := omap delay_of tr.

Definition started_of (e : Event) : option nat :=
  match e with EvConsole (LogUploadAttempt a _ _) => Some a | _ => None end.

(** The attempts of [uploadImage] that were started, in order. *)
Definition attempts_started (tr : list Event) : list nat := omap started_of tr.

Definition failure_of (e : Event) : option (nat * JsError) :=
  match e with EvConsole (LogUploadAttemptFailed a err) => Some (a, err) | _ => None end.

(** The attempts that failed, each with the error it was caught with. *)
Definition attempts_failed (tr : list Event) : list (nat * JsError) := omap failure_of tr.

Definition upload_of (e : Event) : option string :=
  match e with EvUpload _ path _ => Some path | _ => None end.

(** The storage paths of the upload calls made, in order. *)
Definition uploads (tr : list Event) : list string := omap upload_of tr.

(** A retry loop seen from outside: failed attempts and the waits
    between them. *)
Inductive RetryObs :=
| Failed (attempt : nat) (e : JsError)
| Waited (ms : Z).

Definition retry_obs_of (e : Event) : option RetryObs :=
  match e with
  | EvConsole (LogUploadAttemptFailed a err) => Some (Failed a err)
  | EvDelay ms => Some (Waited ms)
  | _ => None
  end.

Definition retry_view (tr : list Event) : list RetryObs := omap retry_obs_of tr.

(** The view of a loop in which the attempts numbered from [attempt] on
    fail with [errors], and every failed attempt before attempt
    [maxRetries] is followed by a wait of [wait attempt]. *)
Fixpoint schedule (wait : nat -> Z) (maxRetries attempt : nat) (errors : list JsError)
    : list RetryObs :=
  match errors with
  | [] => []
  | e :: rest =>
      Failed attempt e
        :: (if (attempt <? maxRetries)%nat then [Waited (wait attempt)] else [])
        ++ schedule wait maxRetries (S attempt) rest
  end.

(** The base delay multiplied by [2^(attempt-1)]. *)
Definition exponential_wait (base : Z) (attempt : nat) : Z :=
  (base * 2 ^ (Z.of_nat attempt - 1))%Z.

(** The base delay itself, whatever the attempt. *)
Definition constant_wait (base : Z) (attempt : nat) : Z := base.

(** Events that leave the page: an HTTP request, a call of the hosted
    backend, a write to persistent browser storage. *)
Definition leaves_the_page (e : Event) : bool :=
  match e with
  | EvFetch _ | EvStorageWrite _ _ | EvUpload _ _ _ | EvRemove _ _
  | EvGetSession | EvGetPublicUrl _ _ => true
  | _ => false
  end.

Definition wait_of (o : RetryObs) : option Z :=
  match o with Waited ms => Some ms | Failed _ _ => None end.

(** The error a loop holds after the attempts that failed with [errors],
    having started with [lastError]. *)
Definition last_error (lastError : option JsError) (errors : list JsError)
    : option JsError :=
  match last errors with
  | Some e => Some e
  | None => lastError
  end.

(** Events that none of the views above reads. *)
Definition silent (e : Event) : Prop :=
  match e with
  | EvCompress _ | EvGetPublicUrl _ _ => True
  | _ => False
  end.

End Trace.

(** ** Uploading one file after the other *)

Module Batch.
Import ImageService.

(** The runs of [uploadImage] on the files in their order: the first starts
    in [s], each of the others in the state in which the run before it
    ended. *)
Fixpoint upload_in_order (w : World) (entityId : string) (options : Options)
    (files : list File.t) (s : Service) : list (Out Service UploadResult) :=
  match files with
  | [] => []
  | f :: rest =>
      let o := uploadImage w f entityId options s in
      o :: upload_in_order w entityId options rest (final o)
  end.

(** The state after the last of the runs. *)
Definition end_state (s : Service) (runs : list (Out Service UploadResult)) : Service :=
  default s (final <$> last runs).

Definition data_of (r : UploadResult) : option UploadData :=
  match r with UploadOk data _ => Some data | UploadFailed _ _ => None end.

Definition failure_of (fr : File.t * UploadResult) : option FailedUpload :=
  match fr.2 with
  | UploadOk _ _ => None
  | UploadFailed error attempts => Some (mkFailedUpload (File.name fr.1) error attempts)
  end.

End Batch.

(** ** The attempts of one upload *)

Module Attempts.
Import ImageService.

(** The call of the storage backend that one attempt makes. *)
Record UploadCall := mkUploadCall {
  call_tick : nat;
  call_path : string;
  call_file : File.t;
}.

(** The file name [generateFilename] makes of its inputs. *)
Definition generated_name (entityId : string) (timestamp : Z) (randomId extension : string)
    : string :=
  entityId +:+ "/" +:+ pretty timestamp +:+ "-" +:+ randomId +:+ "." +:+ extension.

(** The error with which the backend refuses an upload, if it does: the
    error it throws, or the [error] of its answer. *)
Definition refusal (answer : Res UploadResponse) : option JsError :=
  match answer with
  | Throw e => Some e
  | Ret r => up_error r
  end.

Section WithWorld.
Context (w : World) (f : File.t) (entityId : string) (options : Options).

(** The attempts [attempt], [attempt + 1], ... of [uploadImage], [n] of
    them, as runs of the body of its [try] block: the first starts in [s],
    each of the others in the state in which the attempt before it ended
    (the [catch] block logs and waits, and changes no state). *)
Fixpoint attempts_in_order (maxRetries n attempt : nat) (s : Service)
    : list (Out Service UploadData) :=
  match n with
  | O => []
  | S n' =>
      let o := uploadAttempt w f entityId options attempt maxRetries s in
      o :: attempts_in_order maxRetries n' (S attempt) (final o)
  end.

(** The upload call of an attempt that starts in [s]: the file is what
    [compressImage] returns; the path is made of the clock and the random
    source, read at the two ticks after the compression; the backend is
    called at the tick after these. *)
Definition upload_call (s : Service) : UploadCall :=
  let oc := compressImage w f options s in
  let t := tick (final oc) in
  {| call_tick := S (S t);
     call_path := generated_name entityId (Date_now w t) (Math_random_id w (S t))
                    (pop (split "." (File.name f)));
     call_file := match res oc with Ret compressed => compressed | Throw _ => f end |}.

(** What the backend answers to that call. *)
Definition backend_answer (s : Service) : Res UploadResponse :=
  let c := upload_call s in
  storage_upload w (call_tick c) bucket (call_path c) (call_file c).

(** The URL lookup that follows an accepted upload. *)
Definition url_lookup (s : Service) : Out Service string :=
  let c := upload_call s in
  getPublicUrl w (call_path c) (mkService (cache s) (S (call_tick c))).

(** The [data] of a successful attempt. *)
Definition data_of_call (c : UploadCall) (publicUrl : string) : UploadData := {|
  storage_path := call_path c;
  filename := pop (split "/" (call_path c));
  original_filename := File.name f;
  file_size := File.size (call_file c);
  mime_type := File.type (call_file c);
  image_url := publicUrl;
  data_publicUrl := publicUrl;
  data_storagePath := call_path c;
|}.

End WithWorld.
End Attempts.

(** ** The REST client as a whole *)

Module Rest.
Import Http.

(** The two versions of the client, and the four methods of each. *)
Inductive Client := Current | Older.

Inductive Method := GET | POST | PUT | DELETE.

Definition method_name (m : Method) : string :=
  match m with GET => "GET" | POST => "POST" | PUT => "PUT" | DELETE => "DELETE" end.

Section Run.
Context (w : World).
Context (JSON_parse : string -> Res JsValue).
Context (JSON_stringify : JsValue -> option string).

(** [apiClient.get(endpoint)], [apiClient.post(endpoint, body)], ... *)
Definition run (c : Client) (m : Method) (endpoint : string) (body : JsValue)
    : M nat ApiResult :=
  match c, m with
  | Current, GET => ApiClient.get w JSON_parse endpoint
  | Current, POST => ApiClient.post w JSON_stringify endpoint body
  | Current, PUT => ApiClient.put w JSON_stringify endpoint body
  | Current, DELETE => ApiClient.delete w endpoint
  | Older, GET => ExtraApiClient.get w JSON_parse endpoint
  | Older, POST => ExtraApiClient.post w JSON_parse JSON_stringify endpoint body
  | Older, PUT => ExtraApiClient.put w JSON_parse JSON_stringify endpoint body
  | Older, DELETE => ExtraApiClient.delete w JSON_parse endpoint
  end.

Definition getAuthToken (c : Client) : M nat (option string) :=
  match c with
  | Current => ApiClient.getAuthToken w
  | Older => ExtraApiClient.getAuthToken w JSON_parse
  end.

Definition API_URL (c : Client) : string :=
  match c with
  | Current => ApiClient.API_URL w
  | Older => ExtraApiClient.API_URL w
  end.

(** The request a method sends, given the token. *)
Definition request_of (c : Client) (m : Method) (endpoint : string) (body : JsValue)
    (token : option string) : Request := {|
  req_url := API_URL c +:+ endpoint;
  req_method := method_name m;
  req_headers :=
    json_headers
      ++ match token with
         | Some t => [("Authorization", "Bearer " +:+ t)]
         | None => []
         end;
  req_body :=
    match m with
    | POST | PUT => JSON_stringify body
    | GET | DELETE => None
    end;
|}.

(** A token is either absent or truthy. *)
Definition usable (token : option string) : Prop :=
  match token with
  | Some t => truthy_string t = true
  | None => True
  end.

(** The field [name] of a body; [undefined] when it has none. *)
Definition field (body : JsValue) (name : string) : JsValue := get_prop_opt body name.

(** What the catch block of a method makes of a thrown error. *)
Definition failure_record (e : JsError) (r : ApiResult) : Prop :=
  success r = false
  /\ data r = JNull
  /\ error r = JStr (if truthy_string (message e) then message e
                     else "Network error. Please try again later.").

(** The record of claim C2 for a response with flag [ok], status [status]
    and parsed body [body]: [error] is the body's error field, for [get]
    with the body's message and ["HTTP <status>"] behind it. *)
Definition claimed_record (m : Method) (ok : bool) (status : Z) (body : JsValue)
    (r : ApiResult) : Prop :=
  success r = ok
  /\ data r = (if ok then body else JNull)
  /\ error r =
       (if ok then JNull
        else match m with
             | GET => js_or (field body "error")
                        (js_or (field body "message") (JStr ("HTTP " +:+ pretty status)))
             | _ => field body "error"
             end).

(** The [error] of a response that is not [ok], as each method computes
    it. *)
Definition error_of (c : Client) (m : Method) (status : Z) (body : JsValue) : JsValue :=
  match m, c with
  | GET, Current =>
      js_or (field body "error")
        (js_or (field body "message") (JStr ("HTTP " +:+ pretty status)))
  | DELETE, _ => js_or (field body "error") (JStr "Failed to delete resource")
  | _, _ => field body "error"
  end.

(** The body a method reads from the response: [response.json()], except
    in the current [get], where a response whose content type is not JSON is
    read as text, and text that is not JSON becomes [{ error: text }]. *)
Definition body_of (c : Client) (m : Method) (response : Response) : Res JsValue :=
  match c, m with
  | Current, GET =>
      if ApiClient.is_json_content_type (content_type response)
      then resp_json response
      else
        match resp_text response with
        | Ret text => Ret (ApiClient.parse_text JSON_parse text)
        | Throw e => Throw e
        end
  | _, _ => resp_json response
  end.

Definition status_of (c : Client) (m : Method) (response : Response) : option Z :=
  match c, m with
  | Current, GET => Some (resp_status response)
  | _, _ => None
  end.

(** The record a method makes of what [fetch] answered. *)
Definition normalized (c : Client) (m : Method) (answer : Res Response) : ApiResult :=
  match answer with
  | Throw e => network_error e
  | Ret response =>
      match body_of c m response with
      | Throw e => network_error e
      | Ret body =>
          if ok response
          then mkApiResult true body JNull (status_of c m response)
          else
            match body with
            | JNull => network_error (TypeError_read "null" "error")
            | JUndefined => network_error (TypeError_read "undefined" "error")
            | _ =>
                mkApiResult false JNull (error_of c m (resp_status response) body)
                  (status_of c m response)
            end
      end
  end.

End Run.
End Rest.

(** ** Concrete files and worlds, for the examples *)

Module Examples.
Import ImageService.

Definition cat : File.t := File.mk "cat.png" 1000 "image/png".

Definition poster : File.t := File.mk "poster.jpeg" 3000000 "image/jpeg".

Definition notes : File.t := File.mk "notes.txt" 9000000 "text/plain".

Definition bucket_not_found : JsError := mkError "Bucket not found".

(** A backend that rejects every upload and every removal, with a
    compression library that always throws. *)
Definition rejecting : World := {|
  imageCompression := fun _ _ _ => Throw (mkError "out of memory");
  storage_upload := fun _ _ _ _ => Ret (mkUploadResponse None (Some bucket_not_found));
  storage_getPublicUrl := fun _ _ _ => Ret (mkPublicUrlResponse None);
  storage_remove := fun _ _ _ => Ret (mkRemoveResponse (Some bucket_not_found));
  Date_now := fun t => (1700000000000 + Z.of_nat t)%Z;
  Math_random_id := fun _ => "k3j9x1";
  supabaseUrl := Some "https://proj.supabase.co";
|}.

(** A backend whose calls throw up to tick 4 and succeed afterwards; the
    compression library halves a file. *)
Definition flaky : World := {|
  imageCompression := fun _ f _ =>
    Ret (File.mk (File.name f) (File.size f / 2) (File.type f));
  storage_upload := fun t _ path _ =>
    if (t <? 5)%nat then Throw (mkError "Failed to fetch")
    else Ret (mkUploadResponse (Some path) None);
  storage_getPublicUrl := fun _ b path =>
    Ret (mkPublicUrlResponse (Some (mkPublicUrlData ("https://cdn.example/" +:+ b +:+ "/" +:+ path))));
  storage_remove := fun _ _ _ => Ret (mkRemoveResponse None);
  Date_now := fun t => (1700000000000 + Z.of_nat t)%Z;
  Math_random_id := fun _ => "k3j9x1";
  supabaseUrl := Some "https://proj.supabase.co";
|}.

(** A signed-out browser talking to a server that answers every request
    with status 500 and the JSON body [{}]. *)
Definition failing_server : Http.World := {|
  Http.auth_getSession := fun _ => Ret (Http.mkSessionResponse (Some None) None);
  Http.fetch := fun _ _ =>
    Ret (Http.mkResponse false 500 (Some "application/json") (Ret (JObj [])) (Ret "{}"));
  Http.localStorage_getItem := fun _ => Ret None;
  Http.process_env := fun _ => None;
  Http.import_meta_env := fun _ => None;
|}.

(** A signed-in browser talking to a server that answers every request
    with status 200 and the JSON body [[7]]. *)
Definition signed_in : Http.World := {|
  Http.auth_getSession := fun _ =>
    Ret (Http.mkSessionResponse (Some (Some (Http.mkSession (Some "eyJhbGciOi")))) None);
  Http.fetch := fun _ _ =>
    Ret (Http.mkResponse true 200 (Some "application/json")
           (Ret (JArr [JNum 7])) (Ret "[7]"));
  Http.localStorage_getItem := fun _ => Ret None;
  Http.process_env := fun _ => None;
  Http.import_meta_env := fun _ => None;
|}.

(** A chat page with a signed-in user who has typed a message. *)
Definition typing : ChatPage.State := {|
  ChatPage.user := Some (ChatPage.mkUser "u1" "Ada");
  ChatPage.messages := [];
  ChatPage.newMessage := "  is this still available? ";
  ChatPage.isSendingMessage := false;
  ChatPage.error := None;
|}.

Definition noon : ChatPage.World := {|
  ChatPage.Date_now := 1700000000000;
  ChatPage.Date_toISOString := "2023-11-14T22:13:20.000Z";
  ChatPage.messagesEndRef_current := true;
|}.

(** An upload callback that resolves to a failure every time. *)
Definition timing_out : M unit UploadRetry.CallbackResult :=
  ret (UploadRetry.mkCallbackResult false (UploadRetry.CbString "Upload timed out")).

End Examples.

(** ** More of the image service: URL batches and the cache *)

Module ImageUrls.
Import ImageService.

(** An entry of what [getPublicUrls] returns:
    [{ storage_path, publicUrl, success, error }]. *)
Record UrlEntry := mkUrlEntry {
  entry_storage_path : string;
  entry_publicUrl : option string;
  entry_success : bool;
  entry_error : option string;
}.

Section WithWorld.
Context (w : World).

(** The callback of the [map] in [getPublicUrls], for one path. *)
Definition url_entry (path : string) : M Service UrlEntry :=
  try_catch
    (let* publicUrl := getPublicUrl w path in
     ret (mkUrlEntry path (Some publicUrl) true None))
    (fun error => ret (mkUrlEntry path None false (Some (message error)))).

(** [getPublicUrls(storagePaths)]: [storagePaths.map(path => ...)], the
    paths being visited in their order. *)
Fixpoint getPublicUrls (storagePaths : list string) : M Service (list UrlEntry) :=
  match storagePaths with
  | [] => ret []
  | path :: rest =>
      let* entry := url_entry path in
      let* entries := getPublicUrls rest in
      ret (entry :: entries)
  end.

End WithWorld.

(** [clearCache()] *)
Definition clearCache : M Service unit :=
  modify (fun s => mkService ∅ (tick s)).

(** The URL in an answer of the SDK's [getPublicUrl], when [getPublicUrl]
    can use it: the answer is not a throw, has [data], and [data.publicUrl]
    is truthy. *)
Definition sdk_url (answer : Res PublicUrlResponse) : option string :=
  match answer with
  | Ret (mkPublicUrlResponse (Some (mkPublicUrlData (String c u)))) => Some (String c u)
  | _ => None
  end.

(** A cache without a truthy entry for the path. *)
Definition miss (c : gmap string string) (path : string) : Prop :=
  c !! path = None \/ c !! path = Some EmptyString.

(** What an entry of [getPublicUrls] says, read against a cache. *)
Definition entry_in (c : gmap string string) (e : UrlEntry) : Prop :=
  if entry_success e
  then exists url,
         entry_publicUrl e = Some url /\ entry_error e = None
         /\ truthy_string url = true /\ c !! entry_storage_path e = Some url
  else entry_publicUrl e = None /\ is_Some (entry_error e).

End ImageUrls.

(** ** The image of a product card ([ProductCard.js], and the same code in
    the product details page) *)

Module ProductCard.
Import ImageService.

Record Image := mkImage {
  img_publicUrl : option string;
  img_image_url : option string;
  img_storage_path : option string;
}.

(** The fields of [product] that [getImageUrl] reads; [None] is an absent
    (or null) field. *)
Record Product := mkProduct {
  image_url : option string;
  images : option (list Image);
}.

(** Truthiness of an optional string field. *)
Definition present (field : option string) : option string :=
  match field with
  | Some (String c s) => Some (String c s)
  | _ => None
  end.

Section WithWorld.
Context (w : World).

(** [getImageUrl()] of the effect in [ProductCard]. *)
Definition getImageUrl (product : Product) : M Service (option string) :=
  try_catch
    (match present (image_url product) with
     | Some url => ret (Some url)
     | None =>
         match images product with
         | Some (firstImage :: _) =>
             match present (img_publicUrl firstImage) with
             | Some url => ret (Some url)
             | None =>
                 match present (img_image_url firstImage) with
                 | Some url => ret (Some url)
                 | None =>
                     match present (img_storage_path firstImage) with
                     | Some path =>
                         let* url := getPublicUrl w path in
                         ret (Some url)
                     | None => ret None
                     end
                 end
             end
         | _ => ret None
         end
     end)
    (fun error => ret None).

End WithWorld.
End ProductCard.

(** ** Supabase errors and the auth wrappers ([supabase.js]) *)

Module SupabaseAuth.

(** The fields of an error that [handleSupabaseError] reads; [None] is an
    absent field. *)
Record SupabaseError := mkSupabaseError {
  err_message : option string;
  err_code : option string;
}.

(** [{ success: false, error, code }] *)
Record Failure := mkFailure {
  failure_error : string;
  failure_code : string;
}.

(** [x || fallback] on an optional string *)
Definition or_else (x : option string) (fallback : string) : string :=
  match x with
  | Some (String c s) => String c s
  | _ => fallback
  end.

(** [x === s] on an optional string *)
Definition is_string (x : option string) (s : string) : bool :=
  match x with
  | Some x' => String.eqb x' s
  | None => false
  end.

(** [x?.includes(s)], [undefined] counting as false *)
Definition opt_includes (x : option string) (s : string) : bool :=
  match x with
  | Some x' => includes x' s
  | None => false
  end.

(** [handleSupabaseError(error)] *)
Definition handleSupabaseError (error : SupabaseError) : Failure :=
  if opt_includes (err_message error) "Auth session missing" || is_string (err_code error) "400"
  then mkFailure "No active authentication session. Please sign in." "AUTH_SESSION_MISSING"
  else if is_string (err_code error) "PGRST116"
  then mkFailure "Authentication required. Please sign in." "AUTH_REQUIRED"
  else if is_string (err_code error) "PGRST301"
  then mkFailure "Permission denied. You may not have access to this resource."
         "PERMISSION_DENIED"
  else mkFailure (or_else (err_message error) "An unexpected error occurred.")
         (or_else (err_code error) "UNKNOWN_ERROR").

(** What a call of the auth SDK settles to: [{ data, error }], or a
    rejection. *)
Inductive SdkOutcome (D : Type) :=
| Resolved (data : option D) (error : option SupabaseError)
| Rejected (error : SupabaseError).
Arguments Resolved {D} data error.
Arguments Rejected {D} error.

(** What the wrappers resolve to: [{ success: true, data, error: null }] or
    the record of [handleSupabaseError]. *)
Inductive AuthResult (D : Type) :=
| AuthOk (data : option D)
| AuthFailed (failure : Failure).
Arguments AuthOk {D} data.
Arguments AuthFailed {D} failure.

(** [auth.signIn] and [auth.signUp], given what the SDK call settles to. *)
Definition signIn {D} (outcome : SdkOutcome D) : AuthResult D :=
  match outcome with
  | Resolved data (Some error) => AuthFailed (handleSupabaseError error)
  | Resolved data None => AuthOk data
  | Rejected error => AuthFailed (handleSupabaseError error)
  end.

End SupabaseAuth.

(** ** The auth context ([AuthContext.js]) *)

Module AuthContext.
Import SupabaseAuth.

Record AuthUser := mkAuthUser {
  email : option string;
  role : option string;
  full_name : option string;
}.

(** [data] of a sign-in: only [data.user] is read. *)
Record SignInData := mkSignInData { data_user : option AuthUser }.

(** The [useState] cells of the provider. *)
Record State := mkState {
  user : option AuthUser;
  loading : bool;
  error : option string;
}.

(** What [login] resolves to. *)
Inductive LoginResult :=
| LoginOk (data : option SignInData)
| LoginFailed (error : string).

Definition setUser (u : option AuthUser) : M State unit :=
  modify (fun s => mkState u (loading s) (error s)).

Definition setLoading (b : bool) : M State unit :=
  modify (fun s => mkState (user s) b (error s)).

Definition setError (e : option string) : M State unit :=
  modify (fun s => mkState (user s) (loading s) e).

(** [v === s] *)
Definition strict_eq_string (v : JsValue) (s : string) : bool :=
  match v with
  | JStr s' => String.eqb s' s
  | _ => false
  end.

(** [login(email, password)], given what the SDK call behind
    [auth.signIn] settles to.  [result.error] is the string that
    [handleSupabaseError] put there, so [result.error?.code] reads a
    property of a string. *)
Definition login (outcome : SdkOutcome SignInData) : M State LoginResult :=
  try_finally
    (try_catch
       (let* _ := setLoading true in
        let* _ := setError None in
        match signIn outcome with
        | AuthOk data =>
            let* _ := setUser (match data with
                               | Some d => data_user d
                               | None => None
                               end) in
            ret (LoginOk data)
        | AuthFailed failure =>
            let result_error := failure_error failure in
            let* _ :=
              if strict_eq_string (get_prop_opt (JStr result_error) "code")
                   "SUPABASE_NOT_CONFIGURED"
              then ret tt
              else setError (Some result_error) in
            ret (LoginFailed result_error)
        end)
       (fun err =>
          let errorResult := handleSupabaseError (mkSupabaseError (Some (message err)) None) in
          let code := get_prop_opt (JStr (failure_error errorResult)) "code" in
          let* _ :=
            if negb (strict_eq_string code "SUPABASE_NOT_CONFIGURED")
               && negb (strict_eq_string code "AUTH_SESSION_MISSING")
            then setError (Some (failure_error errorResult))
            else ret tt in
          ret (LoginFailed (failure_error errorResult))))
    (setLoading false).

End AuthContext.

(** ** Classifying upload errors ([supabase.js], second half) *)

Module ImageErrors.
Import SupabaseAuth.

Inductive ImageUploadErrorTypes :=
| NETWORK_ERROR | AUTH_ERROR | VALIDATION_ERROR | STORAGE_ERROR | DATABASE_ERROR
| UNKNOWN_ERROR.

Inductive ErrorSeverity := LOW | MEDIUM | HIGH | CRITICAL.

(** The fields of an error that [analyzeUploadError] reads. *)
Record UploadError := mkUploadError {
  ue_name : option string;
  ue_message : option string;
  ue_code : option string;
}.

(** The fields of an [ImageUploadError] that its users read. *)
Record ImageUploadError := mkImageUploadError {
  iue_message : string;
  iue_type : ImageUploadErrorTypes;
  iue_severity : ErrorSeverity;
}.

(** [analyzeUploadError(error)]; [None] is a falsy [error].  The network
    test reads [error.message.includes] without [?.], so it throws on a
    [TypeError] without message. *)
Definition analyzeUploadError (error : option UploadError) : Res ImageUploadError :=
  match error with
  | None => Ret (mkImageUploadError "Unknown upload error" UNKNOWN_ERROR MEDIUM)
  | Some error =>
      let network :=
        if is_string (ue_name error) "TypeError"
        then match ue_message error with
             | Some m => Ret (includes m "fetch")
             | None => Throw (TypeError_read "undefined" "includes")
             end
        else Ret false in
      match network with
      | Throw e => Throw e
      | Ret true =>
          Ret (mkImageUploadError "Network error: Unable to connect to the server"
                 NETWORK_ERROR HIGH)
      | Ret false =>
          let msg := ue_message error in
          if opt_includes msg "401" || opt_includes msg "Unauthorized"
          then Ret (mkImageUploadError "Authentication failed. Please log in again."
                      AUTH_ERROR HIGH)
          else if opt_includes msg "Invalid file" || opt_includes msg "validation"
          then Ret (mkImageUploadError "Invalid file format or size" VALIDATION_ERROR LOW)
          else if opt_includes msg "storage" || opt_includes msg "bucket"
          then Ret (mkImageUploadError "Storage service error. Please try again later."
                      STORAGE_ERROR MEDIUM)
          else if opt_includes msg "database" || opt_includes msg "constraint"
          then Ret (mkImageUploadError "Database error. Please try again later."
                      DATABASE_ERROR MEDIUM)
          else if is_string (ue_code error) "PGRST116"
          then Ret (mkImageUploadError "Resource not found" DATABASE_ERROR MEDIUM)
          else if is_string (ue_code error) "PGRST301"
          then Ret (mkImageUploadError "Row level security violation" AUTH_ERROR HIGH)
          else Ret (mkImageUploadError (or_else msg "Unknown upload error")
                      UNKNOWN_ERROR MEDIUM)
      end
  end.

(** The table [errorMessages] of [getUserFriendlyErrorMessage]. *)
Definition errorMessages (type : ImageUploadErrorTypes) : string :=
  match type with
  | NETWORK_ERROR => "Unable to connect to the server. Please check your internet connection."
  | AUTH_ERROR => "Authentication failed. Please log in and try again."
  | VALIDATION_ERROR => "Invalid file. Please check the file format and size requirements."
  | STORAGE_ERROR => "Storage service error. Please try again later."
  | DATABASE_ERROR => "Database error. Please try again later."
  | UNKNOWN_ERROR => "An unexpected error occurred. Please try again."
  end.

(** [getUserFriendlyErrorMessage(error)]:
    [errorMessages[analyzedError.type] || analyzedError.message] *)
Definition getUserFriendlyErrorMessage (error : option UploadError) : Res string :=
  match analyzeUploadError error with
  | Throw e => Throw e
  | Ret analyzedError =>
      Ret (match errorMessages (iue_type analyzedError) with
           | String c s => String c s
           | EmptyString => iue_message analyzedError
           end)
  end.

(** The six texts of the table. *)
Definition friendly_texts : list string :=
  errorMessages <$> [NETWORK_ERROR; AUTH_ERROR; VALIDATION_ERROR; STORAGE_ERROR;
                     DATABASE_ERROR; UNKNOWN_ERROR].

End ImageErrors.

(** ** Reading the trace of [retryUpload] *)

Module RetryTrace.

Definition attempting_of (e : Event) : option nat :=
  match e with EvConsole (LogAttemptingUpload a _) => Some a | _ => None end.

(** The attempts of [retryUpload] that were started, in order. *)
Definition attempts (tr : list Event) : list nat := omap attempting_of tr.

(** A callback is quiet when it writes none of the console lines of the
    retry loops and sets no timer. *)
Definition quiet_event (e : Event) : Prop :=
  match e with
  | EvConsole _ | EvDelay _ => False
  | _ => True
  end.

Definition quiet {St : Type} (uploadFunction : M St UploadRetry.CallbackResult) : Prop :=
  forall s, Forall quiet_event (events (uploadFunction s)).

(** A callback that never succeeds and never reports a validation
    error. *)
Definition keeps_failing {St : Type} (uploadFunction : M St UploadRetry.CallbackResult)
    : Prop :=
  forall s,
    match res (uploadFunction s) with
    | Ret r =>
        UploadRetry.cb_success r = false
        /\ UploadRetry.is_validation_error (UploadRetry.cb_error r) <> Ret true
    | Throw _ => True
    end.

(** Sum of the waits. *)
Definition total_wait (tr : list Event) : Z := foldr Z.add 0%Z (Trace.delays tr).

End RetryTrace.

(** ** Reading the trace of an upload *)

Module UploadTrace.

Definition compression_of (e : Event) : option File.t :=
  match e with EvCompress f => Some f | _ => None end.

(** The files handed to the compression library, in order. *)
Definition compressions (tr : list Event) : list File.t := omap compression_of tr.

Definition stored_of (e : Event) : option File.t :=
  match e with EvUpload _ _ f => Some f | _ => None end.

(** The files handed to the storage backend, in order. *)
Definition stored (tr : list Event) : list File.t := omap stored_of tr.

End UploadTrace.

(** ** The form of a new post ([CreatePost.js]) *)

Module CreatePost.
Import ImageService.

(** What [createImagePreview] resolves to. *)
Record PreviewData := mkPreviewData {
  pd_preview : string;
  pd_dimensions : Q * Q;
}.

(** An element of [imagePreviews]. *)
Record Preview := mkPreview {
  preview_file : File.t;
  preview : string;
  originalName : string;
  dimensions : Q * Q;
}.

(** What [setError] is given by the image handlers:
    [fileValidation.errors.join(', ')] or a fixed text. *)
Inductive FormError :=
| ValidationErrors (errs : list ValidationError)
| ProcessingFailed.   (* 'Failed to process image. Please try again.' *)

(** The [useState] cells the image handlers read or set, and the tick of
    the preview oracle. *)
Record Form := mkForm {
  imagePreviews : list Preview;
  form_error : option FormError;
  clock : nat;
}.

Definition setError (e : FormError) : M Form unit :=
  modify (fun s => mkForm (imagePreviews s) (Some e) (clock s)).

Definition setImagePreviews (f : list Preview -> list Preview) : M Form unit :=
  modify (fun s => mkForm (f (imagePreviews s)) (form_error s) (clock s)).

(** [arr.filter((_, i) => i !== index)] *)
Fixpoint filter_index {A} (index i : nat) (arr : list A) : list A :=
  match arr with
  | [] => []
  | x :: rest =>
      if (i =? index)%nat then filter_index index (S i) rest
      else x :: filter_index index (S i) rest
  end.

(** [removeImage(index)] *)
Definition removeImage (index : nat) : M Form unit :=
  setImagePreviews (fun prev => filter_index index 0 prev).

(** A file that [handleImageUpload] lets through. *)
Definition accepted (f : File.t) : bool :=
  valid (validateFile f CreatePost_validate_options).

Section Previews.
(** [imageService.createImagePreview(file)], which settles with a preview or
    rejects (the image cannot be decoded). *)
Context (createImagePreview : nat -> File.t -> Res PreviewData).

Definition call_createImagePreview (file : File.t) : M Form PreviewData :=
  fun s => mkOut (createImagePreview (clock s) file)
             (mkForm (imagePreviews s) (form_error s) (S (clock s))) [].

(** The [for] loop of [handleImageUpload]. *)
Fixpoint handleImageUpload_loop (files : list File.t) (newPreviews : list Preview)
    : M Form (list Preview) :=
  match files with
  | [] => ret newPreviews
  | file :: rest =>
      let fileValidation := validateFile file CreatePost_validate_options in
      if negb (valid fileValidation)
      then
        let* _ := setError (ValidationErrors (errors fileValidation)) in
        handleImageUpload_loop rest newPreviews
      else
        let* newPreviews :=
          try_catch
            (let* previewData := call_createImagePreview file in
             ret (newPreviews
                    ++ [{| preview_file := ImageService.file fileValidation;
                           preview := pd_preview previewData;
                           originalName := File.name file;
                           dimensions := pd_dimensions previewData |}]))
            (fun error =>
               let* _ := setError ProcessingFailed in
               ret newPreviews) in
        handleImageUpload_loop rest newPreviews
  end.

(** [handleImageUpload(e)], with [files = Array.from(e.target.files)] *)
Definition handleImageUpload (files : list File.t) : M Form unit :=
  let* newPreviews := handleImageUpload_loop files [] in
  if (0 <? length newPreviews)%nat
  then setImagePreviews (fun prev => prev ++ newPreviews)
  else ret tt.

End Previews.

(** The state of [uploadImages]: the image service and the REST client. *)
Record Page := mkPage {
  service : Service;
  client : nat;
}.

Definition on_service {A} (m : M Service A) : M Page A :=
  fun p =>
    let o := m (service p) in
    mkOut (res o) (mkPage (final o) (client p)) (events o).

Definition on_client {A} (m : M nat A) : M Page A :=
  fun p =>
    let o := m (client p) in
    mkOut (res o) (mkPage (service p) (final o)) (events o).

(** An element of what [uploadImages] returns:
    [{ id, url, filename, original_filename, storage_path, success: true }] or
    [{ filename, error, success: false }]. *)
Inductive ImageReport :=
| Uploaded (id url filename original_filename storage_path : string)
| NotUploaded (filename error : string).

Definition report_success (r : ImageReport) : bool :=
  match r with Uploaded _ _ _ _ _ => true | NotUploaded _ _ => false end.

Section WithWorld.
Context (w : ImageService.World) (hw : Http.World).
Context (JSON_parse : string -> Res JsValue).
Context (JSON_stringify : JsValue -> option string).
(** [error.toString()] of an error object. *)
Context (Error_toString : JsError -> string).

(** [typeof error === 'string' ? error : error.message || error.toString()] *)
Definition errorString (error : ErrorValue) : string :=
  match error with
  | ErrorString s => s
  | ErrorObject e => if truthy_string (message e) then message e else Error_toString e
  end.

(** [getUserFriendlyErrorMessage(error)] of [CreatePost.js] *)
Definition getUserFriendlyErrorMessage (error : ErrorValue) : string :=
  match error with
  | ErrorString EmptyString => "An unknown error occurred"
  | _ =>
      let errorString := errorString error in
      if includes errorString "row-level security policy"
         || includes errorString "StorageApiError"
      then "Permission denied. You may not have permission to upload images. Please contact support."
      else if includes errorString "invalid JWT" || includes errorString "Auth session missing"
      then "Session expired. Please sign in again."
      else if includes errorString "network error" || includes errorString "Failed to fetch"
      then "Network error. Please check your internet connection and try again."
      else if includes errorString "file size exceeds" || includes errorString "too large"
      then "File size is too large. Please choose a smaller file (max 5MB)."
      else if includes errorString "file type" || includes errorString "invalid format"
      then "Invalid file type. Please upload JPG, PNG, GIF, or WebP images."
      else if includes errorString "rate limit" || includes errorString "too many requests"
      then "Too many requests. Please wait a moment and try again."
      else if includes errorString "permission"
      then "Permission denied. Please check your account settings."
      else if includes errorString "timeout"
      then "Request timed out. Please try again."
      else "An error occurred. Please try again."
  end.

(** The element of [imageMetadata] made of a stored image. *)
Definition metadata_of (image : UploadData) : JsValue :=
  JObj [("storage_path", JStr (storage_path image));
        ("filename", JStr (filename image));
        ("original_filename", JStr (original_filename image));
        ("file_size", JNum (file_size image));
        ("mime_type", JStr (mime_type image));
        ("image_url", JStr (data_publicUrl image))].

(** The body of the request to [/api/images/store-metadata]. *)
Definition metadata_body (postId : string) (images : list UploadData) : JsValue :=
  JObj [("postId", JStr postId); ("images", JArr (metadata_of <$> images))].

Definition uploaded_report (image : UploadData) : ImageReport :=
  Uploaded (pop (split "/" (storage_path image))) (data_publicUrl image)
    (filename image) (original_filename image) (storage_path image).

Definition failed_report (failed : FailedUpload) : ImageReport :=
  NotUploaded (failed_file failed) (getUserFriendlyErrorMessage (failed_error failed)).

(** [uploadImages(postId)]; [imagePreviews] is the value the closure holds,
    and the id of the post is a string. *)
Definition uploadImages (imagePreviews : list Preview) (postId : string)
    : M Page (list ImageReport) :=
  if (length imagePreviews =? 0)%nat then ret []
  else
    try_catch
      (let files := preview_file <$> imagePreviews in
       let* uploadResult :=
         on_service (uploadMultipleImages w files postId CreatePost_upload_options) in
       if batch_success uploadResult
       then
         let imageMetadata := successfulUploads uploadResult in
         let* _ :=
           try_catch
             (let* response :=
                on_client (ExtraApiClient.post hw JSON_parse JSON_stringify
                             "/api/images/store-metadata"
                             (metadata_body postId imageMetadata)) in
              ret tt)
             (fun metadataError => ret tt) in
         ret (uploaded_report <$> successfulUploads uploadResult)
       else
         ret (failed_report <$> failedUploads uploadResult))
      (fun error =>
         ret ((fun preview =>
                 NotUploaded (originalName preview)
                   (getUserFriendlyErrorMessage (ErrorObject error)))
                <$> imagePreviews)).

End WithWorld.
End CreatePost.

(** ** More concrete inputs, for the examples *)

Module MoreExamples.

(** An upload callback that reports a validation error every time. *)
Definition refusing_file : M unit UploadRetry.CallbackResult :=
  ret (UploadRetry.mkCallbackResult false (UploadRetry.CbString "Invalid file type")).

(** A backend that stores every upload but gives no public URL, in a
    build whose [REACT_APP_SUPABASE_URL] names a host without a scheme. *)
Definition storing_only : ImageService.World := {|
  ImageService.imageCompression := fun _ f _ => Ret f;
  ImageService.storage_upload := fun _ _ path _ =>
    Ret (ImageService.mkUploadResponse (Some path) None);
  ImageService.storage_getPublicUrl := fun _ _ _ =>
    Ret (ImageService.mkPublicUrlResponse None);
  ImageService.storage_remove := fun _ _ _ => Ret (ImageService.mkRemoveResponse None);
  ImageService.Date_now := fun t => (1700000000000 + Z.of_nat t)%Z;
  ImageService.Math_random_id := fun _ => "k3j9x1";
  ImageService.supabaseUrl := Some "localhost:54321";
|}.

End MoreExamples.

(** * Properties *)

(** ** Platform primitives on examples *)

Example split_url : split "//" "https://abc.supabase.co" = ["https:"; "abc.supabase.co"].
Proof. reflexivity. Qed.

Example split_trailing : split "//" "a//" = ["a"; EmptyString].
Proof. reflexivity. Qed.

Example pop_extension : pop (split "." "my.photo.png") = "png".
Proof. reflexivity. Qed.

Example pop_no_dot : pop (split "." "photo") = "photo".
Proof. reflexivity. Qed.

Example includes_inside : includes "an Invalid file here" "Invalid file" = true.
Proof. reflexivity. Qed.

Lemma truthy_string_nonempty (s : string) : truthy_string s = true <-> s <> EmptyString.
Proof. destruct s; simpl; split; congruence. Qed.

(** ** File validation *)

Section ValidateFile.
Import ImageService.



Example validateFile_cat :
  validateFile Examples.cat (mkValidateOptions None None)
  = mkValidation true [] Examples.cat.
Proof. reflexivity. Qed.

Example validateFile_notes :
  errors (validateFile Examples.notes CreatePost_validate_options)
  = [FileSizeExceeds ((5 * 1024 * 1024) / (1024 * 1024))%Q; FileTypeNotAllowed "text/plain"].
Proof. reflexivity. Qed.

End ValidateFile.

(** ** Stepping through a computation *)

(** Stepping through [let* x := m in k] in a hypothesis [H : o = bind m k s]:
    the run of [m] is named, and in the case where it returns, [H] is split
    into the run of the continuation and the way both are put together. *)
Ltac bind_step H r s' ev Hm :=
  match type of H with
  | _ = bind ?m ?k ?s =>
      unfold bind at 1 in H; cbv beta in H;
      destruct (m s) as [r s' ev] eqn:Hm;
      cbv zeta in H; cbn [res final events] in H
  end.

(** Running the monad's own operations, call by value (so that the run of
    a sub-computation is evaluated once, before it is used). *)
Ltac run_monad :=
  cbv beta iota zeta
      delta [bind try_catch try_finally ret throw emit get modify lift res final events].

Ltac name_rest H o' Ho' :=
  match type of H with
  | _ = mkOut (res ?X) _ _ => remember X as o' eqn:Ho' in H
  end.

(** ** Compression *)

Section CompressImage.
Import ImageService.
Context (w : World).

(** The size limit [compressionOptions.maxSizeMB * 1024 * 1024]. *)
Local Abbreviation limit options := (maxSizeMB (spread IMAGE_CONFIG options) * 1024 * 1024)%Q.

Lemma compressImage_cases (f : File.t) (options : Options) (s : Service) :
  let o := compressImage w f options s in
  (Qle_bool (inject_Z (File.size f)) (limit options) = true
   /\ res o = Ret f /\ final o = s /\ events o = [])
  \/ (Qle_bool (inject_Z (File.size f)) (limit options) = false
      /\ final o = mkService (cache s) (S (tick s))
      /\ events o = [EvCompress f]
      /\ res o = Ret match imageCompression w (tick s) f (spread IMAGE_CONFIG options) with
                     | Ret compressed => compressed
                     | Throw _ => f
                     end).
Proof.
  cbv zeta. unfold compressImage, try_catch, bind, call, ret. simpl.
  destruct (Qle_bool _ _) eqn:Hle; simpl.
  - left. auto.
  - right. destruct (imageCompression _ _ _ _); simpl; auto.
Qed.

(** C8. [compressImage] never fails; a file whose size is at most
    [maxSizeMB * 1024 * 1024] bytes is returned as it is, without calling the
    compression library; when the library throws, the original file is
    returned; so a result other than the input file only comes from a file
    above the limit. *)
Theorem compressImage_only_oversized (f : File.t) (options : Options) (s : Service) :
  let o := compressImage w f options s in
  (exists f', res o = Ret f')
  /\ ((inject_Z (File.size f) <= limit options)%Q ->
      res o = Ret f /\ events o = [] /\ final o = s)
  /\ (forall e, imageCompression w (tick s) f (spread IMAGE_CONFIG options) = Throw e ->
      res o = Ret f)
  /\ (res o <> Ret f -> (limit options < inject_Z (File.size f))%Q)
  /\ cache (final o) = cache s.
Proof.
  cbv zeta.
  destruct (compressImage_cases f options s) as [(Hle & Hr & Hf & He) | (Hle & Hf & He & Hr)];
    rewrite Hr, Hf; clear Hr Hf.
  - rewrite He. repeat split; eauto. congruence.
  - assert (Hnle : ~ (inject_Z (File.size f) <= limit options)%Q).
    { intros Hq. apply Qle_bool_iff in Hq. congruence. }
    repeat split; eauto; try tauto.
    + intros e Hthrow. now rewrite Hthrow.
    + intros _. now apply Qnot_le_lt.
Qed.

End CompressImage.

(** A small file, and a large file with a compression library that
    throws, both come back as they are. *)
Lemma compressImage_only_oversized_witness :
  res (ImageService.compressImage Examples.rejecting Examples.cat
         ImageService.no_options ImageService.new_service) = Ret Examples.cat
  /\ res (ImageService.compressImage Examples.rejecting Examples.poster
            ImageService.no_options ImageService.new_service) = Ret Examples.poster.
Proof.
  split.
  - apply (compressImage_only_oversized Examples.rejecting Examples.cat
             ImageService.no_options ImageService.new_service).
    unfold Qle. simpl. lia.
  - apply (proj1 (proj2 (proj2 (compressImage_only_oversized Examples.rejecting
             Examples.poster ImageService.no_options ImageService.new_service)))
             (mkError "out of memory")).
    reflexivity.
Defined.

Example compressImage_halves_poster :
  res (ImageService.compressImage Examples.flaky Examples.poster
         ImageService.no_options ImageService.new_service)
  = Ret (File.mk "poster.jpeg" 1500000 "image/jpeg").
Proof. reflexivity. Qed.

(** ** The URL cache *)

Section UrlCache.
Import ImageService.
Context (w : World).

Lemma constructCdnUrl_truthy (storagePath url : string) :
  constructCdnUrl w storagePath = Ret url -> truthy_string url = true.
Proof.
  unfold constructCdnUrl.
  destruct (supabaseUrl w) as [u |]; [| discriminate].
  destruct (split "//" u !! 1) as [rest |]; [| discriminate].
  intros [= <-]. reflexivity.
Qed.

(** A truthy cache entry answers the call: no SDK call, no change. *)
Lemma getPublicUrl_hit (storagePath url : string) (s : Service) :
  cache s !! storagePath = Some url ->
  truthy_string url = true ->
  getPublicUrl w storagePath s = mkOut (Ret url) s [].
Proof.
  intros Hc Ht. unfold getPublicUrl, bind, cache_get. simpl. rewrite Hc.
  destruct url; [discriminate | reflexivity].
Qed.

(** Whatever way the URL was obtained, it is truthy and it is the cache
    entry of the path afterwards; no other entry changes. *)
Lemma getPublicUrl_returns (storagePath url : string) (s : Service) :
  res (getPublicUrl w storagePath s) = Ret url ->
  truthy_string url = true
  /\ cache (final (getPublicUrl w storagePath s)) = <[storagePath := url]> (cache s)
  /\ (events (getPublicUrl w storagePath s) = []
      \/ events (getPublicUrl w storagePath s) = [EvGetPublicUrl bucket storagePath]).
Proof.
  unfold getPublicUrl, bind, try_catch, cache_get, cache_set, call, modify, lift, ret.
  simpl.
  destruct (cache s !! storagePath) as [[| c u] |] eqn:Hc; simpl.
  2: { intros [= <-]. split; [reflexivity |]. split; [| now left].
       symmetry. now apply insert_id. }
  all: destruct (storage_getPublicUrl w (tick s) bucket storagePath)
         as [[[[[| c' u']] |]] | e]; simpl;
       try (intros [= <-]; split; [reflexivity |]; split; [reflexivity | now right]);
       destruct (constructCdnUrl w storagePath) as [fb | e'] eqn:Hfb; simpl;
       try discriminate;
       intros [= <-]; (split; [eapply constructCdnUrl_truthy; eassumption |]);
       (split; [reflexivity | now right]).
Qed.

Lemma getPublicUrl_events (storagePath : string) (s : Service) :
  events (getPublicUrl w storagePath s) = []
  \/ events (getPublicUrl w storagePath s) = [EvGetPublicUrl bucket storagePath].
Proof.
  unfold getPublicUrl, bind, try_catch, cache_get, cache_set, call, modify, lift, ret.
  simpl.
  destruct (cache s !! storagePath) as [[| c u] |]; simpl; auto;
    destruct (storage_getPublicUrl w (tick s) bucket storagePath)
      as [[[[[| c' u']] |]] | e]; simpl; auto;
    destruct (constructCdnUrl w storagePath); simpl; auto.
Qed.

End UrlCache.

(** ** One upload attempt *)

Section UploadAttempt.
Import ImageService Trace.
Context (w : World).

Lemma compressImage_silent (f : File.t) (options : Options) (s : Service) :
  Forall silent (events (compressImage w f options s))
  /\ (exists f', res (compressImage w f options s) = Ret f')
  /\ cache (final (compressImage w f options s)) = cache s.
Proof.
  destruct (compressImage_cases w f options s) as [(_ & Hr & Hf & He) | (_ & Hf & He & Hr)];
    rewrite Hr, Hf, He; (split; [| split; [eauto | reflexivity]]).
  - constructor.
  - repeat constructor.
Qed.

Lemma getPublicUrl_silent (storagePath : string) (s : Service) :
  Forall silent (events (getPublicUrl w storagePath s)).
Proof.
  destruct (getPublicUrl_events w storagePath s) as [-> | ->]; repeat constructor.
Qed.

(** The shape of one attempt: the console line, the compression (if any),
    exactly one upload call, and on success the URL lookup; a successful
    attempt leaves the URL it returns in the cache, under the path it
    uploaded to. *)
Lemma uploadAttempt_shape (f : File.t) (entityId : string) (options : Options)
    (attempt maxRetries : nat) (s : Service) :
  let o := uploadAttempt w f entityId options attempt maxRetries s in
  exists (before after : list Event) (path : string) (compressed : File.t),
    events o = EvConsole (LogUploadAttempt attempt maxRetries (File.name f))
                 :: before ++ EvUpload bucket path compressed :: after
    /\ Forall silent before /\ Forall silent after
    /\ (forall d, res o = Ret d ->
          data_storagePath d = path /\ storage_path d = path
          /\ image_url d = data_publicUrl d
          /\ truthy_string (data_publicUrl d) = true
          /\ cache (final o) !! path = Some (data_publicUrl d)).
Proof.
  cbv zeta.
  remember (uploadAttempt w f entityId options attempt maxRetries s) as o eqn:Ho.
  unfold uploadAttempt in Ho.
  (* the console line *)
  bind_step Ho r0 s0 ev0 H0. unfold emit in H0. injection H0 as <- <- <-.
  name_rest Ho o1 Ho1.
  (* compression *)
  pose proof (compressImage_silent f options s) as (Hsil & (f' & Hres) & Hcache1).
  bind_step Ho1 r1 s1 ev1 H1. cbn [res final events] in Hsil, Hres, Hcache1. subst r1.
  name_rest Ho1 o2 Ho2.
  (* the file name *)
  unfold generateFilename in Ho2.
  bind_step Ho2 r2 s2 ev2 H2.
  unfold bind, ask, ret in H2. cbn in H2. injection H2 as <- <- <-.
  set (path := (entityId +:+ _)%string) in *.
  name_rest Ho2 o3 Ho3.
  (* the upload *)
  bind_step Ho3 r3 s3 ev3 H3. unfold call in H3. injection H3 as <- <- <-.
  exists ev1, (tl (events o3)), path, f'.
  destruct (storage_upload w _ bucket path f') as [[dat [err |]] | e].
  - (* the SDK answers with an error *)
    subst o3 o2 o1 o. cbn. rewrite ?app_nil_r.
    repeat split; auto; discriminate.
  - (* uploaded: look the URL up and cache it *)
    cbn [up_error] in Ho3. name_rest Ho3 o4 Ho4.
    match type of Ho4 with _ = bind _ _ ?s => set (s4 := s) in * end.
    pose proof (getPublicUrl_returns w path) as Hret.
    pose proof (getPublicUrl_silent path s4) as Hsil4.
    bind_step Ho4 r4 s5 ev4 H4.
    cbn [res final events] in Hsil4.
    destruct r4 as [url | e].
    + specialize (Hret url s4). rewrite H4 in Hret. cbn [res final events] in Hret.
      destruct (Hret eq_refl) as (Htruthy & Hcache & _).
      unfold bind, cache_set, modify, ret in Ho4. cbn in Ho4.
      subst o4 o3 o2 o1 o. cbn. rewrite ?app_nil_r.
      split; [reflexivity |]. split; [assumption |]. split; [assumption |].
      intros d [= <-]; cbn. repeat split; auto.
      apply lookup_insert_eq.
    + subst o4 o3 o2 o1 o. cbn. repeat split; auto; discriminate.
  - (* the SDK throws *)
    subst o3 o2 o1 o. cbn. rewrite ?app_nil_r.
    repeat split; auto; discriminate.
Qed.

End UploadAttempt.

(** ** The retry loop of [uploadImage] *)

Section UploadLoop.
Import ImageService Trace.
Context (w : World).

Lemma omap_silent {A} (view : Event -> option A) (l : list Event) :
  (forall e, silent e -> view e = None) ->
  Forall silent l -> omap view l = [].
Proof.
  intros Hview Hl. induction Hl as [| e l He _ IH]; [reflexivity |].
  csimpl. now rewrite (Hview e He), IH.
Qed.

Lemma silent_started e : silent e -> started_of e = None.
Proof. now destruct e. Qed.

Lemma silent_failure e : silent e -> failure_of e = None.
Proof. now destruct e. Qed.

Lemma silent_retry_obs e : silent e -> retry_obs_of e = None.
Proof. now destruct e. Qed.

Lemma silent_upload e : silent e -> upload_of e = None.
Proof. now destruct e. Qed.

(** What the views read in the trace of one attempt. *)
Lemma uploadAttempt_views (f : File.t) (entityId : string) (options : Options)
    (attempt maxRetries : nat) (s : Service) :
  let o := uploadAttempt w f entityId options attempt maxRetries s in
  attempts_started (events o) = [attempt]
  /\ attempts_failed (events o) = []
  /\ retry_view (events o) = []
  /\ exists path, uploads (events o) = [path]
       /\ forall d, res o = Ret d ->
            data_storagePath d = path
            /\ truthy_string (data_publicUrl d) = true
            /\ cache (final o) !! path = Some (data_publicUrl d).
Proof.
  cbv zeta.
  destruct (uploadAttempt_shape w f entityId options attempt maxRetries s)
    as (before & after & path & compressed & Hev & Hb & Ha & Hd).
  rewrite Hev. unfold attempts_started, attempts_failed, retry_view, uploads.
  csimpl. rewrite !omap_app. csimpl.
  rewrite (omap_silent started_of before), (omap_silent started_of after)
    by auto using silent_started.
  rewrite (omap_silent failure_of before), (omap_silent failure_of after)
    by auto using silent_failure.
  rewrite (omap_silent retry_obs_of before), (omap_silent retry_obs_of after)
    by auto using silent_retry_obs.
  rewrite (omap_silent upload_of before), (omap_silent upload_of after)
    by auto using silent_upload.
  repeat split; try reflexivity.
  exists path. split; [reflexivity |].
  intros d Hres. destruct (Hd d Hres) as (? & _ & _ & ? & ?). auto.
Qed.

(** One turn of the loop. *)
Lemma uploadImage_loop_turn (f : File.t) (entityId : string) (options : Options)
    (maxRetries : nat) (d : Z) (remaining attempt : nat) (lastError : option JsError)
    (s : Service) :
  uploadImage_loop w f entityId options maxRetries d (S remaining) attempt lastError s =
  let o := uploadAttempt w f entityId options attempt maxRetries s in
  match res o with
  | Ret data => mkOut (Ret (UploadOk data attempt)) (final o) (events o)
  | Throw e =>
      let o' := uploadImage_loop w f entityId options maxRetries d
                  remaining (S attempt) (Some e) (final o) in
      mkOut (res o') (final o')
        (events o
           ++ EvConsole (LogUploadAttemptFailed attempt e)
           :: (if (attempt <? maxRetries)%nat
               then [EvConsole (LogRetrying d); EvDelay d] else [])
           ++ events o')
  end.
Proof.
  cbn [uploadImage_loop]. cbv zeta.
  destruct (res (uploadAttempt w f entityId options attempt maxRetries s)); [reflexivity |].
  unfold bind, emit, delay, ret. cbn [res final events].
  destruct (attempt <? maxRetries)%nat; cbn [res final events app]; reflexivity.
Qed.

Lemma uploadImage_loop_run (f : File.t) (entityId : string) (options : Options)
    (maxRetries : nat) (d : Z) :
  forall (remaining attempt : nat) (lastError : option JsError) (s : Service),
    (attempt + remaining = S maxRetries)%nat ->
    let o := uploadImage_loop w f entityId options maxRetries d
               remaining attempt lastError s in
    exists errs : list JsError,
      attempts_failed (events o) = zip (seq attempt (length errs)) errs
      /\ retry_view (events o) = schedule (constant_wait d) maxRetries attempt errs
      /\ match res o with
         | Ret (UploadOk data a) =>
             a = (attempt + length errs)%nat /\ (a <= maxRetries)%nat
             /\ attempts_started (events o) = seq attempt (S (length errs))
             /\ length (uploads (events o)) = S (length errs)
             /\ last (uploads (events o)) = Some (data_storagePath data)
             /\ cache (final o) !! data_storagePath data = Some (data_publicUrl data)
             /\ truthy_string (data_publicUrl data) = true
         | Ret (UploadFailed err n) =>
             n = maxRetries /\ length errs = remaining
             /\ attempts_started (events o) = seq attempt remaining
             /\ length (uploads (events o)) = remaining
             /\ err = lastError_or_default (last_error lastError errs)
         | Throw _ => False
         end.
Proof.
  induction remaining as [| remaining IH]; intros attempt lastError s Hvar; cbv zeta.
  - exists []. cbn. repeat split; reflexivity.
  - rewrite uploadImage_loop_turn. cbv zeta.
    destruct (uploadAttempt_views f entityId options attempt maxRetries s)
      as (Hst & Hfa & Hrv & path & Hup & Hd).
    set (oa := uploadAttempt w f entityId options attempt maxRetries s) in *.
    destruct (res oa) as [data | e] eqn:Hres; cbn [res final events].
    + exists []. rewrite Hst, Hfa, Hrv, Hup.
      destruct (Hd data eq_refl) as (<- & Htruthy & Hcache).
      cbn. repeat split; auto; lia.
    + specialize (IH (S attempt) (Some e) (final oa)).
      cbv zeta in IH. destruct IH as (errs & Hfa' & Hrv' & Hres'); [lia |].
      set (o' := uploadImage_loop w f entityId options maxRetries d remaining
                   (S attempt) (Some e) (final oa)) in *.
      exists (e :: errs).
      unfold attempts_failed, retry_view, attempts_started, uploads in *.
      rewrite !omap_app, Hst, Hfa, Hrv, Hup.
      csimpl. rewrite !omap_app.
      assert (Hquiet :
        omap failure_of (if (attempt <? maxRetries)%nat
                         then [EvConsole (LogRetrying d); EvDelay d] else []) = []
        /\ omap started_of (if (attempt <? maxRetries)%nat
                            then [EvConsole (LogRetrying d); EvDelay d] else []) = []
        /\ omap upload_of (if (attempt <? maxRetries)%nat
                           then [EvConsole (LogRetrying d); EvDelay d] else []) = []
        /\ omap retry_obs_of (if (attempt <? maxRetries)%nat
                              then [EvConsole (LogRetrying d); EvDelay d] else [])
           = (if (attempt <? maxRetries)%nat then [Waited (constant_wait d attempt)] else [])).
      { destruct (attempt <? maxRetries)%nat; repeat split; reflexivity. }
      destruct Hquiet as (-> & -> & -> & ->). cbn [app].
      rewrite Hfa', Hrv'. cbn [length seq zip zip_with schedule].
      split; [reflexivity |]. split; [reflexivity |].
      destruct (res o') as [[data a | err n] | e']; [| | assumption].
      * destruct Hres' as (-> & Hle & Hst' & Hlen & Hlast & Hcache & Htruthy).
        rewrite Hst'. cbn [length]. repeat split; auto; try lia.
        destruct (omap upload_of (events o')) eqn:Hu; [discriminate | exact Hlast].
      * destruct Hres' as (-> & Hlen & Hst' & Hlen' & ->).
        rewrite Hst'. cbn [length]. repeat split; auto.
        unfold last_error.
        destruct errs as [| e1 errs1]; [reflexivity |].
        change (last (e :: e1 :: errs1)) with (last (e1 :: errs1)).
        destruct (last (e1 :: errs1)) eqn:Hl; [reflexivity |].
        apply last_None in Hl. discriminate.
Qed.

End UploadLoop.

(** ** Retrying an upload *)

Section UploadImage.
Import ImageService Trace Attempts.
Context (w : World).

Lemma effective_maxRetries_pos (options : Options) : (1 <= effective_maxRetries options)%nat.
Proof.
  unfold effective_maxRetries. destruct (opt_maxRetries options) as [[| n] |]; cbn; lia.
Qed.

Lemma last_numbered (errs : list JsError) (a : nat) :
  last (zip (seq a (length errs)) errs)
  = (fun e => ((a + length errs - 1)%nat, e)) <$> last errs.
Proof.
  revert a. induction errs as [| e errs IH]; intros a; [reflexivity |].
  destruct errs as [| e' errs'].
  - cbn. do 2 f_equal. lia.
  - change (last (zip (seq a (length (e :: e' :: errs'))) (e :: e' :: errs')))
      with (last (zip (seq (S a) (length (e' :: errs'))) (e' :: errs'))).
    rewrite IH. change (last (e :: e' :: errs')) with (last (e' :: errs')).
    destruct (last (e' :: errs')); cbn; [| reflexivity].
    do 2 f_equal. lia.
Qed.

Lemma fst_numbered (errs : list JsError) (a : nat) :
  (zip (seq a (length errs)) errs).*1 = seq a (length errs).
Proof. apply fst_zip. now rewrite length_seq. Qed.

(** One attempt, by what the backend answers. *)
Lemma uploadAttempt_run (f : File.t) (entityId : string) (options : Options)
    (attempt maxRetries : nat) (s : Service) :
  let oc := compressImage w f options s in
  let f' := match res oc with Ret x => x | Throw _ => f end in
  let s1 := final oc in
  let path := generated_name entityId (Date_now w (tick s1)) (Math_random_id w (S (tick s1)))
                (pop (split "." (File.name f))) in
  let s3 := mkService (cache s1) (S (S (S (tick s1)))) in
  let head := EvConsole (LogUploadAttempt attempt maxRetries (File.name f))
                :: events oc ++ [EvUpload bucket path f'] in
  let og := getPublicUrl w path s3 in
  uploadAttempt w f entityId options attempt maxRetries s
  = match storage_upload w (S (S (tick s1))) bucket path f' with
    | Throw e => mkOut (Throw e) s3 head
    | Ret r =>
        match up_error r with
        | Some e => mkOut (Throw e) s3 head
        | None =>
            match res og with
            | Throw e => mkOut (Throw e) (final og) (head ++ events og)
            | Ret url =>
                mkOut (Ret {| storage_path := path;
                              filename := pop (split "/" path);
                              original_filename := File.name f;
                              file_size := File.size f';
                              mime_type := File.type f';
                              image_url := url;
                              data_publicUrl := url;
                              data_storagePath := path |})
                  (mkService (<[path := url]> (cache (final og))) (tick (final og)))
                  (head ++ events og)
            end
        end
    end.
Proof.
  cbv zeta.
  remember (uploadAttempt w f entityId options attempt maxRetries s) as o eqn:Ho.
  unfold uploadAttempt in Ho.
  bind_step Ho r0 s0 ev0 H0. unfold emit in H0. injection H0 as <- <- <-.
  name_rest Ho o1 Ho1.
  pose proof (compressImage_silent w f options s) as (_ & (f' & Hres) & _).
  bind_step Ho1 r1 s1 ev1 H1. cbn [res final events] in Hres |- *. subst r1.
  name_rest Ho1 o2 Ho2.
  unfold generateFilename in Ho2.
  bind_step Ho2 r2 s2 ev2 H2.
  unfold bind, ask, ret in H2. cbn in H2. injection H2 as <- <- <-.
  fold (generated_name entityId (Date_now w (tick s1)) (Math_random_id w (S (tick s1)))
          (pop (split "." (File.name f)))) in Ho2.
  set (path := generated_name _ _ _ _) in *.
  name_rest Ho2 o3 Ho3.
  bind_step Ho3 r3 s3 ev3 H3. unfold call in H3. injection H3 as <- <- <-.
  destruct (storage_upload w _ bucket path f') as [[dat [err |]] | e].
  - subst o3 o2 o1 o. cbn. rewrite ?app_nil_r. reflexivity.
  - cbn [up_error] in Ho3 |- *. name_rest Ho3 o4 Ho4.
    bind_step Ho4 r4 s5 ev4 H4.
    destruct r4 as [url | e].
    + unfold bind, cache_set, modify, ret in Ho4. cbn in Ho4.
      subst o4 o3 o2 o1 o. cbn. rewrite ?app_nil_r, <- ?app_assoc. reflexivity.
    + subst o4 o3 o2 o1 o. cbn. rewrite ?app_nil_r, <- ?app_assoc. reflexivity.
  - subst o3 o2 o1 o. cbn. rewrite ?app_nil_r. reflexivity.
Qed.

(** An attempt asks the backend once, and fails when the backend refuses;
    when the backend accepts, it fails only if no URL can be made. *)
Lemma uploadAttempt_answer (f : File.t) (entityId : string) (options : Options)
    (attempt maxRetries : nat) (s : Service) :
  let r := uploadAttempt w f entityId options attempt maxRetries s in
  let c := upload_call w f entityId options s in
  uploads (events r) = [call_path c]
  /\ In (EvUpload bucket (call_path c) (call_file c)) (events r)
  /\ match refusal (backend_answer w f entityId options s) with
     | Some e => res r = Throw e
     | None =>
         match res (url_lookup w f entityId options s) with
         | Ret url => res r = Ret (data_of_call f c url)
         | Throw e => res r = Throw e
         end
     end.
Proof.
  cbv zeta. rewrite uploadAttempt_run. cbv zeta.
  unfold backend_answer, url_lookup, data_of_call, upload_call. cbv zeta.
  cbn [call_tick call_path call_file].
  destruct (compressImage_silent w f options s) as (Hsil & _ & Hcache).
  rewrite <- Hcache.
  set (oc := compressImage w f options s) in *. clearbody oc.
  set (path := generated_name _ _ _ _).
  set (f' := match res oc with Ret x => x | Throw _ => f end).
  set (s3 := mkService (cache (final oc)) _).
  pose proof (getPublicUrl_silent w path s3) as Hsil3.
  set (og := getPublicUrl w path s3) in *. clearbody og.
  assert (Hhead : uploads (EvConsole (LogUploadAttempt attempt maxRetries (File.name f))
                             :: events oc ++ [EvUpload bucket path f']) = [path]).
  { unfold uploads.
    change (?e :: ?l ++ ?l') with ([e] ++ l ++ l'). rewrite !omap_app.
    rewrite (omap_silent upload_of _ silent_upload Hsil). reflexivity. }
  assert (Hin : In (EvUpload bucket path f')
                  (EvConsole (LogUploadAttempt attempt maxRetries (File.name f))
                     :: events oc ++ [EvUpload bucket path f'])).
  { right. apply in_or_app. right. now left. }
  assert (Hog : forall l, uploads l = [path] -> uploads (l ++ events og) = [path]).
  { intros l Hl. unfold uploads in *. rewrite omap_app, Hl.
    rewrite (omap_silent upload_of _ silent_upload Hsil3). reflexivity. }
  destruct (storage_upload w _ bucket path f') as [[dat [err |]] | e];
    cbn [refusal up_error res events]; auto.
  destruct (res og) as [url | e]; cbn [res events];
    (split; [now apply Hog |]); (split; [apply in_or_app; now left | reflexivity]).
Qed.

(** The loop returns at the first attempt that succeeds, or after the
    last one. *)
Lemma uploadImage_loop_chain (f : File.t) (entityId : string) (options : Options)
    (maxRetries : nat) (d : Z) :
  forall (remaining attempt : nat) (lastError : option JsError) (s : Service),
    let o := uploadImage_loop w f entityId options maxRetries d
               (S remaining) attempt lastError s in
    exists k : nat,
      (1 <= k <= S remaining)%nat
      /\ let runs := attempts_in_order w f entityId options maxRetries k attempt s in
         length (uploads (events o)) = k
         /\ Forall (fun r => is_ret (res r) = false) (take (k - 1) runs)
         /\ final o = default s (final <$> last runs)
         /\ match last runs with
            | Some r =>
                match res r with
                | Ret data => res o = Ret (UploadOk data (attempt + k - 1))
                | Throw e =>
                    k = S remaining
                    /\ res o = Ret (UploadFailed (ErrorObject e) maxRetries)
                end
            | None => False
            end.
Proof.
  assert (Hfirst : forall (attempt : nat) (s : Service) (data : UploadData),
            let oa := uploadAttempt w f entityId options attempt maxRetries s in
            res oa = Ret data ->
            let runs := attempts_in_order w f entityId options maxRetries 1 attempt s in
            length (uploads (events oa)) = 1%nat
            /\ Forall (fun r => is_ret (res r) = false) (take (1 - 1) runs)
            /\ final oa = default s (final <$> last runs)
            /\ match last runs with
               | Some r =>
                   match res r with
                   | Ret data' => Ret (UploadOk data attempt)
                                 = Ret (UploadOk data' (attempt + 1 - 1))
                   | Throw e => False
                   end
               | None => False
               end).
  { intros attempt s data. cbv zeta. intros Hres.
    destruct (uploadAttempt_views w f entityId options attempt maxRetries s)
      as (_ & _ & _ & path & Hup & _).
    cbn [attempts_in_order]. cbv zeta.
    set (oa := uploadAttempt w f entityId options attempt maxRetries s) in *.
    clearbody oa.
    rewrite Hup. simpl. rewrite Hres. repeat split; auto. do 2 f_equal. lia. }
  induction remaining as [| remaining IH]; intros attempt lastError s; cbv zeta;
    rewrite uploadImage_loop_turn; cbv zeta;
    pose proof (Hfirst attempt s) as Hok;
    destruct (uploadAttempt_views w f entityId options attempt maxRetries s)
      as (_ & _ & _ & path & Hup & _);
    cbv zeta in Hok;
    set (oa := uploadAttempt w f entityId options attempt maxRetries s) in *;
    destruct (res oa) as [data | e] eqn:Hres; cbn [res final events].
  - exists 1%nat. split; [lia |]. cbv zeta.
    destruct (Hok data eq_refl) as (H1 & H2 & H3 & H4).
    split; [exact H1 |]. split; [exact H2 |]. split; [exact H3 |].
    destruct (last _) as [r |]; [| contradiction].
    destruct (res r); [exact H4 | contradiction].
  - exists 1%nat. split; [lia |]. clear Hok.
    cbn [attempts_in_order uploadImage_loop]. cbv zeta. fold oa. clearbody oa.
    unfold ret. cbn [res final events]. rewrite app_nil_r.
    assert (Hlen : length (uploads
                     (events oa
                        ++ EvConsole (LogUploadAttemptFailed attempt e)
                        :: (if (attempt <? maxRetries)%nat
                            then [EvConsole (LogRetrying d); EvDelay d] else []))) = 1%nat).
    { unfold uploads in *. change (?x :: ?l) with ([x] ++ l). rewrite !omap_app, Hup.
      destruct (attempt <? maxRetries)%nat; reflexivity. }
    split; [exact Hlen |]. simpl. rewrite Hres. repeat split; auto.
  - exists 1%nat. split; [lia |]. cbv zeta.
    destruct (Hok data eq_refl) as (H1 & H2 & H3 & H4).
    split; [exact H1 |]. split; [exact H2 |]. split; [exact H3 |].
    destruct (last _) as [r |]; [| contradiction].
    destruct (res r); [exact H4 | contradiction].
  - clear Hok.
    destruct (IH (S attempt) (Some e) (final oa)) as (k & Hk & Hrun).
    cbv zeta in Hrun. destruct Hrun as (Hlen & Hall & Hfinal & Hlast).
    set (o' := uploadImage_loop w f entityId options maxRetries d (S remaining)
                 (S attempt) (Some e) (final oa)) in *.
    exists (S k). split; [lia |].
    cbn [attempts_in_order]. cbv zeta. fold oa.
    set (runs := attempts_in_order w f entityId options maxRetries k (S attempt) (final oa))
      in *.
    assert (Hsome : exists r runs', runs = r :: runs').
    { unfold runs. destruct k; [lia |]. cbn [attempts_in_order]. cbv zeta. eauto. }
    destruct Hsome as (r0 & runs' & Hruns).
    clearbody runs o' oa.
    replace (S k - 1)%nat with (S (k - 1)) by lia.
    split; [| split; [| split]].
    + unfold uploads in *.
      change (?x :: ?l ++ ?l') with ([x] ++ l ++ l').
      rewrite !omap_app, !length_app, Hup, Hlen.
      destruct (attempt <? maxRetries)%nat; cbn; lia.
    + cbn [take]. constructor; [now rewrite Hres | exact Hall].
    + rewrite Hfinal, Hruns.
      change (last (oa :: r0 :: runs')) with (last (r0 :: runs')).
      destruct (last (r0 :: runs')) as [r |] eqn:Hl; [reflexivity |].
      apply last_None in Hl. discriminate.
    + rewrite Hruns. rewrite Hruns in Hlast.
      change (last (oa :: r0 :: runs')) with (last (r0 :: runs')).
      destruct (last (r0 :: runs')) as [r |]; [| contradiction].
      destruct (res r) as [data | e'].
      * rewrite Hlast. do 2 f_equal. lia.
      * destruct Hlast as (-> & Hlast). split; [reflexivity | exact Hlast].
Qed.

(** C3. [uploadImage] always returns.  It makes one upload call per
    attempt started and at most [maxRetries] of them (3 unless the options
    say otherwise).  When it returns [{ success: true, data, attempt }], the
    attempts started are exactly 1..attempt and exactly the attempts before
    [attempt] failed: it returned at the first attempt that succeeded.  When
    it returns [{ success: false, error, attempts }], all of the attempts
    1..maxRetries were made and failed, [attempts] is [maxRetries] and
    [error] is the error of the last failed attempt.

    Whether an attempt failed is decided by the backend: every attempt
    calls [storage.upload] exactly once, and fails with the error that the
    backend throws or answers; when the backend accepts the file, the
    attempt succeeds with the data of that upload, unless no public URL can
    be made.  The attempts made are the first [k] of the chain of attempts
    1, 2, ..., each starting where the one before it ended: all but the last
    failed; when the last succeeded, [uploadImage] returns its data with
    [attempt = k]; when the last failed, [k] is [maxRetries] and
    [uploadImage] returns the error of that attempt. *)
Theorem uploadImage_retries_then_fails (f : File.t) (entityId : string)
    (options : Options) (s : Service) :
  let m := effective_maxRetries options in
  let o := uploadImage w f entityId options s in
  let tr := events o in
  effective_maxRetries no_options = 3%nat
  /\ length (uploads tr) = length (attempts_started tr)
  /\ (length (uploads tr) <= m)%nat
  /\ match res o with
     | Ret (UploadOk data a) =>
         success (UploadOk data a) = true
         /\ (1 <= a <= m)%nat
         /\ attempts_started tr = seq 1 a
         /\ (attempts_failed tr).*1 = seq 1 (a - 1)
     | Ret (UploadFailed err n) =>
         success (UploadFailed err n) = false
         /\ n = m
         /\ attempts_started tr = seq 1 m
         /\ (attempts_failed tr).*1 = seq 1 m
         /\ exists e, last (attempts_failed tr) = Some (m, e) /\ err = ErrorObject e
     | Throw _ => False
     end
  /\ (forall (a : nat) (s' : Service),
        let r := uploadAttempt w f entityId options a m s' in
        let c := upload_call w f entityId options s' in
        uploads (events r) = [call_path c]
        /\ In (EvUpload bucket (call_path c) (call_file c)) (events r)
        /\ match refusal (backend_answer w f entityId options s') with
           | Some e => res r = Throw e
           | None =>
               match res (url_lookup w f entityId options s') with
               | Ret url => res r = Ret (data_of_call f c url)
               | Throw e => res r = Throw e
               end
           end)
  /\ exists k : nat,
       (1 <= k <= m)%nat
       /\ let runs := attempts_in_order w f entityId options m k 1 s in
          length (uploads tr) = k
          /\ Forall (fun r => is_ret (res r) = false) (take (k - 1) runs)
          /\ final o = default s (final <$> last runs)
          /\ match last runs with
             | Some r =>
                 match res r with
                 | Ret data => res o = Ret (UploadOk data k)
                 | Throw e => k = m /\ res o = Ret (UploadFailed (ErrorObject e) m)
                 end
             | None => False
             end.
Proof.
  cbv zeta. unfold uploadImage.
  pose proof (effective_maxRetries_pos options) as Hpos.
  set (m := effective_maxRetries options) in *.
  split; [reflexivity |].
  assert (Htrace :
    let o := uploadImage_loop w f entityId options m (effective_retryDelay options)
               m 1 None s in
    length (uploads (events o)) = length (attempts_started (events o))
    /\ (length (uploads (events o)) <= m)%nat
    /\ match res o with
       | Ret (UploadOk data a) =>
           success (UploadOk data a) = true
           /\ (1 <= a <= m)%nat
           /\ attempts_started (events o) = seq 1 a
           /\ (attempts_failed (events o)).*1 = seq 1 (a - 1)
       | Ret (UploadFailed err n) =>
           success (UploadFailed err n) = false
           /\ n = m
           /\ attempts_started (events o) = seq 1 m
           /\ (attempts_failed (events o)).*1 = seq 1 m
           /\ exists e, last (attempts_failed (events o)) = Some (m, e)
                        /\ err = ErrorObject e
       | Throw _ => False
       end).
  { cbv zeta.
    destruct (uploadImage_loop_run w f entityId options m (effective_retryDelay options)
                m 1 None s) as (errs & Hfa & Hrv & Hres); [lia |].
    cbv zeta in Hres.
    set (o := uploadImage_loop w f entityId options m _ m 1 None s) in *.
    destruct (res o) as [[data a | err n] | e]; [| | contradiction].
    - destruct Hres as (-> & Hle & Hst & Hlen & _).
      rewrite Hst, Hlen, length_seq, Hfa, fst_numbered.
      repeat split; try reflexivity; try lia.
      f_equal. lia.
    - destruct Hres as (-> & Hlen & Hst & Hlen' & ->).
      rewrite Hst, Hlen', length_seq, Hfa, fst_numbered, last_numbered, Hlen.
      repeat split; try reflexivity.
      unfold last_error. destruct (last errs) as [e |] eqn:Hlast.
      + exists e. cbn. split; [| reflexivity]. do 2 f_equal. lia.
      + apply last_None in Hlast. subst errs. cbn in Hlen. lia. }
  cbv zeta in Htrace. destruct Htrace as (H1 & H2 & H3).
  split; [exact H1 |]. split; [exact H2 |]. split; [exact H3 |].
  split; [intros a s'; apply uploadAttempt_answer |].
  destruct m as [| m']; [lia |].
  destruct (uploadImage_loop_chain f entityId options (S m') (effective_retryDelay options)
              m' 1 None s) as (k & Hk & Hrun).
  cbv zeta in Hrun. destruct Hrun as (Hlen & Hall & Hfinal & Hlast).
  exists k. split; [exact Hk |].
  split; [exact Hlen |]. split; [exact Hall |]. split; [exact Hfinal |].
  revert Hlast.
  destruct (last (attempts_in_order w f entityId options (S m') k 1 s)) as [r |]; [| tauto].
  destruct (res r) as [data | e]; [| tauto].
  intros ->. do 2 f_equal. lia.
Qed.

Example uploadImage_rejected :
  res (uploadImage Examples.rejecting Examples.cat "42" no_options new_service)
  = Ret (UploadFailed (ErrorObject Examples.bucket_not_found) 3).
Proof. vm_compute. reflexivity. Qed.

Example uploadAttempt_refused :
  refusal (backend_answer Examples.rejecting Examples.cat "42" no_options new_service)
  = Some Examples.bucket_not_found
  /\ res (uploadAttempt Examples.rejecting Examples.cat "42" no_options 1 3 new_service)
     = Throw Examples.bucket_not_found.
Proof. split; vm_compute; reflexivity. Qed.

Example uploadImage_second_attempt :
  attempts_started
    (events (uploadImage Examples.flaky Examples.cat "42" no_options new_service))
  = [1; 2]%nat
  /\ uploads (events (uploadImage Examples.flaky Examples.cat "42" no_options new_service))
     = ["42/1700000000000-k3j9x1.png"; "42/1700000000003-k3j9x1.png"].
Proof. split; vm_compute; reflexivity. Qed.

End UploadImage.

(** ** Waiting between attempts *)

Section RetryUpload.
Import UploadRetry Trace.
Context {St : Type} (uploadFunction : M St CallbackResult).
(** The callback itself does not wait. *)
Hypothesis callback_no_wait : forall s, delays (events (uploadFunction s)) = [].

Lemma retry_iteration_delays (maxRetries : nat) (delay : Z) (attempt : nat) (s : St) :
  let o := retry_iteration uploadFunction maxRetries delay attempt s in
  match res o with
  | Ret (StepNext _) => delays (events o) = [backoffDelay delay attempt]
  | Ret _ => delays (events o) = []
  | Throw _ => False
  end.
Proof.
  cbv zeta. unfold retry_iteration.
  pose proof (callback_no_wait s) as Hq. unfold delays in *.
  run_monad.
  destruct (uploadFunction s) as [[r | e] s1 ev] eqn:Hu; cbn [events] in Hq; run_monad.
  - destruct (cb_success r); run_monad.
    + rewrite ?app_nil_r, ?omap_app, ?Hq. reflexivity.
    + destruct (is_validation_error (cb_error r)) as [[|] | err]; run_monad;
        rewrite ?app_nil_r, ?omap_app, ?Hq; reflexivity.
  - rewrite ?app_nil_r, ?omap_app, ?Hq. reflexivity.
Qed.

Lemma retryUpload_loop_delays (maxRetries : nat) (delay : Z) :
  forall (remaining attempt : nat) (lastError : CallbackError) (s : St),
    let o := retryUpload_loop uploadFunction maxRetries delay remaining attempt lastError s in
    is_ret (res o) = true
    /\ exists k, (k <= remaining)%nat
         /\ delays (events o) = exponential_wait delay <$> seq attempt k.
Proof.
  induction remaining as [| remaining IH]; intros attempt lastError s; cbv zeta.
  - split; [reflexivity |]. exists 0%nat. split; [lia | reflexivity].
  - remember (retryUpload_loop uploadFunction maxRetries delay (S remaining) attempt
                lastError s) as o eqn:Ho.
    cbn [retryUpload_loop] in Ho.
    pose proof (retry_iteration_delays maxRetries delay attempt s) as Hit. cbv zeta in Hit.
    bind_step Ho r s1 ev Hm. cbn [res final events] in Hit.
    unfold delays in *.
    destruct r as [[result | le | le] | e]; [| | | contradiction].
    + subst o. cbn. rewrite ?app_nil_r.
      split; [reflexivity |]. exists 0%nat. split; [lia | exact Hit].
    + subst o. unfold after_loop, bind, emit, ret. cbn.
      split; [reflexivity |]. exists 0%nat. split; [lia |].
      rewrite ?omap_app, Hit. reflexivity.
    + destruct (IH (S attempt) le s1) as (Hret & k & Hk & Hdel).
      subst o. cbn [res final events].
      split; [exact Hret |]. exists (S k). split; [lia |].
      rewrite omap_app, Hit, Hdel. reflexivity.
Qed.

End RetryUpload.

Section Waits.
Import ImageService UploadRetry Trace.

Lemma delays_retry_view (tr : list Event) : delays tr = omap wait_of (retry_view tr).
Proof.
  unfold delays, retry_view.
  induction tr as [| e tr IH]; [reflexivity |].
  destruct e as [[] | | | | | | | | |]; csimpl; now rewrite IH.
Qed.

Lemma schedule_constant_waits (d : Z) (m : nat) (errs : list JsError) :
  forall a, Forall (eq d) (omap wait_of (schedule (constant_wait d) m a errs)).
Proof.
  induction errs as [| e errs IH]; intros a; [constructor |].
  cbn [schedule]. csimpl. rewrite omap_app.
  apply Forall_app. split; [| apply IH].
  destruct (a <? m)%nat; repeat constructor.
Qed.

(** C1 as stated fails on the upload of [cat.png] to a backend that
    rejects every upload: three attempts, and a wait of 1000 ms after the
    first and after the second, where the exponential schedule asks for
    2000 ms after the second. *)
Lemma uploadImage_wait_not_exponential :
  let o := uploadImage Examples.rejecting Examples.cat "42" no_options new_service in
  retry_view (events o)
  = [Failed 1 Examples.bucket_not_found; Waited 1000;
     Failed 2 Examples.bucket_not_found; Waited 1000;
     Failed 3 Examples.bucket_not_found]
  /\ exponential_wait (effective_retryDelay no_options) 2 = 2000%Z
  /\ ~ exists errs,
        retry_view (events o)
        = schedule (exponential_wait (effective_retryDelay no_options))
            (effective_maxRetries no_options) 1 errs.
Proof.
  cbv zeta.
  assert (Hview : retry_view (events (uploadImage Examples.rejecting Examples.cat "42"
                                        no_options new_service))
                  = [Failed 1 Examples.bucket_not_found; Waited 1000;
                     Failed 2 Examples.bucket_not_found; Waited 1000;
                     Failed 3 Examples.bucket_not_found]) by (vm_compute; reflexivity).
  split; [exact Hview |]. split; [reflexivity |].
  rewrite Hview. intros (errs & Heq).
  destruct errs as [| e1 [| e2 errs]]; cbn in Heq; try discriminate.
Qed.

(** C1 (amended). The retry loop of [uploadImage] is a fixed-count loop
    that waits the base delay itself ([options.retryDelay], 1000 ms by
    default) after every failed attempt before attempt [maxRetries],
    whatever the attempt number.  The delay [base * 2^(attempt-1)] is that
    of [retryUpload], after each of its failed attempts that it does not
    stop at. *)
Theorem upload_retry_waits :
  (forall (w : World) (f : File.t) (entityId : string) (options : Options) (s : Service),
      let d := effective_retryDelay options in
      let o := uploadImage w f entityId options s in
      (exists errs,
          retry_view (events o)
          = schedule (constant_wait d) (effective_maxRetries options) 1 errs)
      /\ Forall (eq d) (delays (events o)))
  /\ effective_retryDelay no_options = 1000%Z
  /\ (forall (St : Type) (uploadFunction : M St CallbackResult)
             (maxRetries : nat) (delay : Z) (s : St),
        (forall s', delays (events (uploadFunction s')) = []) ->
        exists k, (k <= maxRetries)%nat
          /\ delays (events (retryUpload uploadFunction maxRetries delay s))
             = exponential_wait delay <$> seq 1 k).
Proof.
  split; [| split; [reflexivity |]].
  - intros w f entityId options s. cbv zeta. unfold uploadImage.
    destruct (uploadImage_loop_run w f entityId options (effective_maxRetries options)
                (effective_retryDelay options) (effective_maxRetries options) 1 None s)
      as (errs & _ & Hrv & _); [lia |].
    cbv zeta in Hrv. split; [now exists errs |].
    rewrite delays_retry_view, Hrv. apply schedule_constant_waits.
  - intros St uploadFunction maxRetries delay s Hquiet. unfold retryUpload.
    destruct (retryUpload_loop_delays uploadFunction Hquiet maxRetries delay
                maxRetries 1 CbAbsent s) as (_ & k & Hk & Hdel).
    now exists k.
Qed.

(** The exponential schedule of [retryUpload], on a callback that times
    out every time. *)
Lemma upload_retry_waits_witness :
  exists k, (k <= 3)%nat
    /\ delays (events (retryUpload Examples.timing_out 3 1000 tt))
       = exponential_wait 1000 <$> seq 1 k.
Proof.
  apply (proj2 (proj2 upload_retry_waits) unit Examples.timing_out 3%nat 1000%Z tt).
  intros s'. reflexivity.
Defined.

Example retryUpload_timing_out :
  delays (events (retryUpload Examples.timing_out 3 1000 tt)) = [1000; 2000; 4000]%Z.
Proof. reflexivity. Qed.

End Waits.

(** ** Cached URLs *)

Section CachedUrls.
Import ImageService Trace.

(** C7. [getPublicUrl] leaves the URL it returns in the cache under the
    path, and with that cache every later call for the path returns the same
    URL without calling the SDK and without changing anything; a successful
    [uploadImage] leaves the cache in the same way for the path it uploaded
    to. *)
Theorem getPublicUrl_caches :
  (forall (w : World) (storagePath : string) (s : Service) (url : string),
      res (getPublicUrl w storagePath s) = Ret url ->
      let s1 := final (getPublicUrl w storagePath s) in
      cache s1 !! storagePath = Some url
      /\ forall (w' : World) (s2 : Service),
           cache s2 = cache s1 ->
           getPublicUrl w' storagePath s2 = mkOut (Ret url) s2 [])
  /\ (forall (w : World) (f : File.t) (entityId : string) (options : Options)
             (s : Service) (data : UploadData) (attempt : nat),
        res (uploadImage w f entityId options s) = Ret (UploadOk data attempt) ->
        let o := uploadImage w f entityId options s in
        last (uploads (events o)) = Some (data_storagePath data)
        /\ cache (final o) !! data_storagePath data = Some (data_publicUrl data)
        /\ forall (w' : World) (s2 : Service),
             cache s2 = cache (final o) ->
             getPublicUrl w' (data_storagePath data) s2
             = mkOut (Ret (data_publicUrl data)) s2 []).
Proof.
  split.
  - intros w storagePath s url Hres. cbv zeta.
    destruct (getPublicUrl_returns w storagePath url s Hres) as (Htruthy & Hcache & _).
    assert (Hlook : cache (final (getPublicUrl w storagePath s)) !! storagePath = Some url)
      by (rewrite Hcache; apply lookup_insert_eq).
    split; [exact Hlook |].
    intros w' s2 Heq. apply getPublicUrl_hit; [now rewrite Heq | exact Htruthy].
  - intros w f entityId options s data attempt Hres. cbv zeta.
    unfold uploadImage in *.
    destruct (uploadImage_loop_run w f entityId options (effective_maxRetries options)
                (effective_retryDelay options) (effective_maxRetries options) 1 None s)
      as (errs & _ & _ & Hrun); [lia |].
    cbv zeta in Hrun. rewrite Hres in Hrun.
    destruct Hrun as (_ & _ & _ & _ & Hlast & Hcache & Htruthy).
    split; [exact Hlast |]. split; [exact Hcache |].
    intros w' s2 Heq. apply getPublicUrl_hit; [now rewrite Heq | exact Htruthy].
Qed.

(** The fallback URL of a path, and the URL of a file uploaded at the
    second attempt, are in the cache afterwards. *)
Lemma getPublicUrl_caches_witness :
  (let s1 := final (getPublicUrl Examples.rejecting "42/a.png" new_service) in
   cache s1 !! "42/a.png"
   = Some "https://proj.supabase.co/storage/v1/object/public/post-images/42/a.png"
   /\ forall (w' : World) (s2 : Service),
        cache s2 = cache s1 ->
        getPublicUrl w' "42/a.png" s2
        = mkOut (Ret "https://proj.supabase.co/storage/v1/object/public/post-images/42/a.png")
            s2 [])
  /\ (let o := uploadImage Examples.flaky Examples.cat "42" no_options new_service in
      cache (final o) !! "42/1700000000003-k3j9x1.png"
      = Some "https://cdn.example/post-images/42/1700000000003-k3j9x1.png").
Proof.
  split.
  - apply (proj1 getPublicUrl_caches Examples.rejecting "42/a.png" new_service).
    reflexivity.
  - cbv zeta.
    pose proof (proj2 getPublicUrl_caches Examples.flaky Examples.cat "42" no_options
                  new_service
                  {| storage_path := "42/1700000000003-k3j9x1.png";
                     filename := "1700000000003-k3j9x1.png";
                     original_filename := "cat.png";
                     file_size := 1000;
                     mime_type := "image/png";
                     image_url := "https://cdn.example/post-images/42/1700000000003-k3j9x1.png";
                     data_publicUrl := "https://cdn.example/post-images/42/1700000000003-k3j9x1.png";
                     data_storagePath := "42/1700000000003-k3j9x1.png" |}
                  2%nat eq_refl) as H.
    cbv zeta in H. exact (proj1 (proj2 H)).
Defined.

End CachedUrls.

(** ** Deleting an image *)

Section DeleteImage.
Import ImageService.
Context (w : World).

(** C10. [deleteImage] makes one removal call.  It returns
    [{ success: true }] exactly when the call returns without an error, and
    then the path's entry is gone from the cache; when the call returns an
    error or throws, it returns [{ success: false, error: error.message }]
    and the cache is as it was. *)
Theorem deleteImage_cache_atomic (storagePath : string) (s : Service) :
  let o := deleteImage w storagePath s in
  let answer := storage_remove w (tick s) bucket [storagePath] in
  events o = [EvRemove bucket [storagePath]]
  /\ (exists r, res o = Ret r
        /\ (del_success r = true <-> answer = Ret (mkRemoveResponse None))
        /\ cache (final o)
           = if del_success r then delete storagePath (cache s) else cache s)
  /\ match answer with
     | Ret (mkRemoveResponse None) =>
         res o = Ret (mkDeleteResult true (Some "Image deleted successfully") None)
     | Ret (mkRemoveResponse (Some e)) | Throw e =>
         res o = Ret (mkDeleteResult false None (Some (message e)))
     end.
Proof.
  cbv zeta. unfold deleteImage, try_catch, bind, call, cache_delete, modify, throw, ret.
  cbn [res final events].
  destruct (storage_remove w (tick s) bucket [storagePath]) as [[[e |]] | e];
    cbn [res final events rm_error app cache].
  - split; [reflexivity |]. split; [| reflexivity].
    eexists. split; [reflexivity |]. cbn. split; [| reflexivity].
    split; discriminate.
  - split; [reflexivity |]. split; [| reflexivity].
    eexists. split; [reflexivity |]. cbn. split; [| reflexivity].
    split; reflexivity.
  - split; [reflexivity |]. split; [| reflexivity].
    eexists. split; [reflexivity |]. cbn. split; [| reflexivity].
    split; discriminate.
Qed.

Example deleteImage_rejected :
  let s := mkService {["42/a.png" := "https://cdn.example/a.png"]} 0 in
  let o := deleteImage Examples.rejecting "42/a.png" s in
  res o = Ret (mkDeleteResult false None (Some "Bucket not found"))
  /\ cache (final o) = cache s.
Proof. split; reflexivity. Qed.

Example deleteImage_removed :
  let s := mkService {["42/a.png" := "https://cdn.example/a.png"]} 0 in
  let o := deleteImage Examples.flaky "42/a.png" s in
  del_success <$> (match res o with Ret r => Some r | Throw _ => None end) = Some true
  /\ cache (final o) !! "42/a.png" = None.
Proof. split; reflexivity. Qed.

End DeleteImage.

(** ** Uploading several images *)

Section UploadMultiple.
Import ImageService Batch.
Context (w : World).

Lemma uploadImage_returns (f : File.t) (entityId : string) (options : Options)
    (s : Service) :
  exists r, res (uploadImage w f entityId options s) = Ret r.
Proof.
  unfold uploadImage.
  destruct (uploadImage_loop_run w f entityId options (effective_maxRetries options)
              (effective_retryDelay options) (effective_maxRetries options) 1 None s)
    as (errs & _ & _ & Hrun); [lia |].
  cbv zeta in Hrun.
  destruct (res (uploadImage_loop w f entityId options _ _ _ 1 None s)) as [r | e];
    [eauto | contradiction].
Qed.

(** The loop appends, to each of its three arrays, what the runs in order
    contribute. *)
Lemma uploadMultipleImages_loop_run (entityId : string) (options : Options) :
  forall (files : list File.t) (rs : list UploadResult) (ss : list UploadData)
         (fs : list FailedUpload) (s : Service),
    let runs := upload_in_order w entityId options files s in
    let o := uploadMultipleImages_loop w files entityId options rs ss fs s in
    exists rs' : list UploadResult,
      res o = Ret (rs ++ rs', ss ++ omap data_of rs', fs ++ omap failure_of (zip files rs'))
      /\ res <$> runs = Ret <$> rs'
      /\ events o = concat (events <$> runs)
      /\ final o = end_state s runs.
Proof.
  induction files as [| f files IH]; intros rs ss fs s; cbv zeta.
  - exists []. cbn. rewrite !app_nil_r. repeat split; reflexivity.
  - remember (uploadMultipleImages_loop w (f :: files) entityId options rs ss fs s)
      as o eqn:Ho.
    cbn [uploadMultipleImages_loop] in Ho.
    destruct (uploadImage_returns f entityId options s) as (r & Hr).
    bind_step Ho r1 s1 ev1 Hm. cbn [res] in Hr. subst r1.
    cbn [upload_in_order]. cbv zeta. rewrite Hm. cbn [res final events].
    assert (Hend : forall runs, end_state s (mkOut (Ret r) s1 ev1 :: runs) = end_state s1 runs).
    { intros [| o1 runs]; [reflexivity |]. unfold end_state.
      change (last (mkOut (Ret r) s1 ev1 :: o1 :: runs)) with (last (o1 :: runs)).
      destruct (last (o1 :: runs)) eqn:Hl; [reflexivity |].
      apply last_None in Hl. discriminate. }
    destruct r as [data a | err n].
    + destruct (IH (rs ++ [UploadOk data a]) (ss ++ [data]) fs s1)
        as (rs' & Hres & Hruns & Hev & Hfin).
      exists (UploadOk data a :: rs').
      subst o. cbn [res final events]. rewrite Hres, Hev, Hfin, Hend.
      csimpl. rewrite <- !app_assoc. cbn [app]. rewrite Hruns.
      repeat split; reflexivity.
    + destruct (IH (rs ++ [UploadFailed err n]) ss
                   (fs ++ [mkFailedUpload (File.name f) err n]) s1)
        as (rs' & Hres & Hruns & Hev & Hfin).
      exists (UploadFailed err n :: rs').
      subst o. cbn [res final events]. rewrite Hres, Hev, Hfin, Hend.
      csimpl. rewrite <- !app_assoc. cbn [app]. rewrite Hruns.
      repeat split; reflexivity.
Qed.

(** C6. [uploadMultipleImages] always returns; its calls are those of
    [uploadImage] on the files in their order, one run after the other;
    [results] holds the result of each run in that order, one per file;
    [successfulUploads] and [failedUploads] are the data of the successful
    results and the records of the failed ones, in order, so that each result
    is in exactly one of them; [summary] counts them; and [success] is true
    exactly when [failedUploads] is empty. *)
Theorem uploadMultipleImages_bookkeeping (files : list File.t) (entityId : string)
    (options : Options) (s : Service) :
  let runs := upload_in_order w entityId options files s in
  let o := uploadMultipleImages w files entityId options s in
  exists b : BatchResult,
    res o = Ret b
    /\ events o = concat (events <$> runs)
    /\ final o = end_state s runs
    /\ res <$> runs = Ret <$> results b
    /\ length (results b) = length files
    /\ successfulUploads b = omap data_of (results b)
    /\ failedUploads b = omap failure_of (zip files (results b))
    /\ (length (successfulUploads b) + length (failedUploads b))%nat = length (results b)
    /\ total (summary b) = length files
    /\ successful (summary b) = length (successfulUploads b)
    /\ failed (summary b) = length (failedUploads b)
    /\ (successful (summary b) + failed (summary b))%nat = total (summary b)
    /\ (batch_success b = true <-> failedUploads b = []).
Proof.
  cbv zeta.
  destruct (uploadMultipleImages_loop_run entityId options files [] [] [] s)
    as (rs & Hres & Hruns & Hev & Hfin). cbv zeta in *.
  remember (uploadMultipleImages w files entityId options s) as o eqn:Ho.
  unfold uploadMultipleImages in Ho.
  bind_step Ho r1 s1 ev1 Hm. cbn [res final events] in Hres, Hev, Hfin. subst r1.
  cbn [app] in Ho. unfold ret in Ho. cbn [res final events] in Ho.
  assert (Hlen : length rs = length files).
  { apply (f_equal length) in Hruns. rewrite !length_fmap in Hruns.
    rewrite <- Hruns. clear. revert s.
    induction files as [| f files IH]; intros s; [reflexivity |].
    cbn. now rewrite IH. }
  assert (Hpart : (length (omap data_of rs) + length (omap failure_of (zip files rs)))%nat
                  = length rs).
  { clear - Hlen. revert files Hlen.
    induction rs as [| [data a | err n] rs IH]; intros [| f files] Hlen;
      try discriminate; [reflexivity | |]; csimpl; injection Hlen as Hlen;
      specialize (IH files Hlen); cbn [length]; lia. }
  eexists. subst o. cbn [res final events]. split; [reflexivity |].
  cbn [results successfulUploads failedUploads summary total successful failed
       batch_success].
  rewrite app_nil_r.
  repeat split; auto; try lia.
  - intros Hb. apply Nat.eqb_eq in Hb. now apply nil_length_inv.
  - intros ->. reflexivity.
Qed.

Example uploadMultipleImages_rejected :
  let o := uploadMultipleImages Examples.rejecting [Examples.cat; Examples.poster] "42"
             no_options new_service in
  (fun b => (batch_success b, summary b, failed_file <$> failedUploads b)) <$> 
    match res o with Ret b => Some b | Throw _ => None end
  = Some (false, mkSummary 2 0 2, ["cat.png"; "poster.jpeg"]).
Proof. vm_compute. reflexivity. Qed.

End UploadMultiple.

(** ** The REST client *)

Section RestClient.
Import Http Rest.
Context (w : World).
Context (JSON_parse : string -> Res JsValue).
Context (JSON_stringify : JsValue -> option string).

Lemma add_authorization_usable (token : option string) (headers : list (string * string)) :
  usable token ->
  add_authorization token headers
  = headers ++ match token with
               | Some t => [("Authorization", "Bearer " +:+ t)]
               | None => []
               end.
Proof.
  destruct token as [[| c t] |]; cbn; intros H;
    [discriminate | reflexivity | now rewrite app_nil_r].
Qed.

(** [getAuthToken] of the current client: one call of the auth SDK, never a
    throw; the token is the access token of the session, when the SDK
    answers without an error and that token is truthy. *)
Lemma current_getAuthToken (t : nat) :
  exists token,
    ApiClient.getAuthToken w t = mkOut (Ret token) (S t) [EvGetSession]
    /\ usable token
    /\ forall tk, token = Some tk <->
         truthy_string tk = true
         /\ auth_getSession w t
            = Ret (mkSessionResponse (Some (Some (mkSession (Some tk)))) None).
Proof.
  unfold ApiClient.getAuthToken, try_catch, bind, call, throw, ret. cbn.
  destruct (auth_getSession w t) as [[[[[[[| c tk] |]] |] |] [err |]] | e]; cbn;
    eexists; (split; [reflexivity |]); (split; [cbn; trivial |]);
    intros tk'; (split;
      [ intros Heq; inversion Heq; subst; split; reflexivity
      | intros [Ht Hs]; inversion Hs; subst; try discriminate; reflexivity ]).
Qed.

Lemma token_of_entry_usable (entry : string) (token : option string) :
  ExtraApiClient.token_of_entry JSON_parse entry = Ret token -> usable token.
Proof.
  unfold ExtraApiClient.token_of_entry.
  destruct (JSON_parse entry) as [v | e]; [| discriminate].
  repeat match goal with
         | |- context [if truthy ?x then _ else _] =>
             let H := fresh "Ht" in destruct (truthy x) eqn:H;
             [destruct x; cbn; try discriminate; intros [= <-]; exact H |]
         end.
  intros [= <-]. exact I.
Qed.

Lemma scan_keys_usable (keys : list string) (token : option string) :
  ExtraApiClient.scan_keys w JSON_parse keys = Ret token -> usable token.
Proof.
  induction keys as [| key keys IH]; cbn.
  - destruct (localStorage_getItem w "access_token") as [[[| c t] |] | e];
      try discriminate; intros [= <-]; cbn; auto.
  - destruct (localStorage_getItem w key) as [[[| c entry] |] | e];
      try discriminate; auto.
    destruct (ExtraApiClient.token_of_entry JSON_parse (String c entry))
      as [[tk |] | e] eqn:Hentry; auto.
    intros [= <-]. exact (token_of_entry_usable _ _ Hentry).
Qed.

(** [getAuthToken] of the older client reads the browser storage only. *)
Lemma older_getAuthToken (t : nat) :
  exists token,
    ExtraApiClient.getAuthToken w JSON_parse t = mkOut (Ret token) t []
    /\ usable token.
Proof.
  unfold ExtraApiClient.getAuthToken.
  destruct (ExtraApiClient.scan_keys w JSON_parse ExtraApiClient.possibleKeys)
    as [token | e] eqn:Hscan.
  - exists token. split; [reflexivity |]. exact (scan_keys_usable _ _ Hscan).
  - exists None. split; [reflexivity | exact I].
Qed.

Lemma getAuthToken_run (c : Client) (t : nat) :
  exists token,
    getAuthToken w JSON_parse c t
    = mkOut (Ret token) (match c with Current => S t | Older => t end)
        (match c with Current => [EvGetSession] | Older => [] end)
    /\ usable token.
Proof.
  destruct c; cbn.
  - destruct (current_getAuthToken t) as (token & H & Hu & _). eauto.
  - apply older_getAuthToken.
Qed.

(** Running a method whose token lookup is known: the goal is reduced to
    the cases of what [fetch] answers and of what the body is. *)
Ltac run_method Htok Hus :=
  unfold try_catch, bind, do_fetch, call, lift, ret;
  rewrite Htok; cbn [res final events];
  rewrite (add_authorization_usable _ _ Hus);
  match goal with
  | |- context [fetch ?w ?t ?req] =>
      destruct (fetch w t req) as [response | e]; cbn [res final events]
  end.

Ltac by_cases_of_body :=
  match goal with
  | |- context [resp_json ?response] =>
      destruct (resp_json response) as [[] | ?], (ok response);
      cbn; rewrite ?app_nil_r; reflexivity
  end.

Section Generic.
Context (API : string) (getToken : M nat (option string)).
Context (t t' : nat) (token : option string) (evs : list Event).
Hypothesis Htok : getToken t = mkOut (Ret token) t' evs.
Hypothesis Hus : usable token.

Let headers : list (string * string) :=
  json_headers ++ match token with
                  | Some tk => [("Authorization", "Bearer " +:+ tk)]
                  | None => []
                  end.

Lemma send_run (c : Client) (m : Method) (endpoint : string) (body : JsValue) :
  m = POST \/ m = PUT ->
  let req := mkRequest (API +:+ endpoint) (method_name m) headers (JSON_stringify body) in
  Http.send w JSON_stringify API getToken (method_name m) endpoint body t
  = mkOut (Ret (normalized JSON_parse c m (fetch w t' req))) (S t') (evs ++ [EvFetch req]).
Proof.
  intros Hm. cbv zeta. unfold Http.send, headers. run_method Htok Hus.
  - unfold normalized, body_of, status_of, error_of.
    destruct Hm as [-> | ->], c; by_cases_of_body.
  - cbn. now rewrite app_nil_r.
Qed.

Lemma delete_run (c : Client) (endpoint : string) :
  let req := mkRequest (API +:+ endpoint) "DELETE" headers None in
  Http.delete w API getToken endpoint t
  = mkOut (Ret (normalized JSON_parse c DELETE (fetch w t' req))) (S t')
      (evs ++ [EvFetch req]).
Proof.
  cbv zeta. unfold Http.delete, headers. run_method Htok Hus.
  - unfold normalized, body_of, status_of, error_of. destruct c; by_cases_of_body.
  - cbn. now rewrite app_nil_r.
Qed.

Lemma get_plain_run (endpoint : string) :
  let req := mkRequest (API +:+ endpoint) "GET" headers None in
  Http.get_plain w API getToken endpoint t
  = mkOut (Ret (normalized JSON_parse Older GET (fetch w t' req))) (S t')
      (evs ++ [EvFetch req]).
Proof.
  cbv zeta. unfold Http.get_plain, headers. run_method Htok Hus.
  - unfold normalized, body_of, status_of, error_of. by_cases_of_body.
  - cbn. now rewrite app_nil_r.
Qed.

End Generic.

Lemma current_get_run (endpoint : string) (t : nat) (token : option string) :
  ApiClient.getAuthToken w t = mkOut (Ret token) (S t) [EvGetSession] ->
  usable token ->
  let req := mkRequest (ApiClient.API_URL w +:+ endpoint) "GET"
               (json_headers ++ match token with
                                | Some tk => [("Authorization", "Bearer " +:+ tk)]
                                | None => []
                                end) None in
  ApiClient.get w JSON_parse endpoint t
  = mkOut (Ret (normalized JSON_parse Current GET (fetch w (S t) req))) (S (S t))
      [EvGetSession; EvFetch req].
Proof.
  intros Htok Hus. cbv zeta. unfold ApiClient.get. run_method Htok Hus.
  - unfold normalized, body_of, status_of, error_of, field.
    destruct (ApiClient.is_json_content_type (content_type response)).
    + destruct (resp_json response) as [[] | ?], (ok response); cbn; try reflexivity.
      unfold js_or.
      match goal with |- context [truthy ?x] => destruct (truthy x) end; reflexivity.
    + destruct (resp_text response) as [text | ?]; cbn; [| reflexivity].
      destruct (ApiClient.parse_text JSON_parse text), (ok response); cbn; try reflexivity.
      unfold js_or.
      match goal with |- context [truthy ?x] => destruct (truthy x) end; reflexivity.
  - reflexivity.
Qed.

(** Every method, in one statement: the token lookup, then exactly one
    request, then the record made of the answer. *)
Lemma run_method_once (c : Client) (m : Method) (endpoint : string) (body : JsValue)
    (t : nat) :
  exists token,
    getAuthToken w JSON_parse c t
    = mkOut (Ret token) (match c with Current => S t | Older => t end)
        (match c with Current => [EvGetSession] | Older => [] end)
    /\ usable token
    /\ let t' := match c with Current => S t | Older => t end in
       let req := request_of w JSON_stringify c m endpoint body token in
       run w JSON_parse JSON_stringify c m endpoint body t
       = mkOut (Ret (normalized JSON_parse c m (fetch w t' req))) (S t')
           (match c with Current => [EvGetSession] | Older => [] end ++ [EvFetch req]).
Proof.
  destruct (getAuthToken_run c t) as (token & Htok & Hus).
  exists token. split; [exact Htok |]. split; [exact Hus |]. cbv zeta.
  unfold request_of.
  destruct c, m; cbn [run getAuthToken API_URL method_name] in *.
  - rewrite (current_get_run endpoint t token Htok Hus). reflexivity.
  - apply (send_run _ _ _ _ _ _ Htok Hus Current POST). now left.
  - apply (send_run _ _ _ _ _ _ Htok Hus Current PUT). now right.
  - apply (delete_run _ _ _ _ _ _ Htok Hus Current).
  - apply (get_plain_run _ _ _ _ _ _ Htok Hus).
  - apply (send_run _ _ _ _ _ _ Htok Hus Older POST). now left.
  - apply (send_run _ _ _ _ _ _ Htok Hus Older PUT). now right.
  - apply (delete_run _ _ _ _ _ _ Htok Hus Older).
Qed.

(** C2 (amended). Every method of both versions of the client sends one
    request and returns a record made of the answer alone.  When [fetch]
    throws, or reading the body throws, the record is [success: false],
    [data: null] and the thrown error's message (or the generic
    network-error string).  Otherwise [success] is [response.ok], [data] is
    the body when [success] is true and [null] when not, and [error] is
    [null] when [success] is true and when not: the body's error field for
    [post], [put] and the older [get]; that field or else
    ['Failed to delete resource'] for [delete]; that field, else the body's
    message, else ['HTTP <status>'] for the current [get]; and the message
    of the [TypeError] of reading a field of [null] when the body is
    [null].  The body is [response.json()], except that the current [get]
    reads a response whose content type is not JSON as text, and makes
    [{ error: text || "Request failed" }] of text that is not JSON. *)
Theorem apiClient_normalizes (c : Client) (m : Method) (endpoint : string)
    (body : JsValue) (t : nat) :
  let o := run w JSON_parse JSON_stringify c m endpoint body t in
  exists (req : Request) (r : ApiResult),
    let answer := fetch w (pred (final o)) req in
    events o = match c with
               | Current => [EvGetSession; EvFetch req]
               | Older => [EvFetch req]
               end
    /\ res o = Ret r
    /\ r = normalized JSON_parse c m answer
    /\ match answer with
       | Throw e => failure_record e r
       | Ret response =>
           match body_of JSON_parse c m response with
           | Throw e => failure_record e r
           | Ret b =>
               success r = ok response
               /\ data r = (if ok response then b else JNull)
               /\ error r =
                    (if ok response then JNull
                     else match b with
                          | JNull => JStr (message (TypeError_read "null" "error"))
                          | JUndefined => JStr (message (TypeError_read "undefined" "error"))
                          | _ => error_of c m (resp_status response) b
                          end)
           end
       end.
Proof.
  cbv zeta.
  destruct (run_method_once c m endpoint body t) as (token & _ & _ & Hrun).
  cbv zeta in Hrun. rewrite Hrun. cbn [res final events pred].
  eexists _, _. split; [| split; [reflexivity | split; [reflexivity |]]].
  - destruct c; reflexivity.
  - unfold normalized.
    destruct (fetch w _ _) as [response | e]; [| repeat split].
    destruct (body_of JSON_parse c m response) as [b | e]; [| repeat split].
    destruct (ok response); [repeat split |].
    destruct b; repeat split.
Qed.

(** C4. Every method of the current client looks the token up with one
    call of the auth SDK and then sends exactly one request; the request
    has the header [Authorization: Bearer <token>] exactly when
    [getAuthToken] yields a token, which it does exactly when the SDK
    answers, without an error, with a session whose access token is
    truthy; without a token the request is sent all the same, with the
    content-type header only, and the method returns the record made of
    the answer. *)
Theorem apiClient_attaches_bearer_token (m : Method) (endpoint : string)
    (body : JsValue) (t : nat) :
  let o := run w JSON_parse JSON_stringify Current m endpoint body t in
  exists (token : option string) (req : Request) (r : ApiResult),
    res (ApiClient.getAuthToken w t) = Ret token
    /\ (forall tk, token = Some tk <->
          truthy_string tk = true
          /\ auth_getSession w t
             = Ret (mkSessionResponse (Some (Some (mkSession (Some tk)))) None))
    /\ events o = [EvGetSession; EvFetch req]
    /\ req_url req = ApiClient.API_URL w +:+ endpoint
    /\ req_method req = method_name m
    /\ req_headers req
       = match token with
         | Some tk => [("Content-Type", "application/json");
                       ("Authorization", "Bearer " +:+ tk)]
         | None => [("Content-Type", "application/json")]
         end
    /\ (forall v, In ("Authorization", v) (req_headers req) <->
                  exists tk, token = Some tk /\ v = "Bearer " +:+ tk)
    /\ res o = Ret r
    /\ r = normalized JSON_parse Current m (fetch w (S t) req).
Proof.
  cbv zeta.
  destruct (current_getAuthToken t) as (token & Htok & Hus & Hsession).
  destruct (run_method_once Current m endpoint body t) as (token' & Htok' & _ & Hrun).
  cbn [getAuthToken] in Htok'. rewrite Htok in Htok'. injection Htok' as <-.
  cbv zeta in Hrun. rewrite Hrun, Htok. cbn [res final events app].
  eexists token, (request_of w JSON_stringify Current m endpoint body token), _.
  split; [reflexivity |]. split; [exact Hsession |]. split; [reflexivity |].
  split; [reflexivity |]. split; [reflexivity |].
  split; [destruct token; reflexivity |].
  split; [| split; reflexivity].
  intros v. destruct token as [tk |]; cbn; split.
  - intros [[=] | [[= <-] | []]]. eauto.
  - intros (tk' & [= <-] & ->). auto.
  - intros [[=] | []].
  - intros (tk' & [=] & _).
Qed.

End RestClient.

Section RestExamples.
Import Http Rest.

(** C2 as stated fails on a [delete] answered with status 500 and the
    body [{}]: the body has no error field, and the record's [error] is the
    fallback string. *)
Lemma delete_error_is_not_the_body_field :
  let o := ApiClient.delete Examples.failing_server "/api/posts/7" 0 in
  res o = Ret (mkApiResult false JNull (JStr "Failed to delete resource") None)
  /\ field (JObj []) "error" = JUndefined
  /\ forall r, res o = Ret r -> ~ claimed_record DELETE false 500 (JObj []) r.
Proof.
  cbv zeta. split; [reflexivity |]. split; [reflexivity |].
  intros r [= <-] (_ & _ & Herr). discriminate Herr.
Qed.

Example post_signed_in :
  events (ApiClient.post Examples.signed_in (fun _ => Some "[1]") "/api/posts" (JArr [JNum 1]) 0)
  = [EvGetSession;
     EvFetch (mkRequest "https://peechey.vercel.app/api/posts" "POST"
                [("Content-Type", "application/json");
                 ("Authorization", "Bearer eyJhbGciOi")]
                (Some "[1]"))].
Proof. reflexivity. Qed.

Example get_signed_out :
  events (ApiClient.get Examples.failing_server (fun _ => Throw (mkError "Unexpected token"))
            "/api/posts" 0)
  = [EvGetSession;
     EvFetch (mkRequest "https://peechey.vercel.app/api/posts" "GET"
                [("Content-Type", "application/json")] None)].
Proof. reflexivity. Qed.

End RestExamples.

(** ** Sending a chat message *)

Section Chat.
Import ChatPage Trace.
Context (w : World).

(** C9. [handleSendMessage] always returns and nothing it does leaves the
    page: no HTTP request, no call of the hosted backend, no write to
    browser storage; at most it scrolls the message list.  Either the send
    is ignored (no user, blank input, or a send in progress) and the state
    is untouched, or the only changes of state are that the mock message,
    built from the trimmed input, the user and the clock, is appended to
    [messages] and that [newMessage] is emptied. *)
Theorem handleSendMessage_stays_local (s : State) :
  let o := handleSendMessage w s in
  res o = Ret tt
  /\ Forall (fun e => leaves_the_page e = false) (events o)
  /\ (events o = [] \/ events o = [EvScrollIntoView])
  /\ (((user s = None \/ truthy_string (trim (newMessage s)) = false
        \/ isSendingMessage s = true)
       /\ final o = s /\ events o = [])
      \/ (exists u,
            user s = Some u
            /\ truthy_string (trim (newMessage s)) = true
            /\ isSendingMessage s = false
            /\ final o = {| user := user s;
                            messages := messages s
                                          ++ [mockMessage w u (trim (newMessage s))];
                            newMessage := EmptyString;
                            isSendingMessage := false;
                            error := error s |})).
Proof.
  cbv zeta.
  remember (handleSendMessage w s) as o eqn:Ho.
  unfold handleSendMessage, scrollToBottom, setIsSendingMessage, setNewMessage,
    setMessages, setError in Ho.
  destruct s as [[u |] msgs input sending err];
    cbv beta iota zeta
        delta [bind try_catch try_finally ret emit get modify res final events
               user messages newMessage isSendingMessage error] in Ho;
    cbn [user messages newMessage isSendingMessage error].
  - destruct (truthy_string (trim input)) eqn:Hin, sending;
      cbv beta iota zeta delta [negb orb] in Ho.
    1, 3, 4: subst o; cbn [res final events];
      repeat split; auto; left; repeat split; auto.
    destruct (messagesEndRef_current w);
      cbv beta iota zeta delta [res final events] in Ho;
      subst o; cbn [res final events app];
      (split; [reflexivity |]);
      (split; [repeat constructor |]);
      (split; [auto |]);
      right; exists u; repeat split; reflexivity.
  - subst o. cbn [res final events]. repeat split; auto.
Qed.

Example handleSendMessage_typing :
  messages (final (handleSendMessage Examples.noon Examples.typing))
  = [ {| id := "1700000000000";
         content := "is this still available?";
         sender_id := "u1";
         created_at := "2023-11-14T22:13:20.000Z";
         sender := mkSender "u1" "Ada" "Ada" None |} ]
  /\ newMessage (final (handleSendMessage Examples.noon Examples.typing)) = EmptyString
  /\ events (handleSendMessage Examples.noon Examples.typing) = [EvScrollIntoView].
Proof. repeat split; reflexivity. Qed.

End Chat.

(** ** URL lookups: failures, batches, invalidation *)

Section UrlBatches.
Import ImageService ImageUrls.
Context (w : World).

(** The two ways of a lookup: answered by the cache, or one SDK call
    followed, when its answer is of no use, by the fallback URL. *)
Lemma getPublicUrl_cases (path : string) (s : Service) :
  let o := getPublicUrl w path s in
  (exists url, cache s !! path = Some url /\ truthy_string url = true
               /\ o = mkOut (Ret url) s [])
  \/ (miss (cache s) path
      /\ events o = [EvGetPublicUrl bucket path]
      /\ tick (final o) = S (tick s)
      /\ match sdk_url (storage_getPublicUrl w (tick s) bucket path) with
         | Some url => res o = Ret url /\ cache (final o) = <[path := url]> (cache s)
         | None =>
             match constructCdnUrl w path with
             | Ret url => res o = Ret url /\ cache (final o) = <[path := url]> (cache s)
             | Throw e => res o = Throw e /\ cache (final o) = cache s
             end
         end).
Proof.
  cbv zeta. unfold miss.
  remember (getPublicUrl w path s) as o eqn:Ho.
  unfold getPublicUrl, cache_get, cache_set, call in Ho.
  cbv beta iota zeta
      delta [bind try_catch ret modify lift res final events] in Ho.
  destruct (cache s !! path) as [[| c u] |] eqn:Hc.
  2: { left. subst o. eauto. }
  all: right;
    destruct (storage_getPublicUrl w (tick s) bucket path)
      as [[[[[| c' u']] |]] | e];
    cbv beta iota zeta delta [url_data publicUrl] in Ho;
    try (subst o; cbn; auto; fail);
    destruct (constructCdnUrl w path);
    cbv beta iota zeta delta [res final events] in Ho;
    subst o; cbn; auto.
Qed.

(** A truthy entry of the cache survives every lookup. *)
Lemma getPublicUrl_keeps (p u q : string) (s : Service) :
  cache s !! p = Some u -> truthy_string u = true ->
  cache (final (getPublicUrl w q s)) !! p = Some u.
Proof.
  intros Hp Hu.
  destruct (getPublicUrl_cases q s) as [(url & _ & _ & ->) | (Hmiss & _ & _ & Hrun)];
    [exact Hp |].
  assert (Hne : q <> p).
  { intros ->. destruct Hmiss as [H | H]; rewrite H in Hp; [discriminate |].
    injection Hp as <-. discriminate. }
  destruct (sdk_url _) as [url |]; [| destruct (constructCdnUrl w q)];
    destruct Hrun as (_ & ->); rewrite ?lookup_insert_ne; auto.
Qed.

Lemma constructCdnUrl_throws (path : string) :
  (exists e, constructCdnUrl w path = Throw e) <->
  (supabaseUrl w = None
   \/ exists u, supabaseUrl w = Some u /\ split "//" u !! 1 = None).
Proof.
  unfold constructCdnUrl. split.
  - intros (e & He). destruct (supabaseUrl w) as [u |]; [| now left].
    right. exists u. split; [reflexivity |].
    destruct (split "//" u !! 1); [discriminate | reflexivity].
  - intros [-> | (u & -> & ->)]; eauto.
Qed.

(** X1. [getPublicUrl] throws exactly when nothing can give a URL: the
    cache has no truthy entry for the path, the SDK's answer holds no
    truthy URL, and the configured Supabase URL is unset or has no ["//"];
    what it throws then is the [TypeError] of [constructCdnUrl], and the
    cache is left as it was. *)
Theorem getPublicUrl_fails_exactly_when (path : string) (s : Service) :
  let o := getPublicUrl w path s in
  ((exists e, res o = Throw e) <->
     miss (cache s) path
     /\ sdk_url (storage_getPublicUrl w (tick s) bucket path) = None
     /\ (supabaseUrl w = None
         \/ exists u, supabaseUrl w = Some u /\ split "//" u !! 1 = None))
  /\ (forall e, res o = Throw e ->
        e = TypeError_read "undefined" "split" /\ cache (final o) = cache s).
Proof.
  cbv zeta. rewrite <- (constructCdnUrl_throws path).
  destruct (getPublicUrl_cases path s) as [(url & Hc & Hu & ->) | (Hmiss & _ & _ & Hrun)].
  - cbn. split.
    + split; [intros (e & [=]) |].
      intros ([H | H] & _); rewrite H in Hc; [discriminate |].
      injection Hc as <-. discriminate.
    + intros e [=].
  - destruct (sdk_url _) as [url |].
    + destruct Hrun as (-> & _). split.
      * split; [intros (e & [=]) | intros (_ & [=] & _)].
      * intros e [=].
    + destruct (constructCdnUrl w path) as [url | e0] eqn:Hcdn;
        destruct Hrun as (-> & Hcache).
      * split; [| intros e [=]].
        split; [intros (e & [=]) | intros (_ & _ & (e & [=]))].
      * split.
        -- split; [intros _; eauto | eauto].
        -- intros e [= <-]. split; [| exact Hcache].
           unfold constructCdnUrl in Hcdn.
           destruct (supabaseUrl w) as [u |]; [| now injection Hcdn as <-].
           destruct (split "//" u !! 1); [discriminate | now injection Hcdn as <-].
Qed.

Lemma url_entry_run (path : string) (s : Service) :
  let o := url_entry w path s in
  exists e,
    res o = Ret e
    /\ entry_storage_path e = path
    /\ entry_in (cache (final o)) e
    /\ (forall p u, cache s !! p = Some u -> truthy_string u = true ->
                    cache (final o) !! p = Some u)
    /\ (entry_success e = true -> forall (w' : World) s2,
          cache s2 !! path = cache (final o) !! path ->
          url_entry w' path s2 = mkOut (Ret e) s2 []).
Proof.
  cbv zeta.
  pose proof (getPublicUrl_keeps) as Hkeep.
  pose proof (getPublicUrl_returns w path) as Hret.
  unfold url_entry, try_catch, bind, ret.
  specialize (fun p u => Hkeep p u path s). specialize (fun url => Hret url s).
  destruct (getPublicUrl w path s) as [[url | e] s1 ev] eqn:Hrun;
    cbn [res final events] in *.
  - destruct (Hret url eq_refl) as (Htruthy & Hcache & _).
    eexists. split; [reflexivity |]. split; [reflexivity |].
    assert (Hlook : cache s1 !! path = Some url)
      by (rewrite Hcache; apply lookup_insert_eq).
    split; [| split; [exact Hkeep |]].
    + cbn. eauto.
    + intros _ w' s2 Heq. rewrite Hlook in Heq.
      rewrite (getPublicUrl_hit w' path url s2 Heq Htruthy). reflexivity.
  - eexists. split; [reflexivity |]. split; [reflexivity |].
    split; [| split; [exact Hkeep | discriminate]].
    cbn. eauto.
Qed.

Lemma entry_in_keeps (c c' : gmap string string) (e : UrlEntry) :
  (forall p u, c !! p = Some u -> truthy_string u = true -> c' !! p = Some u) ->
  entry_in c e -> entry_in c' e.
Proof.
  unfold entry_in. intros Hkeep. destruct (entry_success e); [| auto].
  intros (url & ? & ? & ? & ?). exists url. auto.
Qed.

Lemma getPublicUrls_run (paths : list string) :
  forall s : Service,
    let o := getPublicUrls w paths s in
    exists entries,
      res o = Ret entries
      /\ entry_storage_path <$> entries = paths
      /\ Forall (entry_in (cache (final o))) entries
      /\ (forall p u, cache s !! p = Some u -> truthy_string u = true ->
                      cache (final o) !! p = Some u)
      /\ (Forall (fun e => entry_success e = true) entries ->
          forall (w' : World) s2,
            (forall p, p ∈ paths -> cache s2 !! p = cache (final o) !! p) ->
            getPublicUrls w' paths s2 = mkOut (Ret entries) s2 []).
Proof.
  induction paths as [| path paths IH]; intros s; cbv zeta.
  - exists []. cbn. repeat split; auto.
  - destruct (url_entry_run path s) as (e & He & Hpath & Hin & Hkeep & Hagain).
    cbv zeta in *.
    cbn [getPublicUrls]. unfold bind at 1 3 5 7.
    destruct (url_entry w path s) as [r1 s1 ev1] eqn:Hrun1. cbn [res final events] in *.
    subst r1.
    destruct (IH s1) as (entries & Hres & Hpaths & Hall & Hkeep' & Hagain'). cbv zeta in *.
    unfold bind.
    destruct (getPublicUrls w paths s1) as [r2 s2 ev2] eqn:Hrun2.
    cbn [res final events] in *. subst r2. cbn [res final events].
    exists (e :: entries). split; [reflexivity |].
    split; [cbn; now rewrite Hpath, Hpaths |].
    split; [constructor; [eapply entry_in_keeps; eauto | exact Hall] |].
    split; [auto |].
    intros Hsucc w' s3 Heq. apply Forall_cons in Hsucc as (Hs1 & Hs2).
    assert (Hpath_kept : cache s2 !! path = cache s1 !! path).
    { unfold entry_in in Hin. rewrite Hs1 in Hin.
      destruct Hin as (url & _ & _ & Htruthy & Hlook). rewrite Hpath in Hlook.
      rewrite Hlook. now apply Hkeep'. }
    cbn [getPublicUrls]. unfold bind.
    rewrite (Hagain Hs1 w' s3) by (rewrite Heq by (left); exact Hpath_kept).
    cbn [res final events].
    rewrite (Hagain' Hs2 w' s3) by (intros p Hp; apply Heq; now right).
    reflexivity.
Qed.

(** X2. [getPublicUrls] never throws and returns one entry per path, in
    the order of the paths; an entry with [success: true] holds a truthy
    URL that is the cache entry of its path afterwards, an entry with
    [success: false] holds no URL and an error message; and when every
    entry succeeded, the same call with the cache left behind returns the
    same entries without any SDK call. *)
Theorem getPublicUrls_entries (paths : list string) (s : Service) :
  let o := getPublicUrls w paths s in
  exists entries,
    res o = Ret entries
    /\ entry_storage_path <$> entries = paths
    /\ Forall (entry_in (cache (final o))) entries
    /\ (Forall (fun e => entry_success e = true) entries ->
        forall (w' : World) s2,
          cache s2 = cache (final o) ->
          getPublicUrls w' paths s2 = mkOut (Ret entries) s2 []).
Proof.
  cbv zeta.
  destruct (getPublicUrls_run paths s) as (entries & Hres & Hpaths & Hall & _ & Hagain).
  exists entries. repeat split; auto.
  intros Hsucc w' s2 Heq. apply Hagain; [exact Hsucc |].
  intros p _. now rewrite Heq.
Qed.

End UrlBatches.

(** Two paths looked up twice: the second batch is answered by the cache. *)
Lemma getPublicUrls_entries_witness :
  let o := ImageUrls.getPublicUrls Examples.flaky ["42/a.png"; "42/b.png"]
             ImageService.new_service in
  ImageUrls.getPublicUrls Examples.rejecting ["42/a.png"; "42/b.png"] (final o)
  = mkOut (Ret [ImageUrls.mkUrlEntry "42/a.png"
                  (Some "https://cdn.example/post-images/42/a.png") true None;
                ImageUrls.mkUrlEntry "42/b.png"
                  (Some "https://cdn.example/post-images/42/b.png") true None])
      (final o) [].
Proof.
  cbv zeta.
  destruct (getPublicUrls_entries Examples.flaky ["42/a.png"; "42/b.png"]
              ImageService.new_service) as (entries & Hres & _ & _ & Hagain).
  cbv zeta in Hagain.
  assert (Hentries : entries
            = [ImageUrls.mkUrlEntry "42/a.png"
                 (Some "https://cdn.example/post-images/42/a.png") true None;
               ImageUrls.mkUrlEntry "42/b.png"
                 (Some "https://cdn.example/post-images/42/b.png") true None]).
  { vm_compute in Hres. now injection Hres as <-. }
  subst entries. apply Hagain; [| reflexivity].
  repeat constructor.
Defined.

Section Invalidation.
Import ImageService ImageUrls.
Context (w : World).

Lemma getPublicUrl_miss_events (path : string) (s : Service) :
  cache s !! path = None ->
  events (getPublicUrl w path s) = [EvGetPublicUrl bucket path].
Proof.
  intros Hnone.
  destruct (getPublicUrl_cases w path s) as [(url & Hc & _) | (_ & Hev & _)];
    [congruence | exact Hev].
Qed.

(** X3. Emptying the cache, or deleting an image, makes the next lookup of
    the path go to the SDK again: after [clearCache] the cache holds no
    entry, and [getPublicUrl] makes one SDK call; after a [deleteImage] that
    the backend accepted, [getPublicUrl] for the deleted path makes one SDK
    call too (and caches what it gets). *)
Theorem lookups_after_invalidation (path : string) (s : Service) :
  (forall p, cache (final (clearCache s)) !! p = None)
  /\ events ((let* _ := clearCache in getPublicUrl w path) s)
     = [EvGetPublicUrl bucket path]
  /\ (storage_remove w (tick s) bucket [path] = Ret (mkRemoveResponse None) ->
      events ((let* _ := deleteImage w path in getPublicUrl w path) s)
      = [EvRemove bucket [path]; EvGetPublicUrl bucket path]).
Proof.
  split; [intros p; apply lookup_empty |]. split.
  - unfold bind, clearCache, modify. cbn [res final events app].
    apply getPublicUrl_miss_events. apply lookup_empty.
  - intros Hok.
    assert (Hdel : deleteImage w path s
                   = mkOut (Ret (mkDeleteResult true (Some "Image deleted successfully") None))
                       (mkService (delete path (cache s)) (S (tick s)))
                       [EvRemove bucket [path]]).
    { unfold deleteImage, try_catch, bind, call, cache_delete, modify, throw, ret.
      cbn [res final events]. rewrite Hok. reflexivity. }
    unfold bind. rewrite Hdel. cbn [res final events].
    rewrite getPublicUrl_miss_events; [reflexivity |].
    apply lookup_delete_eq.
Qed.

End Invalidation.

Lemma lookups_after_invalidation_witness :
  events ((let* _ := ImageService.deleteImage Examples.flaky "42/a.png"
           in ImageService.getPublicUrl Examples.flaky "42/a.png")
            (ImageService.mkService {["42/a.png" := "https://cdn.example/a.png"]} 0))
  = [EvRemove ImageService.bucket ["42/a.png"];
     EvGetPublicUrl ImageService.bucket "42/a.png"].
Proof.
  apply (proj2 (proj2 (lookups_after_invalidation Examples.flaky "42/a.png"
           (ImageService.mkService {["42/a.png" := "https://cdn.example/a.png"]} 0)))).
  reflexivity.
Defined.

(** ** The image of a product card *)

Section ProductImage.
Import ImageService ProductCard.
Context (w : World).

Lemma present_truthy (field : option string) (url : string) :
  present field = Some url -> field = Some url /\ truthy_string url = true.
Proof. destruct field as [[| c u] |]; cbn; intros [= <-]; auto. Qed.

(** X4. [getImageUrl] never throws.  A product with a truthy [image_url]
    gets that URL, and the first image's [publicUrl], then its [image_url],
    come before its [storage_path]: in all these cases the image service is
    not called and its cache is untouched.  Whatever it returns is [null]
    or a truthy URL; the only calls it can make are those of one
    [getPublicUrl], for the first image's storage path. *)
Theorem getImageUrl_precedence (product : Product) (s : Service) :
  let o := getImageUrl w product s in
  exists r : option string,
    res o = Ret r
    /\ match r with Some url => truthy_string url = true | None => True end
    /\ (forall url, present (image_url product) = Some url ->
          o = mkOut (Ret (Some url)) s [])
    /\ (forall first rest url,
          present (image_url product) = None ->
          images product = Some (first :: rest) ->
          present (img_publicUrl first) = Some url
          \/ (present (img_publicUrl first) = None
              /\ present (img_image_url first) = Some url) ->
          o = mkOut (Ret (Some url)) s [])
    /\ (events o = []
        \/ exists first rest path,
             images product = Some (first :: rest)
             /\ img_storage_path first = Some path
             /\ events o = events (getPublicUrl w path s)).
Proof.
  cbv zeta. unfold getImageUrl, try_catch.
  destruct (present (image_url product)) as [url |] eqn:Hdirect.
  { apply present_truthy in Hdirect as (_ & Ht). cbn.
    eexists. split; [reflexivity |]. split; [exact Ht |].
    split; [now intros ? [= <-] |]. split; [discriminate | now left]. }
  destruct (images product) as [[| first rest] |] eqn:Himgs;
    try (cbn; exists None; repeat split; auto; try discriminate; fail).
  destruct (present (img_publicUrl first)) as [url |] eqn:Hpub.
  { apply present_truthy in Hpub as (Hp & Ht). cbn.
    eexists. split; [reflexivity |]. split; [exact Ht |].
    split; [discriminate |]. split; [| now left].
    intros f r u _ [= <- <-] [H | [H _]];
      rewrite Hp in H; cbn in H; [| destruct url; discriminate].
    destruct url; [discriminate | now injection H as <-]. }
  destruct (present (img_image_url first)) as [url |] eqn:Himg.
  { apply present_truthy in Himg as (Hp & Ht). cbn.
    eexists. split; [reflexivity |]. split; [exact Ht |].
    split; [discriminate |]. split; [| now left].
    intros f r u _ [= <- <-] [H | [_ H]].
    - rewrite Hpub in H. discriminate.
    - rewrite Hp in H. destruct url; [discriminate | now injection H as <-]. }
  destruct (present (img_storage_path first)) as [path |] eqn:Hpath.
  2: { cbn. exists None. repeat split; auto; try discriminate.
       intros f r u _ [= <- <-] [H | [_ H]]; congruence. }
  apply present_truthy in Hpath as (Hp & _).
  pose proof (getPublicUrl_returns w path) as Hret. specialize (fun url => Hret url s).
  unfold bind, ret.
  assert (Hev : exists first0 rest0 path0,
             Some (first :: rest) = Some (first0 :: rest0)
             /\ img_storage_path first0 = Some path0
             /\ events (getPublicUrl w path s) = events (getPublicUrl w path0 s))
    by (exists first, rest, path; auto).
  destruct (getPublicUrl w path s) as [[url | e] s1 ev] eqn:Hrun;
    cbn [res final events] in *.
  - destruct (Hret url eq_refl) as (Ht & _).
    eexists. split; [reflexivity |]. split; [exact Ht |].
    split; [discriminate |]. rewrite app_nil_r. split; [| now right].
    intros f r u _ [= <- <-] [H | [_ H]]; congruence.
  - exists None. split; [reflexivity |]. split; [exact I |].
    split; [discriminate |]. rewrite app_nil_r. split; [| now right].
    intros f r u _ [= <- <-] [H | [_ H]]; congruence.
Qed.

End ProductImage.

Lemma getImageUrl_precedence_witness :
  ProductCard.getImageUrl Examples.rejecting
    (ProductCard.mkProduct (Some "https://cdn.example/a.png") None)
    ImageService.new_service
  = mkOut (Ret (Some "https://cdn.example/a.png")) ImageService.new_service [].
Proof.
  destruct (getImageUrl_precedence Examples.rejecting
              (ProductCard.mkProduct (Some "https://cdn.example/a.png") None)
              ImageService.new_service) as (r & _ & _ & Hdirect & _).
  apply Hdirect. reflexivity.
Defined.

(** ** Supabase errors and signing in *)

Section SupabaseErrors.
Import SupabaseAuth.

Lemma or_else_truthy (x : option string) (fallback : string) :
  truthy_string fallback = true -> truthy_string (or_else x fallback) = true.
Proof. destruct x as [[| c s] |]; auto. Qed.

Lemma or_else_cases (x : option string) (fallback : string) :
  or_else x fallback = fallback \/ x = Some (or_else x fallback).
Proof. destruct x as [[| c s] |]; auto. Qed.

(** X5. [handleSupabaseError] always gives a non-empty error text and a
    non-empty code.  The text is one of its four own texts or the message of
    the error itself, the code one of its four own codes or the code of the
    error itself; and an error whose message holds 'Auth session missing'
    is reported as a missing session whatever its code. *)
Theorem handleSupabaseError_texts (error : SupabaseError) :
  let f := handleSupabaseError error in
  truthy_string (failure_error f) = true
  /\ truthy_string (failure_code f) = true
  /\ (In (failure_error f)
        ["No active authentication session. Please sign in.";
         "Authentication required. Please sign in.";
         "Permission denied. You may not have access to this resource.";
         "An unexpected error occurred."]
      \/ err_message error = Some (failure_error f))
  /\ (In (failure_code f)
        ["AUTH_SESSION_MISSING"; "AUTH_REQUIRED"; "PERMISSION_DENIED"; "UNKNOWN_ERROR"]
      \/ err_code error = Some (failure_code f))
  /\ (opt_includes (err_message error) "Auth session missing" = true ->
      f = mkFailure "No active authentication session. Please sign in."
            "AUTH_SESSION_MISSING").
Proof.
  cbv zeta. unfold handleSupabaseError.
  destruct (opt_includes (err_message error) "Auth session missing") eqn:Hmsg;
    cbn [orb].
  { cbn. repeat split; auto. }
  destruct (is_string (err_code error) "400") eqn:H400.
  { cbn. repeat split; auto; discriminate. }
  destruct (is_string (err_code error) "PGRST116") eqn:H116.
  { cbn. repeat split; auto 6; discriminate. }
  destruct (is_string (err_code error) "PGRST301") eqn:H301.
  { cbn. repeat split; auto 6; discriminate. }
  cbn [failure_error failure_code].
  split; [now apply or_else_truthy |]. split; [now apply or_else_truthy |].
  split; [| split; [| discriminate]].
  - destruct (or_else_cases (err_message error) "An unexpected error occurred.")
      as [-> | H]; [| now right].
    left. cbn. auto 6.
  - destruct (or_else_cases (err_code error) "UNKNOWN_ERROR") as [-> | H]; [| now right].
    left. cbn. auto 6.
Qed.

End SupabaseErrors.

Lemma handleSupabaseError_texts_witness :
  SupabaseAuth.handleSupabaseError
    (SupabaseAuth.mkSupabaseError (Some "AuthApiError: Auth session missing!")
       (Some "PGRST301"))
  = SupabaseAuth.mkFailure "No active authentication session. Please sign in."
      "AUTH_SESSION_MISSING".
Proof.
  apply (proj2 (proj2 (proj2 (proj2 (handleSupabaseError_texts
           (SupabaseAuth.mkSupabaseError (Some "AuthApiError: Auth session missing!")
              (Some "PGRST301"))))))).
  reflexivity.
Defined.

Section Login.
Import SupabaseAuth AuthContext.

(** Reading [code] off a string gives [undefined], which is no string. *)
Lemma code_of_text (text code : string) :
  strict_eq_string (get_prop_opt (JStr text) "code") code = false.
Proof. reflexivity. Qed.

(** X6. [login] always returns with [loading] false.  It succeeds exactly
    when the SDK call resolves without an error, and then [user] is
    [data.user] (or null) and [error] is null.  In every other case
    [user] is as before and [error] is the text made by
    [handleSupabaseError], also for an error whose code is
    'SUPABASE_NOT_CONFIGURED': the test that would keep that one out of the
    state reads [code] off the text and never holds. *)
Theorem login_sets_error (outcome : SdkOutcome SignInData) (s : State) :
  let o := login outcome s in
  loading (final o) = false
  /\ events o = []
  /\ match outcome with
     | Resolved data None =>
         res o = Ret (LoginOk data)
         /\ user (final o) = (match data with Some d => data_user d | None => None end)
         /\ error (final o) = None
     | Resolved _ (Some e) | Rejected e =>
         res o = Ret (LoginFailed (failure_error (handleSupabaseError e)))
         /\ user (final o) = user s
         /\ error (final o) = Some (failure_error (handleSupabaseError e))
     end.
Proof.
  cbv zeta.
  remember (login outcome s) as o eqn:Ho.
  unfold login, setLoading, setError, setUser in Ho.
  destruct outcome as [data [e |] | e]; cbn [signIn] in Ho;
    rewrite ?code_of_text in Ho;
    cbv beta iota zeta
        delta [bind try_catch try_finally ret modify res final events
               user loading error] in Ho;
    subst o; cbn; auto.
Qed.

Example login_not_configured :
  error (final (login (Rejected (mkSupabaseError
                                   (Some "Supabase not configured.")
                                   (Some "SUPABASE_NOT_CONFIGURED")))
                  (mkState None false None)))
  = Some "Supabase not configured.".
Proof. reflexivity. Qed.

End Login.

(** ** Classifying upload errors *)

Section UploadErrors.
Import SupabaseAuth ImageErrors.

Lemma is_string_eq (x : option string) (s : string) :
  is_string x s = true <-> x = Some s.
Proof.
  destruct x as [x' |]; cbn; [| split; discriminate].
  rewrite String.eqb_eq. split; [now intros -> | now intros [= ->]].
Qed.

Ltac split_ifs :=
  repeat match goal with
         | |- context [if ?b then _ else _] =>
             let H := fresh "Hb" in destruct b eqn:H
         end.

(** X7. [analyzeUploadError] throws exactly on an error named 'TypeError'
    that has no message.  When [getUserFriendlyErrorMessage] returns, its
    text is one of the six texts of its table, never the message of the
    error.  A classified error has severity LOW exactly when it is a
    validation error, and it is a validation error only when its message
    is one at which [retryUpload] stops retrying. *)
Theorem analyzeUploadError_classes (error : option UploadError) :
  ((exists e, analyzeUploadError error = Throw e) <->
     exists err, error = Some err
                 /\ ue_name err = Some "TypeError" /\ ue_message err = None)
  /\ (forall text, getUserFriendlyErrorMessage error = Ret text -> In text friendly_texts)
  /\ (forall a, analyzeUploadError error = Ret a ->
        (iue_severity a = LOW <-> iue_type a = VALIDATION_ERROR)
        /\ (iue_type a = VALIDATION_ERROR ->
            exists err m,
              error = Some err /\ ue_message err = Some m
              /\ UploadRetry.is_validation_error (UploadRetry.CbString m) = Ret true)).
Proof.
  split; [| split].
  - unfold analyzeUploadError. destruct error as [err |].
    2: { split; [intros (e & [=]) | intros (err & [=] & _)]. }
    destruct (is_string (ue_name err) "TypeError") eqn:Hname.
    + apply is_string_eq in Hname. destruct (ue_message err) as [m |] eqn:Hm.
      * split; [| intros (err' & [= <-] & _ & H); congruence].
        split_ifs; intros (e & [=]).
      * split; eauto.
    + split.
      * split_ifs; intros (e & [=]).
      * intros (err' & [= <-] & H & _). apply is_string_eq in H. congruence.
  - intros text. unfold getUserFriendlyErrorMessage.
    destruct (analyzeUploadError error) as [a | e]; [| discriminate].
    destruct (iue_type a); intros [= <-]; cbn; auto 10.
  - intros a. unfold analyzeUploadError. destruct error as [err |].
    2: { intros [= <-]. cbn. split; [split; discriminate | discriminate]. }
    destruct (is_string (ue_name err) "TypeError");
      [destruct (ue_message err) as [m |] eqn:Hm; [| discriminate] |];
      cbn [opt_includes];
      split_ifs; intros [= <-]; cbn;
      (split; [split; (discriminate || reflexivity) |]);
      try discriminate; intros _.
    all: try (exists err, m; split; [reflexivity |]; split; [exact Hm |];
              cbn; f_equal; assumption).
    all: destruct (ue_message err) as [m' |] eqn:Hm'; cbn in *; try discriminate;
      exists err, m'; split; [reflexivity |]; split; [exact Hm' |];
      cbn; f_equal; assumption.
Qed.

End UploadErrors.

Lemma analyzeUploadError_classes_witness :
  In "Invalid file. Please check the file format and size requirements."
    ImageErrors.friendly_texts.
Proof.
  apply (proj1 (proj2 (analyzeUploadError_classes
           (Some (ImageErrors.mkUploadError None
                    (Some "Invalid file type: text/plain") None))))).
  reflexivity.
Defined.

(** ** More on [retryUpload] *)

Section RetryRuns.
Import UploadRetry Trace RetryTrace.
Context {St : Type} (uploadFunction : M St CallbackResult).

(** One iteration, by what the callback does. *)
Lemma retry_iteration_run (maxRetries : nat) (delay : Z) (attempt : nat) (s : St) :
  let oc := uploadFunction s in
  let b := backoffDelay delay attempt in
  let start := EvConsole (LogAttemptingUpload attempt maxRetries) in
  let caught e := [EvConsole (LogUploadAttemptFailed attempt e);
                   EvConsole (LogRetrying b); EvDelay b] in
  retry_iteration uploadFunction maxRetries delay attempt s
  = match res oc with
    | Ret r =>
        if cb_success r
        then mkOut (Ret (StepReturn r)) (final oc)
               (start :: events oc ++ [EvConsole (LogUploadSuccessful attempt)])
        else
          match is_validation_error (cb_error r) with
          | Ret true => mkOut (Ret (StepBreak (cb_error r))) (final oc) (start :: events oc)
          | Ret false =>
              mkOut (Ret (StepNext (cb_error r))) (final oc)
                (start :: events oc ++ [EvConsole (LogUploadFailedRetrying b); EvDelay b])
          | Throw e =>
              mkOut (Ret (StepNext (CbObject e))) (final oc)
                (start :: events oc ++ caught e)
          end
    | Throw e =>
        mkOut (Ret (StepNext (CbObject e))) (final oc) (start :: events oc ++ caught e)
    end.
Proof.
  cbv zeta. unfold retry_iteration. run_monad.
  destruct (uploadFunction s) as [[r | e] s1 ev]; run_monad.
  - destruct (cb_success r); run_monad.
    + cbn. rewrite ?app_nil_r, <- ?app_assoc. reflexivity.
    + destruct (is_validation_error (cb_error r)) as [[|] | e]; run_monad; cbn;
        rewrite ?app_nil_r, <- ?app_assoc; reflexivity.
  - cbn. rewrite ?app_nil_r, <- ?app_assoc. reflexivity.
Qed.

Lemma quiet_views (tr : list Event) :
  Forall quiet_event tr -> attempts tr = [] /\ delays tr = [].
Proof.
  unfold attempts, delays. induction 1 as [| e tr He _ [IH1 IH2]]; [auto |].
  destruct e as [[] | | | | | | | | |]; try contradiction; csimpl; auto.
Qed.

Lemma lastError_or_default_truthy (e : CallbackError) :
  lastError_or_default e <> CbAbsent /\ lastError_or_default e <> CbString EmptyString.
Proof. destruct e as [| [| c s] |]; cbn; split; discriminate. Qed.

Hypothesis Hquiet : quiet uploadFunction.

Lemma retry_iteration_views (maxRetries : nat) (delay : Z) (attempt : nat) (s : St) :
  let o := retry_iteration uploadFunction maxRetries delay attempt s in
  attempts (events o) = [attempt]
  /\ match res o with
     | Ret (StepReturn r) =>
         delays (events o) = [] /\ cb_success r = true
         /\ res (uploadFunction s) = Ret r
     | Ret (StepBreak e) =>
         delays (events o) = []
         /\ exists r, res (uploadFunction s) = Ret r /\ cb_success r = false
                      /\ is_validation_error (cb_error r) = Ret true
     | Ret (StepNext _) => delays (events o) = [exponential_wait delay attempt]
     | Throw _ => False
     end.
Proof.
  cbv zeta. rewrite retry_iteration_run. cbv zeta.
  destruct (quiet_views _ (Hquiet s)) as (Ha & Hd).
  unfold attempts, delays in *.
  destruct (res (uploadFunction s)) as [r | e] eqn:Hres.
  - destruct (cb_success r) eqn:Hs.
    + cbn [res events]. csimpl. rewrite !omap_app, Ha, Hd. cbn. eauto.
    + destruct (is_validation_error (cb_error r)) as [[|] | e] eqn:Hv;
        cbn [res events]; csimpl; rewrite ?omap_app, Ha, Hd; cbn; eauto 10.
  - cbn [res events]. csimpl. rewrite !omap_app, Ha, Hd. cbn. eauto.
Qed.

Lemma retryUpload_loop_views (maxRetries : nat) (delay : Z) :
  forall (remaining attempt : nat) (lastError : CallbackError) (s : St),
    let o := retryUpload_loop uploadFunction maxRetries delay remaining attempt lastError s in
    exists k, (k <= remaining)%nat
      /\ attempts (events o) = seq attempt k
      /\ match res o with
         | Ret (RetryReturned r) => cb_success r = true /\ (1 <= k)%nat
         | Ret (RetryFailed e) => e <> CbAbsent /\ e <> CbString EmptyString
         | Throw _ => False
         end
      /\ (keeps_failing uploadFunction ->
          k = remaining
          /\ delays (events o) = exponential_wait delay <$> seq attempt remaining
          /\ exists e, res o = Ret (RetryFailed e)).
Proof.
  induction remaining as [| remaining IH]; intros attempt lastError s; cbv zeta.
  - exists 0%nat. cbn. split; [lia |]. split; [reflexivity |].
    split; [apply lastError_or_default_truthy |]. eauto.
  - remember (retryUpload_loop uploadFunction maxRetries delay (S remaining) attempt
                lastError s) as o eqn:Ho.
    cbn [retryUpload_loop] in Ho.
    pose proof (retry_iteration_views maxRetries delay attempt s) as (Hatt & Hit).
    bind_step Ho r s1 ev Hm. cbn [res final events] in Hatt, Hit.
    unfold attempts, delays in *.
    destruct r as [[result | le | le] | e]; [| | | contradiction].
    + subst o. cbn. rewrite ?app_nil_r.
      destruct Hit as (Hd & Hs & Hres).
      exists 1%nat. split; [lia |]. split; [exact Hatt |]. split; [split; [exact Hs | lia] |].
      intros Hfail. specialize (Hfail s). rewrite Hres in Hfail.
      destruct Hfail as (Hf & _). congruence.
    + subst o. unfold after_loop, bind, emit, ret. cbn.
      destruct Hit as (Hd & r & Hres & Hs & Hv).
      exists 1%nat. split; [lia |]. rewrite omap_app, Hatt. split; [reflexivity |].
      split; [apply lastError_or_default_truthy |].
      intros Hfail. specialize (Hfail s). rewrite Hres in Hfail.
      destruct Hfail as (_ & Hnv). congruence.
    + destruct (IH (S attempt) le s1) as (k & Hk & Hatt' & Hres' & Hall).
      subst o. cbn [res final events].
      exists (S k). split; [lia |]. rewrite !omap_app, Hatt, Hatt', Hit.
      split; [reflexivity |]. split.
      * destruct (res (retryUpload_loop _ _ _ _ _ _ _)) as [[? | ?] | ?];
          [split; [tauto | lia] | exact Hres' | exact Hres'].
      * intros Hfail. destruct (Hall Hfail) as (-> & -> & Hfailed).
        split; [reflexivity |]. split; [reflexivity | exact Hfailed].
Qed.

End RetryRuns.

Section RetryTheorems.
Import UploadRetry Trace RetryTrace.

Lemma exponential_wait_succ (delay : Z) (a : nat) :
  (1 <= a)%nat -> exponential_wait delay (S a) = (2 * exponential_wait delay a)%Z.
Proof.
  intros Ha. unfold exponential_wait.
  replace (Z.of_nat (S a) - 1)%Z with (Z.succ (Z.of_nat a - 1)) by lia.
  rewrite Z.pow_succ_r by lia. lia.
Qed.

Lemma total_exponential (delay : Z) (n : nat) :
  forall a, (1 <= a)%nat ->
    foldr Z.add 0%Z (exponential_wait delay <$> seq a n)
    = (exponential_wait delay a * (2 ^ Z.of_nat n - 1))%Z.
Proof.
  induction n as [| n IH]; intros a Ha.
  - cbn. lia.
  - cbn [seq fmap list_fmap foldr]. rewrite IH by lia.
    rewrite exponential_wait_succ by exact Ha.
    rewrite Nat2Z.inj_succ, Z.pow_succ_r by lia. lia.
Qed.

(** X8. [retryUpload] never throws, whatever the (quiet) callback does,
    and calls it for the attempts 1, 2, ..., k with k at most [maxRetries].
    It returns the callback's own result only when that result says
    [success]; every failure it returns carries a truthy error (the last
    error, or the default text). *)
Theorem retryUpload_returns {St : Type} (uploadFunction : M St CallbackResult)
    (maxRetries : nat) (delay : Z) (s : St) :
  quiet uploadFunction ->
  let o := retryUpload uploadFunction maxRetries delay s in
  exists k, (k <= maxRetries)%nat
    /\ attempts (events o) = seq 1 k
    /\ match res o with
       | Ret (RetryReturned r) => cb_success r = true /\ (1 <= k)%nat
       | Ret (RetryFailed e) => e <> CbAbsent /\ e <> CbString EmptyString
       | Throw _ => False
       end.
Proof.
  intros Hquiet. cbv zeta. unfold retryUpload.
  destruct (retryUpload_loop_views uploadFunction Hquiet maxRetries delay maxRetries 1
              CbAbsent s) as (k & Hk & Hatt & Hres & _).
  eauto.
Qed.

(** X9. With a (quiet) callback that never succeeds and never reports a
    validation error, [retryUpload] makes all [maxRetries] attempts and
    waits after each of them, also after the last one:
    [delay * 2^(attempt-1)] after attempt 1, ..., [maxRetries], which is
    [delay * (2^maxRetries - 1)] in all, before it returns the failure. *)
Theorem retryUpload_exhausts {St : Type} (uploadFunction : M St CallbackResult)
    (maxRetries : nat) (delay : Z) (s : St) :
  quiet uploadFunction ->
  keeps_failing uploadFunction ->
  let o := retryUpload uploadFunction maxRetries delay s in
  (exists e, res o = Ret (RetryFailed e))
  /\ attempts (events o) = seq 1 maxRetries
  /\ delays (events o) = exponential_wait delay <$> seq 1 maxRetries
  /\ total_wait (events o) = (delay * (2 ^ Z.of_nat maxRetries - 1))%Z.
Proof.
  intros Hquiet Hfail. cbv zeta. unfold retryUpload, total_wait.
  destruct (retryUpload_loop_views uploadFunction Hquiet maxRetries delay maxRetries 1
              CbAbsent s) as (k & Hk & Hatt & _ & Hall).
  destruct (Hall Hfail) as (-> & Hdel & Hres).
  split; [exact Hres |]. split; [exact Hatt |]. split; [exact Hdel |].
  rewrite Hdel, total_exponential by lia.
  unfold exponential_wait. cbn. lia.
Qed.

(** X10. When the first attempt of [retryUpload] resolves to a failure
    whose error text holds 'Invalid file' or 'validation', there is no
    second attempt and no wait: the callback is called once and that error
    is returned. *)
Theorem retryUpload_stops_at_validation {St : Type} (uploadFunction : M St CallbackResult)
    (maxRetries : nat) (delay : Z) (s : St) (r : CallbackResult) :
  res (uploadFunction s) = Ret r ->
  cb_success r = false ->
  is_validation_error (cb_error r) = Ret true ->
  retryUpload uploadFunction (S maxRetries) delay s
  = mkOut (Ret (RetryFailed (cb_error r))) (final (uploadFunction s))
      (EvConsole (LogAttemptingUpload 1 (S maxRetries))
         :: events (uploadFunction s) ++ [EvConsole (LogUploadGaveUp (S maxRetries))]).
Proof.
  intros Hres Hs Hv. unfold retryUpload. cbn [retryUpload_loop].
  unfold bind at 1. rewrite retry_iteration_run. cbv zeta.
  rewrite Hres, Hs, Hv. cbn [res final events].
  unfold after_loop, bind, emit, ret. cbn [res final events].
  assert (Herr : lastError_or_default (cb_error r) = cb_error r).
  { destruct (cb_error r) as [| [| c m] |]; cbn in Hv; try discriminate; reflexivity. }
  rewrite Herr. cbn. rewrite <- ?app_assoc. reflexivity.
Qed.

End RetryTheorems.

Lemma retryUpload_returns_witness :
  exists k, (k <= 3)%nat
    /\ RetryTrace.attempts
         (events (UploadRetry.retryUpload Examples.timing_out 3 1000 tt)) = seq 1 k
    /\ match res (UploadRetry.retryUpload Examples.timing_out 3 1000 tt) with
       | Ret (UploadRetry.RetryReturned r) =>
           UploadRetry.cb_success r = true /\ (1 <= k)%nat
       | Ret (UploadRetry.RetryFailed e) =>
           e <> UploadRetry.CbAbsent /\ e <> UploadRetry.CbString EmptyString
       | Throw _ => False
       end.
Proof.
  apply (retryUpload_returns Examples.timing_out 3 1000 tt).
  intros s. constructor.
Defined.

Lemma retryUpload_exhausts_witness :
  Trace.delays (events (UploadRetry.retryUpload Examples.timing_out 3 1000 tt))
  = Trace.exponential_wait 1000 <$> seq 1 3
  /\ RetryTrace.total_wait (events (UploadRetry.retryUpload Examples.timing_out 3 1000 tt))
     = (1000 * (2 ^ Z.of_nat 3 - 1))%Z.
Proof.
  assert (Hq : RetryTrace.quiet Examples.timing_out) by (intros s; constructor).
  assert (Hf : RetryTrace.keeps_failing Examples.timing_out).
  { intros s. cbn. split; [reflexivity | discriminate]. }
  destruct (retryUpload_exhausts Examples.timing_out 3 1000 tt Hq Hf)
    as (_ & _ & Hd & Ht).
  split; [exact Hd | exact Ht].
Defined.

Lemma retryUpload_stops_at_validation_witness :
  UploadRetry.retryUpload MoreExamples.refusing_file 3 1000 tt
  = mkOut (Ret (UploadRetry.RetryFailed (UploadRetry.CbString "Invalid file type"))) tt
      [EvConsole (LogAttemptingUpload 1 3); EvConsole (LogUploadGaveUp 3)].
Proof.
  apply (retryUpload_stops_at_validation MoreExamples.refusing_file 2 1000 tt
           (UploadRetry.mkCallbackResult false (UploadRetry.CbString "Invalid file type")));
    reflexivity.
Defined.

(** ** More on uploads *)

Section StoredTwice.
Import ImageService ImageUrls UploadTrace Trace Attempts.
Context (w : World).
(** The backend accepts every upload, gives no public URL, and the
    configured Supabase URL is unset or has no ["//"]. *)
Hypothesis accepts : forall t b p f, exists d,
  storage_upload w t b p f = Ret (mkUploadResponse d None).
Hypothesis no_url : forall t b p, sdk_url (storage_getPublicUrl w t b p) = None.
Hypothesis not_configured :
  supabaseUrl w = None \/ exists u, supabaseUrl w = Some u /\ split "//" u !! 1 = None.

Lemma uploadAttempt_stored_but_failed (f : File.t) (entityId : string) (options : Options)
    (attempt maxRetries : nat) (s : Service) :
  (forall p, miss (cache s) p) ->
  let o := uploadAttempt w f entityId options attempt maxRetries s in
  res o = Throw (TypeError_read "undefined" "split")
  /\ cache (final o) = cache s
  /\ length (uploads (events o)) = 1%nat.
Proof.
  intros Hmiss. cbv zeta. rewrite uploadAttempt_run. cbv zeta.
  destruct (compressImage_silent w f options s) as (Hsil & _ & Hcache).
  set (oc := compressImage w f options s) in *.
  set (path := generated_name _ _ _ _).
  set (f' := match res oc with Ret x => x | Throw _ => f end).
  destruct (accepts (S (S (tick (final oc)))) bucket path f') as (d & ->).
  cbn [up_error].
  set (s3 := mkService (cache (final oc)) _).
  pose proof (getPublicUrl_silent w path s3) as Hsil3.
  destruct (getPublicUrl_cases w path s3) as [(url & Hc & Hu & _) | (_ & _ & _ & Hrun)];
    set (og := getPublicUrl w path s3) in *.
  { exfalso. cbn in Hc. rewrite Hcache in Hc.
    destruct (Hmiss path) as [H | H]; rewrite H in Hc; [discriminate |].
    injection Hc as <-. discriminate. }
  rewrite no_url in Hrun.
  assert (Hcdn : constructCdnUrl w path = Throw (TypeError_read "undefined" "split")).
  { unfold constructCdnUrl. now destruct not_configured as [-> | (u & -> & ->)]. }
  rewrite Hcdn in Hrun.
  destruct Hrun as (Hres & Hcache3). rewrite Hres. cbn [res final events].
  split; [reflexivity |]. split; [now rewrite Hcache3 |].
  clearbody og. unfold uploads. csimpl. rewrite !omap_app.
  rewrite (omap_silent upload_of _ silent_upload Hsil).
  rewrite (omap_silent upload_of _ silent_upload Hsil3). reflexivity.
Qed.

Lemma uploadImage_loop_stored_but_failed (f : File.t) (entityId : string)
    (options : Options) (maxRetries : nat) (d : Z) :
  forall (remaining attempt : nat) (lastError : option JsError) (s : Service),
    (forall p, miss (cache s) p) ->
    let o := uploadImage_loop w f entityId options maxRetries d remaining attempt
               lastError s in
    res o = Ret (UploadFailed
                   (lastError_or_default
                      (match remaining with
                       | O => lastError
                       | S _ => Some (TypeError_read "undefined" "split")
                       end)) maxRetries)
    /\ cache (final o) = cache s
    /\ length (uploads (events o)) = remaining.
Proof.
  induction remaining as [| remaining IH]; intros attempt lastError s Hmiss; cbv zeta.
  - cbn. auto.
  - rewrite uploadImage_loop_turn. cbv zeta.
    destruct (uploadAttempt_stored_but_failed f entityId options attempt maxRetries s Hmiss)
      as (Hres & Hcache & Hlen).
    set (oa := uploadAttempt w f entityId options attempt maxRetries s) in *.
    rewrite Hres.
    destruct (IH (S attempt) (Some (TypeError_read "undefined" "split")) (final oa))
      as (Hres' & Hcache' & Hlen').
    { intros p. unfold miss. rewrite Hcache. apply Hmiss. }
    cbn [res final events]. rewrite Hres'.
    split; [now destruct remaining |]. split; [congruence |].
    unfold uploads in *. rewrite omap_app, length_app, Hlen.
    change (?e :: ?l ++ ?r) with ([e] ++ l ++ r).
    rewrite !omap_app, !length_app, Hlen'.
    destruct (attempt <? maxRetries)%nat; cbn; lia.
Qed.

(** X11. When the backend accepts every upload but no public URL can be
    made (the SDK gives none and the configured Supabase URL is unset or
    has no ["//"]),
    [uploadImage] counts every attempt as failed: it stores the file
    [maxRetries] times and then reports failure
    with the [TypeError] of [constructCdnUrl], the cache being as it was. *)
Theorem uploadImage_stores_then_fails (f : File.t) (entityId : string)
    (options : Options) (s : Service) :
  (forall p, miss (cache s) p) ->
  let o := uploadImage w f entityId options s in
  res o = Ret (UploadFailed (ErrorObject (TypeError_read "undefined" "split"))
                 (effective_maxRetries options))
  /\ length (uploads (events o)) = effective_maxRetries options
  /\ cache (final o) = cache s.
Proof.
  intros Hmiss. cbv zeta. unfold uploadImage.
  destruct (uploadImage_loop_stored_but_failed f entityId options
              (effective_maxRetries options) (effective_retryDelay options)
              (effective_maxRetries options) 1 None s Hmiss) as (Hres & Hcache & Hlen).
  rewrite Hres. split; [| auto].
  pose proof (effective_maxRetries_pos options).
  destruct (effective_maxRetries options); [lia | reflexivity].
Qed.

End StoredTwice.

Lemma uploadImage_stores_then_fails_witness :
  res (ImageService.uploadImage MoreExamples.storing_only Examples.cat "42"
         ImageService.no_options ImageService.new_service)
  = Ret (ImageService.UploadFailed
           (ImageService.ErrorObject (TypeError_read "undefined" "split")) 3)
  /\ length (Trace.uploads
               (events (ImageService.uploadImage MoreExamples.storing_only Examples.cat "42"
                          ImageService.no_options ImageService.new_service))) = 3%nat.
Proof.
  destruct (uploadImage_stores_then_fails MoreExamples.storing_only
              ltac:(intros; eexists; reflexivity) ltac:(reflexivity)
              ltac:(right; eexists; split; reflexivity)
              Examples.cat "42" ImageService.no_options ImageService.new_service)
    as (Hres & Hlen & _).
  - intros p. left. apply lookup_empty.
  - split; [exact Hres | exact Hlen].
Defined.

(** ** What the form of a new post uploads *)

Section FormUploads.
Import ImageService ImageUrls UploadTrace Trace Batch Attempts.
Context (w : World).

(** The ceiling of [handleImageUpload] is the threshold of [uploadImages]. *)
Lemma accepted_within (f : File.t) :
  valid (validateFile f CreatePost_validate_options) = true ->
  compressImage w f CreatePost_upload_options
  = fun s => mkOut (Ret f) s [].
Proof.
  intros Hvalid. unfold compressImage, try_catch.
  assert (Hle : Qle_bool (inject_Z (File.size f))
                  (maxSizeMB (spread IMAGE_CONFIG CreatePost_upload_options) * 1024 * 1024)
                = true).
  { unfold validateFile in Hvalid. cbv zeta in Hvalid.
    change (validate_maxSize CreatePost_validate_options) with (5 * 1024 * 1024)%Q in Hvalid.
    unfold Qle_bool in *. cbn [Qnum Qden inject_Z] in *.
    change (Qnum (maxSizeMB (spread IMAGE_CONFIG CreatePost_upload_options) * 1024 * 1024))
      with (Qnum (5 * 1024 * 1024)).
    change (Qden (maxSizeMB (spread IMAGE_CONFIG CreatePost_upload_options) * 1024 * 1024))
      with (Qden (5 * 1024 * 1024)).
    destruct (_ <=? _)%Z; [reflexivity |].
    cbn [negb] in Hvalid.
    destruct (negb (array_includes _ _)); discriminate. }
  rewrite Hle. reflexivity.
Qed.

Lemma uploadAttempt_original (f : File.t) (postId : string) (attempt maxRetries : nat)
    (s : Service) :
  valid (validateFile f CreatePost_validate_options) = true ->
  let o := uploadAttempt w f postId CreatePost_upload_options attempt maxRetries s in
  compressions (events o) = [] /\ stored (events o) = [f].
Proof.
  intros Hvalid. cbv zeta. rewrite uploadAttempt_run. cbv zeta.
  rewrite (accepted_within f Hvalid). cbn [res final events app].
  set (path := generated_name _ _ _ _).
  set (s3 := mkService _ _).
  assert (Hg : compressions (events (getPublicUrl w path s3)) = []
               /\ stored (events (getPublicUrl w path s3)) = []).
  { destruct (getPublicUrl_cases w path s3) as [(url & _ & _ & ->) | (_ & -> & _)];
      split; reflexivity. }
  destruct Hg as (Hgc & Hgs).
  set (og := getPublicUrl w path s3) in *. clearbody og.
  unfold compressions, stored in *.
  destruct (storage_upload w _ bucket path f) as [[d [e |]] | e];
    cbn [up_error res final events]; [now split | | now split].
  destruct (res og); cbn [res final events];
    change (?e :: ?e' :: ?l) with ([e; e'] ++ l);
    rewrite !omap_app, Hgc, Hgs; split; reflexivity.
Qed.

Lemma uploadImage_loop_original (f : File.t) (postId : string) (maxRetries : nat) (d : Z) :
  valid (validateFile f CreatePost_validate_options) = true ->
  forall (remaining attempt : nat) (lastError : option JsError) (s : Service),
    let o := uploadImage_loop w f postId CreatePost_upload_options maxRetries d
               remaining attempt lastError s in
    compressions (events o) = [] /\ Forall (eq f) (stored (events o)).
Proof.
  intros Hvalid.
  induction remaining as [| remaining IH]; intros attempt lastError s; cbv zeta.
  - cbn. split; [reflexivity | constructor].
  - rewrite uploadImage_loop_turn. cbv zeta.
    destruct (uploadAttempt_original f postId attempt maxRetries s Hvalid) as (Hc & Hs).
    set (oa := uploadAttempt w f postId CreatePost_upload_options attempt maxRetries s) in *.
    clearbody oa.
    destruct (res oa) as [data | e]; cbn [res final events].
    + rewrite Hc, Hs. split; [reflexivity | repeat constructor].
    + destruct (IH (S attempt) (Some e) (final oa)) as (Hc' & Hs').
      set (o' := uploadImage_loop _ _ _ _ _ _ _ _ _ _) in *. clearbody o'.
      unfold compressions, stored in *.
      change (?e :: ?l ++ ?r) with ([e] ++ l ++ r).
      rewrite !omap_app, Hc, Hs, Hc'.
      destruct (attempt <? maxRetries)%nat; cbn; split; auto.
Qed.

(** X12. The images of a new post are stored as the user chose them: a
    file that [handleImageUpload] accepted (at most 5 MB, by
    [validateFile]) is never handed to the compression library by
    [uploadImages], whose threshold is the same 5 MB, and every file that
    reaches the storage backend is one of the accepted files. *)
Theorem form_images_stored_uncompressed (files : list File.t) (postId : string)
    (s : Service) :
  Forall (fun f => valid (validateFile f CreatePost_validate_options) = true) files ->
  let o := uploadMultipleImages w files postId CreatePost_upload_options s in
  compressions (events o) = []
  /\ Forall (fun f => In f files) (stored (events o)).
Proof.
  intros Hfiles. cbv zeta.
  remember (uploadMultipleImages w files postId CreatePost_upload_options s) as o eqn:Ho.
  unfold uploadMultipleImages in Ho.
  destruct (uploadMultipleImages_loop_run w postId CreatePost_upload_options files [] [] [] s)
    as (rs & Hres & _ & Hev & _).
  cbv zeta in Hres, Hev.
  bind_step Ho r1 s1 ev1 Hm. cbn [res events] in Hres, Hev. subst r1 ev1.
  cbn [fst snd] in Ho. unfold ret in Ho. subst o. cbn [events]. rewrite app_nil_r.
  clear Hm s1 rs.
  revert s. induction Hfiles as [| f files Hf Hfiles IH]; intros s.
  - split; [reflexivity | constructor].
  - cbn [upload_in_order]. cbv zeta. csimpl.
    destruct (IH (final (uploadImage w f postId CreatePost_upload_options s))) as (Hc & Hs).
    destruct (uploadImage_loop_original f postId
                (effective_maxRetries CreatePost_upload_options)
                (effective_retryDelay CreatePost_upload_options) Hf
                (effective_maxRetries CreatePost_upload_options) 1 None s) as (Hc1 & Hs1).
    fold (uploadImage w f postId CreatePost_upload_options s) in Hc1, Hs1.
    set (o1 := uploadImage w f postId CreatePost_upload_options s) in *. clearbody o1.
    unfold compressions, stored in *. rewrite !omap_app, Hc1, Hc.
    split; [reflexivity |].
    apply Forall_app. split.
    + eapply Forall_impl; [exact Hs1 |]. intros f' <-. now left.
    + eapply Forall_impl; [exact Hs |]. intros f' Hin. now right.
Qed.

End FormUploads.

Lemma form_images_stored_uncompressed_witness :
  UploadTrace.compressions
    (events (ImageService.uploadMultipleImages Examples.flaky
               [Examples.cat; Examples.poster] "42"
               ImageService.CreatePost_upload_options ImageService.new_service)) = [].
Proof.
  apply (form_images_stored_uncompressed Examples.flaky [Examples.cat; Examples.poster] "42"
           ImageService.new_service).
  repeat constructor.
Defined.

(** ** The image handlers of the form *)

Section FormPreviews.
Import ImageService CreatePost.
Context (createImagePreview : nat -> File.t -> Res PreviewData).

Lemma filter_index_delete {A} (index : nat) (arr : list A) :
  forall i, (i <= index)%nat -> filter_index index i arr = delete (index - i)%nat arr.
Proof.
  induction arr as [| x rest IH]; intros i Hi; [reflexivity |].
  cbn [filter_index]. destruct (Nat.eqb_spec i index) as [-> | Hne].
  - rewrite Nat.sub_diag. cbn. clear IH Hi.
    assert (H : forall (l : list A) j, (index < j)%nat -> filter_index index j l = l).
    { induction l as [| y l IHl]; intros j Hj; [reflexivity |].
      cbn [filter_index]. destruct (Nat.eqb_spec j index); [lia |].
      rewrite IHl by lia. reflexivity. }
    apply H. lia.
  - rewrite IH by lia.
    replace (index - i)%nat with (S (index - S i)) by lia. reflexivity.
Qed.

(** X13. [removeImage(index)] takes out the preview at position [index]
    and nothing else: the previews before and after it stay, in their
    order; an index past the end changes nothing. *)
Theorem removeImage_takes_one_out (index : nat) (s : Form) :
  let o := removeImage index s in
  res o = Ret tt
  /\ imagePreviews (final o)
     = take index (imagePreviews s) ++ drop (S index) (imagePreviews s)
  /\ form_error (final o) = form_error s
  /\ ((length (imagePreviews s) <= index)%nat ->
        imagePreviews (final o) = imagePreviews s).
Proof.
  cbv zeta. unfold removeImage, setImagePreviews, modify. cbn [res final imagePreviews form_error].
  rewrite filter_index_delete by lia. rewrite Nat.sub_0_r, delete_take_drop.
  repeat split; try reflexivity.
  intros Hlen. rewrite take_ge, drop_ge by lia. apply app_nil_r.
Qed.

(** One accepted file: its preview is appended, or the error is set. *)
Lemma preview_step (file : File.t) (f : File.t) (newPreviews : list Preview) (s : Form) :
  try_catch
    (let* previewData := call_createImagePreview createImagePreview file in
     ret (newPreviews
            ++ [{| preview_file := f;
                   preview := pd_preview previewData;
                   originalName := File.name file;
                   dimensions := pd_dimensions previewData |}]))
    (fun error =>
       let* _ := setError ProcessingFailed in
       ret newPreviews) s
  = match createImagePreview (clock s) file with
    | Ret previewData =>
        mkOut (Ret (newPreviews
                      ++ [{| preview_file := f;
                             preview := pd_preview previewData;
                             originalName := File.name file;
                             dimensions := pd_dimensions previewData |}]))
          (mkForm (imagePreviews s) (form_error s) (S (clock s))) []
    | Throw _ =>
        mkOut (Ret newPreviews)
          (mkForm (imagePreviews s) (Some ProcessingFailed) (S (clock s))) []
    end.
Proof.
  unfold try_catch, bind, call_createImagePreview, setError, modify, ret.
  cbn [res final events].
  destruct (createImagePreview (clock s) file); reflexivity.
Qed.

Lemma handleImageUpload_loop_run :
  forall (files : list File.t) (newPreviews : list Preview) (s : Form),
    let o := handleImageUpload_loop createImagePreview files newPreviews s in
    exists added,
      res o = Ret (newPreviews ++ added)
      /\ events o = []
      /\ imagePreviews (final o) = imagePreviews s
      /\ sublist (preview_file <$> added) (filter (fun f => Is_true (accepted f)) files)
      /\ Forall (fun p => originalName p = File.name (preview_file p)) added
      /\ ((forall t f, is_ret (createImagePreview t f) = true) ->
            preview_file <$> added = filter (fun f => Is_true (accepted f)) files).
Proof.
  induction files as [| file rest IH]; intros newPreviews s; cbv zeta.
  - exists []. cbn. rewrite app_nil_r. repeat split; constructor.
  - remember (handleImageUpload_loop createImagePreview (file :: rest) newPreviews s)
      as o eqn:Ho.
    cbn [handleImageUpload_loop] in Ho. cbv zeta in Ho.
    fold (accepted file) in Ho.
    rewrite filter_cons.
    destruct (accepted file) eqn:Hacc; cbn [negb] in Ho.
    + rewrite decide_True by (cbn; exact I).
      bind_step Ho r1 s1 ev1 Hm. rewrite preview_step in Hm.
      destruct (createImagePreview (clock s) file) as [previewData | e] eqn:Hcall;
        injection Hm as <- <- <-.
      * match type of Ho with
        | context [handleImageUpload_loop _ rest ?n ?s'] =>
            destruct (IH n s') as (added & Hres & Hev & Hprev & Hsub & Hnames & Hall)
        end.
        cbv zeta in Hres, Hev, Hprev.
        match type of Hres with
        | context [newPreviews ++ [?x]] => set (p := x) in *
        end.
        exists (p :: added).
        subst o. cbn [res final events]. rewrite Hres, Hev, Hprev.
        rewrite <- app_assoc. cbn [app imagePreviews].
        repeat split; try reflexivity.
        -- csimpl. now constructor.
        -- constructor; [reflexivity | exact Hnames].
        -- intros Hnever. csimpl. f_equal. now apply Hall.
      * match type of Ho with
        | context [handleImageUpload_loop _ rest ?n ?s'] =>
            destruct (IH n s') as (added & Hres & Hev & Hprev & Hsub & Hnames & Hall)
        end.
        cbv zeta in Hres, Hev, Hprev.
        exists added.
        subst o. cbn [res final events]. rewrite Hres, Hev, Hprev.
        cbn [app imagePreviews].
        repeat split; try reflexivity; try assumption.
        -- now constructor.
        -- intros Hnever. specialize (Hnever (clock s) file).
           rewrite Hcall in Hnever. discriminate.
    + rewrite decide_False by (cbn; tauto).
      unfold bind at 1, setError, modify in Ho. cbn [res final events app] in Ho.
      match type of Ho with
      | context [handleImageUpload_loop _ rest ?n ?s'] =>
          destruct (IH n s') as (added & Hres & Hev & Hprev & Hsub & Hnames & Hall)
      end.
      cbv zeta in Hres, Hev, Hprev.
      exists added.
      subst o. cbn [res final events]. rewrite Hres, Hev, Hprev.
      cbn [app imagePreviews].
      repeat split; try reflexivity; assumption.
Qed.

(** X14. [handleImageUpload] never throws and only ever appends to the
    previews: what it adds are, in the order of the selection, files that
    [validateFile] accepts under the limits of the form (5 MB, four image
    types), each under its own name; a rejected file is never added, and
    when no preview fails, every accepted file is. *)
Theorem handleImageUpload_adds_accepted (files : list File.t) (s : Form) :
  let o := handleImageUpload createImagePreview files s in
  res o = Ret tt
  /\ events o = []
  /\ exists added,
       imagePreviews (final o) = imagePreviews s ++ added
       /\ sublist (preview_file <$> added) (filter (fun f => Is_true (accepted f)) files)
       /\ Forall (fun p => originalName p = File.name (preview_file p)) added
       /\ ((forall t f, is_ret (createImagePreview t f) = true) ->
             preview_file <$> added = filter (fun f => Is_true (accepted f)) files).
Proof.
  cbv zeta.
  remember (handleImageUpload createImagePreview files s) as o eqn:Ho.
  unfold handleImageUpload in Ho.
  destruct (handleImageUpload_loop_run files [] s)
    as (added & Hres & Hev & Hprev & Hsub & Hnames & Hall).
  cbv zeta in Hres, Hev, Hprev.
  bind_step Ho r1 s1 ev1 Hm. cbn [res final events app] in Hres, Hev, Hprev. subst r1 ev1.
  destruct added as [| p added]; cbn [length Nat.ltb Nat.leb] in Ho.
  - unfold ret in Ho. subst o. cbn [res final events app].
    repeat split; try reflexivity.
    exists []. rewrite app_nil_r. repeat split; assumption.
  - unfold setImagePreviews, modify in Ho. subst o. cbn [res final events app imagePreviews].
    repeat split; try reflexivity.
    exists (p :: added). rewrite Hprev. repeat split; assumption.
Qed.

End FormPreviews.

(** ** What [uploadImages] reports *)

Section FormReport.
Import ImageService Batch CreatePost.
Context (w : ImageService.World) (hw : Http.World).
Context (JSON_parse : string -> Res JsValue).
Context (JSON_stringify : JsValue -> option string).
Context (Error_toString : JsError -> string).

Lemma upload_in_order_length (entityId : string) (options : Options) :
  forall (files : list File.t) (s : Service),
    length (upload_in_order w entityId options files s) = length files.
Proof.
  induction files as [| f files IH]; intros s; [reflexivity |].
  cbn [upload_in_order]. cbv zeta. cbn [length]. now rewrite IH.
Qed.

(** The batch as a whole, by the results of its runs. *)
Lemma uploadMultipleImages_run (files : list File.t) (entityId : string)
    (options : Options) (s : Service) :
  let o := uploadMultipleImages w files entityId options s in
  exists rs : list UploadResult,
    length rs = length files
    /\ res o = Ret {| batch_success := (length (omap failure_of (zip files rs)) =? 0)%nat;
                      results := rs;
                      successfulUploads := omap data_of rs;
                      failedUploads := omap failure_of (zip files rs);
                      summary := {| total := length files;
                                    successful := length (omap data_of rs);
                                    failed := length (omap failure_of (zip files rs)) |} |}.
Proof.
  cbv zeta.
  remember (uploadMultipleImages w files entityId options s) as o eqn:Ho.
  unfold uploadMultipleImages in Ho.
  destruct (uploadMultipleImages_loop_run w entityId options files [] [] [] s)
    as (rs & Hres & Hruns & _ & _).
  cbv zeta in Hres, Hruns.
  bind_step Ho r1 s1 ev1 Hm. cbn [res] in Hres. subst r1.
  unfold ret in Ho. subst o. cbn [res app].
  exists rs. split; [| reflexivity].
  apply (f_equal length) in Hruns. rewrite !length_fmap in Hruns.
  now rewrite <- Hruns, upload_in_order_length.
Qed.

(** When no run failed, every file has its data. *)
Lemma all_stored :
  forall (files : list File.t) (rs : list UploadResult),
    length rs = length files ->
    omap failure_of (zip files rs) = [] ->
    length (omap data_of rs) = length files.
Proof.
  induction files as [| f files IH]; intros [| r rs] Hlen Hnone; try discriminate.
  - reflexivity.
  - csimpl in *. unfold failure_of in Hnone at 1. cbn [snd fst] in Hnone.
    destruct r as [data a | err n]; [| discriminate].
    cbn. f_equal. apply IH; [lia | exact Hnone].
Qed.

(** The request that stores the metadata never makes [uploadImages] fail. *)
Lemma report_run (batchM : M Service BatchResult)
    (postM : list UploadData -> M nat Http.ApiResult)
    (ok : list UploadData -> list ImageReport) (ko : list FailedUpload -> list ImageReport)
    (h : JsError -> M Page (list ImageReport)) (p : Page) (b : BatchResult) :
  res (batchM (service p)) = Ret b ->
  try_catch
    (let* uploadResult := on_service batchM in
     if batch_success uploadResult
     then
       let* _ :=
         try_catch
           (let* response := on_client (postM (successfulUploads uploadResult)) in
            ret tt)
           (fun metadataError => ret tt) in
       ret (ok (successfulUploads uploadResult))
     else ret (ko (failedUploads uploadResult)))
    h p
  = if batch_success b
    then mkOut (Ret (ok (successfulUploads b)))
           (mkPage (final (batchM (service p)))
              (final (postM (successfulUploads b) (client p))))
           (events (batchM (service p)) ++ events (postM (successfulUploads b) (client p)))
    else mkOut (Ret (ko (failedUploads b)))
           (mkPage (final (batchM (service p))) (client p))
           (events (batchM (service p))).
Proof.
  intros Hb. unfold try_catch, bind, on_service, on_client, ret.
  destruct (batchM (service p)) as [rb sb evb]. cbn [res final events] in *. subst rb.
  cbn [res final events]. destruct (batch_success b); cbn [res final events service client].
  - destruct (postM (successfulUploads b) (client p)) as [[r | e] c ev];
      cbn [res final events]; rewrite ?app_nil_r; reflexivity.
  - rewrite app_nil_r. reflexivity.
Qed.

(** X15. [uploadImages] reports all or nothing.  When every upload of the
    batch succeeded, the metadata of all images goes to
    [/api/images/store-metadata] in one request and every image is reported
    as uploaded, whatever the server answers.  When one upload failed, only
    the failed images are reported, nothing is sent to the server, and the
    images that were stored stay unregistered. *)
Theorem uploadImages_all_or_failures (imagePreviews : list Preview) (postId : string)
    (p : Page) :
  imagePreviews <> [] ->
  let batch := uploadMultipleImages w (preview_file <$> imagePreviews) postId
                 CreatePost_upload_options (service p) in
  let o := uploadImages w hw JSON_parse JSON_stringify Error_toString
             imagePreviews postId p in
  exists b, res batch = Ret b
    /\ service (final o) = final batch
    /\ match failedUploads b with
       | [] =>
           let sent := ExtraApiClient.post hw JSON_parse JSON_stringify
                         "/api/images/store-metadata"
                         (metadata_body postId (successfulUploads b)) (client p) in
           res o = Ret (uploaded_report <$> successfulUploads b)
           /\ length (successfulUploads b) = length imagePreviews
           /\ events o = events batch ++ events sent
           /\ client (final o) = final sent
       | _ :: _ =>
           res o = Ret (failed_report Error_toString <$> failedUploads b)
           /\ Forall (fun r => report_success r = false)
                (failed_report Error_toString <$> failedUploads b)
           /\ events o = events batch
           /\ client (final o) = client p
       end.
Proof.
  intros Hsome. cbv zeta.
  destruct (uploadMultipleImages_run (preview_file <$> imagePreviews) postId
              CreatePost_upload_options (service p)) as (rs & Hlen & Hres).
  cbv zeta in Hres.
  unfold uploadImages.
  destruct imagePreviews as [| preview0 previews]; [contradiction |].
  cbn [length Nat.eqb]. cbv zeta.
  set (files := preview_file <$> preview0 :: previews) in *.
  assert (Hfiles : length files = length (preview0 :: previews))
    by (unfold files; now rewrite length_fmap).
  clearbody files.
  pose proof (report_run
                (uploadMultipleImages w files postId CreatePost_upload_options)
                (fun images => ExtraApiClient.post hw JSON_parse JSON_stringify
                                 "/api/images/store-metadata" (metadata_body postId images))
                (fmap uploaded_report) (fmap (failed_report Error_toString))
                (fun error =>
                   ret ((fun preview =>
                           NotUploaded (originalName preview)
                             (getUserFriendlyErrorMessage Error_toString (ErrorObject error)))
                          <$> preview0 :: previews))
                p _ Hres) as Hrun.
  cbv beta in Hrun. rewrite Hrun. clear Hrun.
  eexists. split; [exact Hres |].
  cbn [batch_success failedUploads successfulUploads].
  destruct (omap failure_of (zip files rs)) as [| failed fs] eqn:Hfs;
    cbn [length Nat.eqb res final events service client].
  - cbv zeta. repeat split; try reflexivity.
    now rewrite (all_stored files rs Hlen Hfs).
  - repeat split; try reflexivity.
    apply Forall_fmap, Forall_true. reflexivity.
Qed.

End FormReport.

Lemma uploadImages_all_or_failures_witness :
  exists b,
    res (ImageService.uploadMultipleImages Examples.flaky [Examples.cat] "42"
           ImageService.CreatePost_upload_options ImageService.new_service) = Ret b
    /\ CreatePost.service
         (final (CreatePost.uploadImages Examples.flaky Examples.signed_in
                   (fun _ => Throw (mkError "Unexpected token")) (fun _ => None) message
                   [CreatePost.mkPreview Examples.cat "blob:1" "cat.png" (200, 150)%Q] "42"
                   (CreatePost.mkPage ImageService.new_service 0)))
       = final (ImageService.uploadMultipleImages Examples.flaky [Examples.cat] "42"
                  ImageService.CreatePost_upload_options ImageService.new_service).
Proof.
  destruct (uploadImages_all_or_failures Examples.flaky Examples.signed_in
              (fun _ => Throw (mkError "Unexpected token")) (fun _ => None) message
              [CreatePost.mkPreview Examples.cat "blob:1" "cat.png" (200, 150)%Q] "42"
              (CreatePost.mkPage ImageService.new_service 0))
    as (b & Hb & Hs & _).
  - discriminate.
  - exists b. split; [exact Hb | exact Hs].
Defined.

(** ** The token of the older client *)

Section OlderClient.
Import Http Rest.
Context (w : World).
Context (JSON_parse : string -> Res JsValue).
Context (JSON_stringify : JsValue -> option string).

(** X16. The older client takes its token from the browser storage alone:
    no method calls the auth SDK, each sends exactly one request, and the
    request has the header [Authorization: Bearer <token>] exactly when the
    scan of the storage yields a token.  The entry under
    ["supabase.auth.token"] comes first: a token read from it is the one
    sent.  A storage that throws, or holds none of the keys, leaves the
    request without the header. *)
Theorem older_client_reads_storage (m : Method) (endpoint : string) (body : JsValue)
    (t : nat) :
  let o := run w JSON_parse JSON_stringify Older m endpoint body t in
  let token := match ExtraApiClient.scan_keys w JSON_parse ExtraApiClient.possibleKeys with
               | Ret tk => tk
               | Throw _ => None
               end in
  exists req : Request,
    events o = [EvFetch req]
    /\ final o = S t
    /\ req_url req = ExtraApiClient.API_URL w +:+ endpoint
    /\ req_method req = method_name m
    /\ (forall v, In ("Authorization", v) (req_headers req) <->
                  exists tk, token = Some tk /\ v = "Bearer " +:+ tk)
    /\ (forall entry tk,
          localStorage_getItem w "supabase.auth.token" = Ret (Some entry) ->
          truthy_string entry = true ->
          ExtraApiClient.token_of_entry JSON_parse entry = Ret (Some tk) ->
          token = Some tk)
    /\ ((forall key, localStorage_getItem w key = Ret None
                     \/ exists e, localStorage_getItem w key = Throw e) ->
        token = None /\ req_headers req = json_headers).
Proof.
  cbv zeta.
  destruct (run_method_once w JSON_parse JSON_stringify Older m endpoint body t)
    as (token & Htok & Hus & Hrun).
  cbv zeta in Hrun. rewrite Hrun. cbn [res final events app].
  assert (Hscan : match ExtraApiClient.scan_keys w JSON_parse ExtraApiClient.possibleKeys with
                  | Ret tk => tk
                  | Throw _ => None
                  end = token).
  { cbn [getAuthToken] in Htok. unfold ExtraApiClient.getAuthToken in Htok.
    destruct (ExtraApiClient.scan_keys _ _ _); unfold ret in Htok; congruence. }
  rewrite Hscan. clear Hrun Htok.
  eexists. split; [reflexivity |]. split; [reflexivity |].
  split; [reflexivity |]. split; [reflexivity |].
  cbn [request_of req_headers]. split; [| split].
  - intros v. unfold json_headers. split.
    + intros Hin. apply in_app_or in Hin. destruct Hin as [[[=] | []] | Hin].
      destruct token as [tk |]; [| destruct Hin].
      destruct Hin as [[= <-] | []]. eauto.
    + intros (tk & -> & ->). apply in_or_app. right. now left.
  - intros entry tk Hitem Hentry Hparse. rewrite <- Hscan.
    cbn [ExtraApiClient.possibleKeys ExtraApiClient.scan_keys]. rewrite Hitem.
    destruct entry as [| c entry]; [discriminate |]. now rewrite Hparse.
  - intros Hnone.
    assert (Hempty : forall keys, match ExtraApiClient.scan_keys w JSON_parse keys with
                                  | Ret tk => tk
                                  | Throw _ => None
                                  end = None).
    { induction keys as [| key keys IH]; cbn [ExtraApiClient.scan_keys].
      - destruct (Hnone "access_token") as [-> | (e & ->)]; reflexivity.
      - destruct (Hnone key) as [-> | (e & ->)]; [exact IH | reflexivity]. }
    rewrite Hempty in Hscan. subst token. split; [reflexivity | apply app_nil_r].
Qed.

End OlderClient.

Lemma older_client_reads_storage_witness :
  exists req : Request,
    events (Rest.run Examples.signed_in (fun _ => Throw (mkError "Unexpected token"))
              (fun _ => None) Rest.Older Rest.GET "/api/posts" JNull 0) = [EvFetch req]
    /\ req_headers req = Http.json_headers.
Proof.
  destruct (older_client_reads_storage Examples.signed_in
              (fun _ => Throw (mkError "Unexpected token")) (fun _ => None)
              Rest.GET "/api/posts" JNull 0)
    as (req & Hev & _ & _ & _ & _ & _ & Hnone).
  exists req. split; [exact Hev |].
  apply Hnone. intros key. now left.
Defined.
